(** * Travela chat widget: message lifecycle and reply formatting

    A shallow embedding of the chat components of the repository
    (ChatApp, SupportChatWidget, ChatResponseView) and the properties
    their specification states about them, followed by properties of
    the rest of their code: sessions and restarts, the keyboard handler,
    the frame of the widget, the copy button, the code renderer and the
    rules of the line formatter.

    Conventions of the embedding.
    - A JavaScript string is a [string]: one [ascii] per UTF-16 code unit,
      for the code units below 256.
    - [Date.now()] and [new Date()] are integers (milliseconds), read from
      the environment of a call.
    - React state is a record threaded through the handlers; the
      functional updates [setMessages(prev => ...)] apply to that record.
    - [localStorage] is a finite map from keys to stored items. *)

From Stdlib Require Import ZArith Ascii String Bool Lia DecimalString DecimalPos DecimalZ.
From stdpp Require Import base option list strings gmap sorting.

Local Open Scope Z_scope.

(** ** JavaScript strings *)

Module JsString.

Definition code (c : ascii) : nat := nat_of_ascii c.

(** [WhiteSpace] and [LineTerminator] of ECMAScript, below code unit 256:
    TAB, LF, VT, FF, CR, SP and NBSP.  Both [String.prototype.trim] and
    the regular expression class [\s] use this set. *)
Definition isWhiteSpace (c : ascii) : bool :=
  let n := code c in
  ((9 <=? n) && (n <=? 13) || (n =? 32) || (n =? 160))%nat.

(** Line terminators: what the regular expression [.] does not match. *)
Definition isLineTerminator (c : ascii) : bool :=
  let n := code c in ((n =? 10) || (n =? 13))%nat.

Fixpoint trimStart (s : string) : string :=
  match s with
  | String c s' => if isWhiteSpace c then trimStart s' else s
  | EmptyString => EmptyString
  end.

Fixpoint trimEnd (s : string) : string :=
  match s with
  | String c s' =>
      match trimEnd s' with
      | EmptyString => if isWhiteSpace c then EmptyString else String c EmptyString
      | t => String c t
      end
  | EmptyString => EmptyString
  end.

Definition trim (s : string) : string := trimEnd (trimStart s).

(** Truthiness of a string: [!s] is [negb (truthy s)]. *)
Definition truthy (s : string) : bool :=
  match s with EmptyString => false | _ => true end.

Definition startsWith (p s : string) : bool := String.prefix p s.

Fixpoint includes (p s : string) : bool :=
  String.prefix p s ||
  match s with
  | String _ s' => includes p s'
  | EmptyString => false
  end.

Fixpoint endsWith (p s : string) : bool :=
  String.eqb s p ||
  match s with
  | String _ s' => endsWith p s'
  | EmptyString => false
  end.

(** [s.split(sep)] for a separator of one character. *)
Fixpoint split (sep : ascii) (s : string) : list string :=
  match s with
  | EmptyString => [EmptyString]
  | String c s' =>
      if Ascii.eqb c sep then EmptyString :: split sep s'
      else match split sep s' with
           | h :: t => String c h :: t
           | [] => [String c EmptyString]
           end
  end.

(** [s.slice(a, -b)]: from index [a] up to [b] characters before the end. *)
Definition slice (a b : nat) (s : string) : string :=
  String.substring a (String.length s - b - a) s.

Fixpoint concat (l : list string) : string :=
  match l with
  | [] => EmptyString
  | s :: l' => s +:+ concat l'
  end.

End JsString.

(** ** Regular expressions

    The fragment of ECMAScript regular expressions the components use,
    with the backtracking order of the language: a matcher returns every
    way a pattern matches at the start of a string, first choice first.
    Quantifiers range over one-character classes, which is all the three
    patterns of the source need. *)

Module RegExp.

Inductive regex : Type :=
| Chr (c : ascii)                  (* a literal character *)
| Any (p : ascii -> bool)          (* one character of a class *)
| Seq (r1 r2 : regex)
| Alt (r1 r2 : regex)              (* r1|r2 *)
| Opt (r : regex)                  (* r?, greedy *)
| Plus (p : ascii -> bool)         (* [class]+, greedy *)
| StarLazy (p : ascii -> bool)     (* [class]*?, lazy *)
| Group (n : nat) (r : regex).     (* the n-th capturing group *)

(** One way of matching: the text consumed, the groups captured (latest
    first) and the text left. *)
Record result : Type := Result {
  matched : string;
  groups : list (nat * string);
  rest : string
}.

(** [Canonicalize] for the [i] flag without the [u] flag: a character is
    compared by its upper case when that is one code unit; below 256
    that maps a-z and the accented lower-case letters. *)
Definition canonicalize (c : ascii) : ascii :=
  let n := JsString.code c in
  if ((97 <=? n) && (n <=? 122)
      || (224 <=? n) && (n <=? 254) && negb (n =? 247))%nat
  then ascii_of_nat (n - 32) else c.

Definition chr_eq (ignoreCase : bool) (a b : ascii) : bool :=
  if ignoreCase then Ascii.eqb (canonicalize a) (canonicalize b)
  else Ascii.eqb a b.

Definition consume (c : ascii) (x : string * string) : string * string :=
  (String c x.1, x.2).

(** [class]+ : the longest run first, one character last. *)
Fixpoint plus (p : ascii -> bool) (s : string) : list (string * string) :=
  match s with
  | String c s' =>
      if p c then (consume c <$> plus p s') ++ [(String c EmptyString, s')]
      else []
  | EmptyString => []
  end.

(** [class]*? : nothing first, the longest run last. *)
Fixpoint starLazy (p : ascii -> bool) (s : string) : list (string * string) :=
  (EmptyString, s) ::
  match s with
  | String c s' => if p c then consume c <$> starLazy p s' else []
  | EmptyString => []
  end.

Definition plain (x : string * string) : result := Result x.1 [] x.2.

Fixpoint matches (ignoreCase : bool) (r : regex) (s : string) : list result :=
  match r with
  | Chr c =>
      match s with
      | String a s' =>
          if chr_eq ignoreCase a c then [Result (String a EmptyString) [] s'] else []
      | EmptyString => []
      end
  | Any p =>
      match s with
      | String a s' => if p a then [Result (String a EmptyString) [] s'] else []
      | EmptyString => []
      end
  | Seq r1 r2 =>
      x ← matches ignoreCase r1 s;
      y ← matches ignoreCase r2 (rest x);
      [Result (matched x +:+ matched y) (groups y ++ groups x) (rest y)]
  | Alt r1 r2 => matches ignoreCase r1 s ++ matches ignoreCase r2 s
  | Opt r1 => matches ignoreCase r1 s ++ [Result EmptyString [] s]
  | Plus p => plain <$> plus p s
  | StarLazy p => plain <$> starLazy p s
  | Group n r1 =>
      (fun x => Result (matched x) ((n, matched x) :: groups x) (rest x))
        <$> matches ignoreCase r1 s
  end.

(** A literal word. *)
Fixpoint Str (w : string) : regex :=
  match w with
  | String c EmptyString => Chr c
  | String c w' => Seq (Chr c) (Str w')
  | EmptyString => Opt (Any (fun _ => false))
  end.

Fixpoint ngroups (r : regex) : nat :=
  match r with
  | Seq r1 r2 | Alt r1 r2 => (ngroups r1 + ngroups r2)%nat
  | Opt r1 => ngroups r1
  | Group _ r1 => S (ngroups r1)
  | _ => 0%nat
  end.

(** [$n] of a replacement, and the captures [split] splices in. *)
Fixpoint lookup_group (n : nat) (gs : list (nat * string)) : string :=
  match gs with
  | (k, v) :: gs' => if (k =? n)%nat then v else lookup_group n gs'
  | [] => EmptyString
  end.

Definition group (n : nat) (x : result) : string := lookup_group n (groups x).

Definition captures (r : regex) (x : result) : list string :=
  (fun n => group n x) <$> seq 1 (ngroups r).

(** The first match at or after the start of [s], with the text before it. *)
Fixpoint exec (ignoreCase : bool) (r : regex) (s : string) : option (string * result) :=
  match matches ignoreCase r s with
  | x :: _ => Some (EmptyString, x)
  | [] =>
      match s with
      | String c s' =>
          (fun px => (String c px.1, px.2)) <$> exec ignoreCase r s'
      | EmptyString => None
      end
  end.

(** The matches of a global search, left to right: each with the text
    between it and the match before, and the text after the last one.
    A search resumes where the last match ended, one character further
    after an empty match.  [fuel] bounds the number of matches. *)
Definition shift (c : ascii) (found : list (string * result) * string)
    : list (string * result) * string :=
  match found with
  | ((gap, x) :: more, tail) => ((String c gap, x) :: more, tail)
  | ([], tail) => ([], String c tail)
  end.

Fixpoint segments_from (fuel : nat) (ignoreCase : bool) (r : regex) (s : string)
    : list (string * result) * string :=
  match fuel with
  | O => ([], s)
  | S fuel' =>
      match exec ignoreCase r s with
      | None => ([], s)
      | Some (gap, x) =>
          let later :=
            match matched x, rest x with
            | EmptyString, String c s' => shift c (segments_from fuel' ignoreCase r s')
            | EmptyString, EmptyString => ([], EmptyString)
            | _, s' => segments_from fuel' ignoreCase r s'
            end in
          ((gap, x) :: later.1, later.2)
      end
  end.

Definition segments (ignoreCase : bool) (r : regex) (s : string)
    : list (string * result) * string :=
  segments_from (S (String.length s)) ignoreCase r s.

(** The text with every match replaced by what [template] makes of it. *)
Definition substitute (template : result -> string)
    (found : list (string * result) * string) : string :=
  JsString.concat ((fun gx => gx.1 +:+ template gx.2) <$> found.1) +:+ found.2.

(** [s.replace(/r/g, template)] *)
Definition replace (ignoreCase : bool) (r : regex)
    (template : result -> string) (s : string) : string :=
  substitute template (segments ignoreCase r s).

(** [s.split(/r/)]: the pieces between matches with the captures of each
    match spliced in.  [piece] is the text since the last match; a match
    that is empty and would close an empty piece is skipped. *)
Fixpoint split_from (fuel : nat) (ignoreCase : bool) (r : regex)
    (piece s : string) : list string :=
  match fuel with
  | O => [piece +:+ s]
  | S fuel' =>
      match s with
      | EmptyString => [piece]
      | String c s' =>
          match matches ignoreCase r s with
          | [] => split_from fuel' ignoreCase r (piece +:+ String c EmptyString) s'
          | x :: _ =>
              match matched x, piece with
              | EmptyString, EmptyString =>
                  split_from fuel' ignoreCase r (String c EmptyString) s'
              | _, _ =>
                  piece :: captures r x
                    ++ split_from fuel' ignoreCase r EmptyString (rest x)
              end
          end
      end
  end.

Definition split (ignoreCase : bool) (r : regex) (s : string) : list string :=
  match s with
  | EmptyString =>
      match matches ignoreCase r s with [] => [EmptyString] | _ => [] end
  | _ => split_from (2 * String.length s + 2) ignoreCase r EmptyString s
  end.

End RegExp.

(** ** ChatResponseView: image auto-linking *)

Module ChatResponseView.
Import RegExp.

Definition notSpace (c : ascii) : bool := negb (JsString.isWhiteSpace c).

(** [/(https?:\/\/[^\s]+(\.png|\.jpg|\.jpeg|\.gif))/gi] *)
Definition imageUrl : regex :=
  Group 1
    (Seq (Str "http") (Seq (Opt (Chr "s")) (Seq (Str "://")
      (Seq (Plus notSpace)
        (Group 2 (Alt (Str ".png") (Alt (Str ".jpg")
                   (Alt (Str ".jpeg") (Str ".gif"))))))))).

(** The replacement ["![]($1)"]. *)
Definition imageMarkup (x : result) : string :=
  "![](" +:+ group 1 x +:+ ")".

Definition formatTextWithImages (input : string) : string :=
  replace true imageUrl imageMarkup input.

End ChatResponseView.

(** ** ChatApp: the line formatter *)

Module Formatter.
Import RegExp.

(** The elements [formatMessage] returns, by their class names. *)
Inductive Span : Type :=
| Plain (s : string)                 (* <span> *)
| Bold (s : string).                 (* <span className="font-semibold text-blue-300"> *)

Inductive CellStyle : Type :=
| LabelCell                          (* font-medium text-blue-300 *)
| ValueCell.                         (* text-gray-200 *)

Inductive Block : Type :=
| Divider                            (* border-b border-gray-600 my-3 *)
| Row (cells : list (CellStyle * string))   (* grid grid-cols-2 ... *)
| Spans (parts : list Span)          (* py-1, one span per part *)
| Italic (s : string)                (* py-1 text-gray-400 italic text-sm *)
| Spacer                             (* py-1, empty *)
| Paragraph (s : string).            (* py-1, the line *)

Definition dot (c : ascii) : bool := negb (JsString.isLineTerminator c).

(** The pattern of [cell.replace]: two stars, a lazy run of any
    characters as group 1, two stars; flag [g]. *)
Definition boldMarker : regex :=
  Seq (Str "**") (Seq (Group 1 (StarLazy dot)) (Str "**")).

(** The pattern of [line.split]: the same run, stars included, as
    group 1; no flag. *)
Definition boldRun : regex :=
  Group 1 (Seq (Str "**") (Seq (StarLazy dot) (Str "**"))).

(** [cell.trim().replace(boldMarker, '$1')] *)
Definition cellText (cell : string) : string :=
  replace false boldMarker (group 1) (JsString.trim cell).

Definition cellStyle (cellIndex : nat) : CellStyle :=
  match cellIndex with O => LabelCell | _ => ValueCell end.

Definition tableCells (line : string) : list string :=
  filter (fun cell => JsString.trim cell <> EmptyString) (JsString.split "|" line).

(** The table branch: [Some] when it returns, [None] when the line falls
    through to the rules below. *)
Definition tableRule (line : string) : option Block :=
  if JsString.includes "|" line then
    let cells := tableCells line in
    if JsString.includes "---" line then Some Divider
    else if (1 <? length cells)%nat then
      Some (Row (imap (fun cellIndex cell => (cellStyle cellIndex, cellText cell)) cells))
    else None
  else None.

Definition boldPart (part : string) : Span :=
  if JsString.startsWith "**" part && JsString.endsWith "**" part
  then Bold (JsString.slice 2 2 part)
  else Plain part.

(** The rules after the table branch: bold runs, italic line, empty
    line, regular text. *)
Definition textRules (line : string) : Block :=
  if JsString.includes "**" line then
    Spans (boldPart <$> split false boldRun line)
  else if JsString.startsWith "*" line && JsString.endsWith "*" line
          && negb (JsString.startsWith "**" line) then
    Italic (JsString.slice 1 1 line)
  else if String.eqb (JsString.trim line) EmptyString then Spacer
  else Paragraph line.

Definition formatLine (line : string) : Block :=
  match tableRule line with
  | Some block => block
  | None => textRules line
  end.

Definition formatMessage (text : string) : list Block :=
  formatLine <$> JsString.split "010" text.

End Formatter.

(** ** Values that cross the typed boundary *)

(** A parsed JSON value ([response.json()], [JSON.parse]).  Numbers are
    the integers; [JDate] is a string holding an ISO-8601 instant, which
    is what a [Date] serialises to and what [new Date(...)] reads back,
    kept by its millisecond value. *)
#[warnings="-register-all"]
Inductive json : Type :=
| JNull
| JBool (b : bool)
| JNum (n : Z)
| JStr (s : string)
| JDate (ms : Z)
| JArr (items : list json)
| JObj (fields : list (string * json)).

Module Json.

(** Truthiness, as [||] and [if] test it. *)
Definition truthy (v : json) : bool :=
  match v with
  | JNull => false
  | JBool b => b
  | JNum n => negb (n =? 0)
  | JStr s => JsString.truthy s
  | JDate _ | JArr _ | JObj _ => true
  end.

Fixpoint lookup (name : string) (fields : list (string * json)) : option json :=
  match fields with
  | (k, v) :: fields' => if String.eqb k name then Some v else lookup name fields'
  | [] => None
  end.

(** [v.name] for a name that no prototype defines ([output]):
    [None] is [undefined]; reading a member of [null] throws, which is
    the outer [None]. *)
Definition member (name : string) (v : json) : option (option json) :=
  match v with
  | JNull => None
  | JObj fields => Some (lookup name fields)
  | _ => Some None
  end.

(** [a || b] where [a] may be [undefined]. *)
Definition or_else (a : option json) (b : json) : json :=
  match a with
  | Some v => if truthy v then v else b
  | None => b
  end.

End Json.

(** ** Messages *)

Inductive Sender : Type := user | bot.

(** [interface Message].  [text] is declared a string, but the reply path
    stores [data.output] of an unchecked response body in it, so at run
    time it is a JSON value.  [requestId] is the optional field of the
    support widget. *)
Record Message : Type := {
  id : Z;
  text : json;
  sender : Sender;
  timestamp : Z;
  requestId : option string
}.

Module MessageJson.

Definition sender_name (s : Sender) : string :=
  match s with user => "user" | bot => "bot" end.

(** The object [JSON.stringify] writes for a message: the fields in the
    order of the object literal, the [Date] as its ISO string. *)
Definition to_json (m : Message) : json :=
  JObj ([("id", JNum (id m)); ("text", text m);
         ("sender", JStr (sender_name (sender m)));
         ("timestamp", JDate (timestamp m))]
        ++ match requestId m with
           | Some r => [("requestId", JStr r)]
           | None => []
           end).

Definition sender_of (v : json) : option Sender :=
  match v with
  | JStr "user" => Some user
  | JStr "bot" => Some bot
  | _ => None
  end.

(** A stored entry read back through the declared shape; [None] for an
    object of any other shape. *)
Definition of_json (v : json) : option Message :=
  match v with
  | JObj (("id", JNum i) :: ("text", t) :: ("sender", s)
            :: ("timestamp", JDate ts) :: more) =>
      who ← sender_of s;
      match more with
      | [] => Some {| id := i; text := t; sender := who; timestamp := ts;
                      requestId := None |}
      | [("requestId", JStr r)] =>
          Some {| id := i; text := t; sender := who; timestamp := ts;
                  requestId := Some r |}
      | _ => None
      end
  | _ => None
  end.

End MessageJson.

(** ** The world a component runs in *)

(** A string held by [localStorage], by what [JSON.parse] makes of it:
    text it rejects, or the text of a JSON value. *)
Inductive item : Type :=
| Unparseable (raw : string)
| Document (v : json).

(** [localStorage]: the items, and whether the quota is used up (then
    [setItem] throws). *)
Record Storage : Type := {
  items : gmap string item;
  full : bool
}.

Record Request : Type := {
  url : string;
  body : json
}.

(** The React state of a chat component. *)
Record State : Type := {
  messages : list Message;
  inputMessage : string;
  isLoading : bool
}.

Record World : Type := {
  react : State;
  storage : Storage;
  outbox : list Request           (* the requests [fetch] has sent *)
}.

(** How a [fetch] settles: the promise rejects, or a response arrives with
    a status and a body; [None] is a body [response.json()] rejects. *)
Inductive FetchOutcome : Type :=
| Rejected
| Responded (status : Z) (content : option json).

(** What the environment supplies to one call of [sendMessage]. *)
Record Env : Type := {
  now_user : Z;          (* Date.now() for the user message *)
  date_user : Z;         (* new Date() for the user message *)
  now_unique : Z;        (* Date.now() inside generateUniqueId *)
  random : string;       (* Math.random().toString(36).substr(2, 9) *)
  date_request : Z;      (* new Date() inside the request body *)
  userAgent : string;
  href : string;
  reply : FetchOutcome;
  now_bot : Z;           (* Date.now() for the reply *)
  date_bot : Z           (* new Date() for the reply *)
}.

(** ** Handlers as computations: state, exceptions *)

Inductive exn : Type :=
| TypeError (message : string)
| SyntaxError (message : string)
| Error (message : string)
| QuotaExceededError.

(** [Untyped]: the program goes on with a value the TypeScript types rule
    out (a stored entry that is not a [Message]); the typed state of the
    embedding cannot follow it. *)
Inductive outcome (A : Type) : Type :=
| Ok (a : A)
| Throw (e : exn)
| Untyped.
Arguments Ok {A} a.
Arguments Throw {A} e.
Arguments Untyped {A}.

Definition M (A : Type) : Type := World -> outcome A * World.

Definition ret {A} (a : A) : M A := fun w => (Ok a, w).

Definition bind {A B} (m : M A) (k : A -> M B) : M B :=
  fun w =>
    match m w with
    | (Ok a, w') => k a w'
    | (Throw e, w') => (Throw e, w')
    | (Untyped, w') => (Untyped, w')
    end.

Definition throw {A} (e : exn) : M A := fun w => (Throw e, w).
Definition untyped {A} : M A := fun w => (Untyped, w).

Declare Scope js_scope.
Delimit Scope js_scope with js.
Notation "'let*' x := m 'in' k" := (bind m (fun x => k))
  (at level 10, x name, m at level 100, k at level 200) : js_scope.
Notation "m ;; k" := (bind m (fun _ => k))
  (at level 100, k at level 200, right associativity) : js_scope.

(** [try { body } catch (e) { handler e }] *)
Definition try_catch {A} (body : M A) (handler : exn -> M A) : M A :=
  fun w =>
    match body w with
    | (Throw e, w') => handler e w'
    | r => r
    end.

(** [try { body } catch (e) { handler e } finally { final }]: [final] runs
    however the rest ends, and what it throws replaces the result. *)
Definition try_catch_finally {A} (body : M A) (handler : exn -> M A)
    (final : M unit) : M A :=
  fun w =>
    match try_catch body handler w with
    | (Untyped, w') => (Untyped, w')
    | (r, w') =>
        match final w' with
        | (Ok _, w'') => (r, w'')
        | (Throw e, w'') => (Throw e, w'')
        | (Untyped, w'') => (Untyped, w'')
        end
    end.

Definition when (b : bool) (m : M unit) : M unit := if b then m else ret tt.

Local Open Scope js_scope.

(** *** React state *)

Definition getState : M State := fun w => (Ok (react w), w).

Definition setState (f : State -> State) : M unit :=
  fun w => (Ok tt, {| react := f (react w); storage := storage w; outbox := outbox w |}).

(** [setMessages(prev => f prev)] *)
Definition setMessages (f : list Message -> list Message) : M unit :=
  setState (fun s => {| messages := f (messages s);
                        inputMessage := inputMessage s; isLoading := isLoading s |}).

Definition setInputMessage (v : string) : M unit :=
  setState (fun s => {| messages := messages s;
                        inputMessage := v; isLoading := isLoading s |}).

Definition setIsLoading (v : bool) : M unit :=
  setState (fun s => {| messages := messages s;
                        inputMessage := inputMessage s; isLoading := v |}).

(** *** localStorage and JSON *)

Module localStorage.

Definition getItem (key : string) : M (option item) :=
  fun w => (Ok (items (storage w) !! key), w).

Definition setItem (key : string) (value : item) : M unit :=
  fun w =>
    if full (storage w) then (Throw QuotaExceededError, w)
    else (Ok tt, {| react := react w;
                    storage := {| items := <[key := value]> (items (storage w));
                                  full := full (storage w) |};
                    outbox := outbox w |}).

Definition removeItem (key : string) : M unit :=
  fun w => (Ok tt, {| react := react w;
                      storage := {| items := delete key (items (storage w));
                                    full := full (storage w) |};
                      outbox := outbox w |}).

(** Truthiness of what [getItem] returned: [null] and the empty string
    are falsy. *)
Definition truthy (stored : option item) : bool :=
  match stored with
  | None => false
  | Some (Unparseable raw) => JsString.truthy raw
  | Some (Document _) => true
  end.

End localStorage.

Module JSON.

Definition parse (text : item) : M json :=
  match text with
  | Unparseable _ => throw (SyntaxError "Unexpected token")
  | Document v => ret v
  end.

Definition stringify (v : json) : item := Document v.

End JSON.

(** [entries.map(msg => ({...msg, timestamp: new Date(msg.timestamp)}))]:
    [map] is a function of arrays only, and reading [msg.timestamp] of a
    [null] entry throws. *)
Fixpoint reviveAll (entries : list json) : M (list Message) :=
  match entries with
  | [] => ret []
  | JNull :: _ => throw (TypeError "Cannot read properties of null")
  | entry :: entries' =>
      match MessageJson.of_json entry with
      | Some m => let* ms := reviveAll entries' in ret (m :: ms)
      | None =>
          (* the rest is still mapped, and may throw *)
          let* _ := reviveAll entries' in untyped
      end
  end.

Definition reviveMessages (parsed : json) : M (list Message) :=
  match parsed with
  | JArr entries => reviveAll entries
  | _ => throw (TypeError "map is not a function")
  end.

(** *** fetch *)

Definition ok (status : Z) : bool := (200 <=? status) && (status <=? 299).

(** [await fetch(url, { method: 'POST', ..., body })]: the request goes
    out; a rejected promise is an exception at the [await]. *)
Definition fetch (e : Env) (target : string) (payload : json) : M (Z * option json) :=
  fun w =>
    let w' := {| react := react w; storage := storage w;
                 outbox := outbox w ++ [{| url := target; body := payload |}] |} in
    match reply e with
    | Rejected => (Throw (TypeError "Failed to fetch"), w')
    | Responded status content => (Ok (status, content), w')
    end.

(** [await response.json()] *)
Definition response_json (content : option json) : M json :=
  match content with
  | Some v => ret v
  | None => throw (SyntaxError "Unexpected token")
  end.

(** [data.output || fallback] *)
Definition output_or (data : json) (fallback : string) : M json :=
  match Json.member "output" data with
  | Some out => ret (Json.or_else out (JStr fallback))
  | None => throw (TypeError "Cannot read properties of null")
  end.

(** ** ChatApp *)

Module ChatApp.

Definition N8N_WEBHOOK_URL : string := "https://n8n.moveon.run/webhook/chat".

Definition initialState : State :=
  {| messages := []; inputMessage := ""; isLoading := false |}.

(** The effect run on mount: load the messages from local storage. *)
Definition loadEffect : M unit :=
  try_catch
    (let* storedMessages := localStorage.getItem "chatHistory" in
     match storedMessages with
     | Some stored =>
         when (localStorage.truthy storedMessages)
           (let* parsed := JSON.parse stored in
            let* parsedMessages := reviveMessages parsed in
            setMessages (fun _ => parsedMessages))
     | None => ret tt
     end)
    (fun error => localStorage.removeItem "chatHistory").

(** [messages.slice(Math.max(messages.length - 100, 0))] *)
Definition messagesToSave (messages : list Message) : list Message :=
  drop (Z.to_nat (Z.max (Z.of_nat (length messages) - 100) 0)) messages.

(** The effect run whenever [messages] changes. *)
Definition saveEffect : M unit :=
  let* s := getState in
  when (0 <? length (messages s))%nat
    (try_catch
       (localStorage.setItem "chatHistory"
          (JSON.stringify (JArr (MessageJson.to_json <$> messagesToSave (messages s)))))
       (fun error => ret tt)).

Definition fallbackText : string := "Sorry, I could not process your request.".
Definition errorText : string :=
  "Sorry, I encountered an error while processing your request. Please try again.".

(** [sendMessage] up to the [try]: the user message is appended, the
    input cleared, the busy flag raised. *)
Definition dispatch (e : Env) (inputMessage : string) : M unit :=
  let userMessage :=
    {| id := now_user e; text := JStr inputMessage; sender := user;
       timestamp := date_user e; requestId := None |} in
  setMessages (fun prev => prev ++ [userMessage]) ;;
  setInputMessage "" ;;
  setIsLoading true.

(** The [try]/[catch]/[finally] of [sendMessage]. *)
Definition settle (e : Env) (inputMessage : string) : M unit :=
  try_catch_finally
    (let* response :=
       fetch e N8N_WEBHOOK_URL (JObj [("prompt", JStr inputMessage)]) in
     when (negb (ok response.1)) (throw (Error "Network response was not ok")) ;;
     let* data := response_json response.2 in
     let* reply_text := output_or data fallbackText in
     let botMessage :=
       {| id := now_bot e + 1; text := reply_text; sender := bot;
          timestamp := date_bot e; requestId := None |} in
     setMessages (fun prev => prev ++ [botMessage]))
    (fun error =>
       let errorMessage :=
         {| id := now_bot e + 1; text := JStr errorText; sender := bot;
            timestamp := date_bot e; requestId := None |} in
       setMessages (fun prev => prev ++ [errorMessage]))
    (setIsLoading false).

Definition sendMessage (e : Env) : M unit :=
  let* s := getState in
  if negb (JsString.truthy (JsString.trim (inputMessage s))) || isLoading s
  then ret tt
  else dispatch e (inputMessage s) ;; settle e (inputMessage s).

End ChatApp.

(** ** SupportChatWidget *)

Module SupportChatWidget.

Definition decimal (n : Z) : string :=
  DecimalString.NilZero.string_of_int (Z.to_int n).

(** [`chat_${Date.now()}_${Math.random().toString(36).substr(2, 9)}`] *)
Definition generateUniqueId (now : Z) (random : string) : string :=
  "chat_" +:+ decimal now +:+ "_" +:+ random.

Definition CHAT_MESSAGES : string := "travela_chat_messages".
Definition USER_SESSION : string := "travela_user_session".
Definition CHAT_STATE : string := "travela_chat_state".

Definition N8N_WEBHOOK_URL : string :=
  "https://n8n.travela.world/webhook/custom_wa_bot".

Definition saveToLocalStorage (key : string) (data : json) : M unit :=
  try_catch
    (localStorage.setItem key (JSON.stringify data))
    (fun error => ret tt).

Definition getFromLocalStorage (key : string) : M json :=
  try_catch
    (let* stored := localStorage.getItem key in
     match stored with
     | Some text =>
         if localStorage.truthy stored then JSON.parse text else ret JNull
     | None => ret JNull
     end)
    (fun error => ret JNull).

(** The initialiser of [userSessionId]: [existing || generateUniqueId()]. *)
Definition initSessionId (now : Z) (random : string) : M json :=
  let* existing := getFromLocalStorage USER_SESSION in
  ret (Json.or_else (Some existing) (JStr (generateUniqueId now random))).

Definition welcomeText : string :=
  "Hello! I'm your Travela support assistant. How can I help you today?".

Definition welcomeMessage (now date : Z) : Message :=
  {| id := now; text := JStr welcomeText; sender := bot;
     timestamp := date; requestId := None |}.

(** The effect run on mount.  The open/minimised flags it also restores
    are display state and left out. *)
Definition loadEffect (now date : Z) (userSessionId : json) : M unit :=
  let* savedMessages := getFromLocalStorage CHAT_MESSAGES in
  let* savedState := getFromLocalStorage CHAT_STATE in
  match savedMessages with
  | JArr (entry :: entries) =>
      let* revived := reviveAll (entry :: entries) in
      setMessages (fun _ => revived)
  | _ => setMessages (fun _ => [welcomeMessage now date])
  end ;;
  saveToLocalStorage USER_SESSION userSessionId.

(** The effect run whenever [messages] changes. *)
Definition saveEffect : M unit :=
  let* s := getState in
  when (0 <? length (messages s))%nat
    (saveToLocalStorage CHAT_MESSAGES (JArr (MessageJson.to_json <$> messages s))).

Definition fallbackText : string := "Sorry, I could not process your request.".
Definition errorText : string :=
  "Sorry, I encountered an error while processing your request. Please try again.".

Definition dispatch (e : Env) (requestId inputMessage : string) : M unit :=
  let userMessage :=
    {| id := now_user e; text := JStr inputMessage; sender := user;
       timestamp := date_user e; requestId := Some requestId |} in
  setMessages (fun prev => prev ++ [userMessage]) ;;
  setInputMessage "" ;;
  setIsLoading true.

Definition settle (e : Env) (userSessionId : json)
    (requestId inputMessage : string) : M unit :=
  try_catch_finally
    (let* response :=
       fetch e N8N_WEBHOOK_URL
         (JObj [("prompt", JStr inputMessage);
                ("requestId", JStr requestId);
                ("sessionId", userSessionId);
                ("timestamp", JDate (date_request e));
                ("userAgent", JStr (userAgent e));
                ("url", JStr (href e))]) in
     when (negb (ok response.1)) (throw (Error "Network response was not ok")) ;;
     let* data := response_json response.2 in
     let* reply_text := output_or data fallbackText in
     let botMessage :=
       {| id := now_bot e + 1; text := reply_text; sender := bot;
          timestamp := date_bot e; requestId := Some requestId |} in
     setMessages (fun prev => prev ++ [botMessage]))
    (fun error =>
       let errorMessage :=
         {| id := now_bot e + 1; text := JStr errorText; sender := bot;
            timestamp := date_bot e; requestId := Some requestId |} in
       setMessages (fun prev => prev ++ [errorMessage]))
    (setIsLoading false).

Definition sendMessage (e : Env) (userSessionId : json) : M unit :=
  let* s := getState in
  if negb (JsString.truthy (JsString.trim (inputMessage s))) || isLoading s
  then ret tt
  else
    let requestId := generateUniqueId (now_unique e) (random e) in
    dispatch e requestId (inputMessage s) ;;
    settle e userSessionId requestId (inputMessage s).

End SupportChatWidget.

(** ** Both controllers at once *)

Inductive Component : Type :=
| TheChatApp
| TheSupportChatWidget (userSessionId : json).

Definition dispatch (c : Component) (e : Env) (inputMessage : string) : M unit :=
  match c with
  | TheChatApp => ChatApp.dispatch e inputMessage
  | TheSupportChatWidget _ =>
      SupportChatWidget.dispatch e
        (SupportChatWidget.generateUniqueId (now_unique e) (random e)) inputMessage
  end.

Definition settle (c : Component) (e : Env) (inputMessage : string) : M unit :=
  match c with
  | TheChatApp => ChatApp.settle e inputMessage
  | TheSupportChatWidget sid =>
      SupportChatWidget.settle e sid
        (SupportChatWidget.generateUniqueId (now_unique e) (random e)) inputMessage
  end.

Definition sendMessage (c : Component) (e : Env) : M unit :=
  match c with
  | TheChatApp => ChatApp.sendMessage e
  | TheSupportChatWidget sid => SupportChatWidget.sendMessage e sid
  end.

Definition saveEffect (c : Component) : M unit :=
  match c with
  | TheChatApp => ChatApp.saveEffect
  | TheSupportChatWidget _ => SupportChatWidget.saveEffect
  end.

(** The state after a computation, however it ended. *)
Definition exec {A} (m : M A) (w : World) : World := (m w).2.

Definition ignored (s : State) : bool :=
  negb (JsString.truthy (JsString.trim (inputMessage s))) || isLoading s.

(** One turn of a session: the user types [typed] and sends.  React runs
    the save effect after each render that changed [messages]: once the
    user message is in, and again once the reply is.  The renders are not
    part of the turn, which is that of a session whose renders get
    through; one that throws (see [renders] below) takes the component
    down, and the save effect that would follow it does not run.  What is
    proved of the record of the history is proved of sessions in which
    every text is a string. *)
Definition turn (c : Component) (typed : string) (e : Env) : M unit :=
  setInputMessage typed ;;
  let* s := getState in
  if ignored s then sendMessage c e
  else
    dispatch c e (inputMessage s) ;; saveEffect c ;;
    settle c e (inputMessage s) ;; saveEffect c.

Fixpoint session (c : Component) (turns : list (string * Env)) (w : World) : World :=
  match turns with
  | [] => w
  | (typed, e) :: turns' => session c turns' (exec (turn c typed e) w)
  end.

Definition ids (w : World) : list Z := id <$> messages (react w).

(** The record a component keeps its history in, and its load effect. *)
Definition historyKey (c : Component) : string :=
  match c with
  | TheChatApp => "chatHistory"
  | TheSupportChatWidget _ => SupportChatWidget.CHAT_MESSAGES
  end.

Definition loadEffect (c : Component) (now date : Z) : M unit :=
  match c with
  | TheChatApp => ChatApp.loadEffect
  | TheSupportChatWidget sid => SupportChatWidget.loadEffect now date sid
  end.

(** ** Rendering a message *)

(** Whether a render gets past the text of a message.  ChatApp hands
    [message.text] to [formatMessage], which calls [text.split]; the two
    other components hand it to ChatResponseView, which calls
    [text.replace].  Both are methods of strings only, so a text that is
    not a string makes the render throw, and the effects that would
    follow the render do not run. *)
Definition renders (text : json) : bool :=
  match text with
  | JStr _ | JDate _ => true
  | _ => false
  end.

(** ** The keyboard handler *)

Module Keyboard.

(** What [handleKeyPress] reads of a [React.KeyboardEvent]. *)
Record Event : Type := {
  key : string;
  shiftKey : bool
}.

End Keyboard.

(** [handleKeyPress] of both components.  The result tells whether
    [e.preventDefault()] was called.  The handler does not await
    [sendMessage]; the call is followed here until its request has
    settled, as everywhere in this development. *)
Definition handleKeyPress (c : Component) (env : Env) (e : Keyboard.Event) : M bool :=
  if String.eqb (Keyboard.key e) "Enter" && negb (Keyboard.shiftKey e)
  then sendMessage c env ;; ret true
  else ret false.

(** ** Starting a component *)

(** The effects of a start that read and write the history, once the
    render that follows the load effect is through.  The save effect also
    runs after the first render, with the empty [messages] of that
    render, and writes nothing then.  The effect of SupportChatWidget
    that saves [isOpen] and [isMinimized] is not part of this: it writes
    the record [travela_chat_state] and no other (see [WidgetFrame]). *)
Definition mount (c : Component) (now date : Z) : M unit :=
  loadEffect c now date ;; saveEffect c.

(** A start of SupportChatWidget as far as the session identifier and
    the history go: the initialiser of [userSessionId], then the effects
    of [mount], with the clock and random readings each takes. *)
Definition widgetStart (now_id : Z) (random : string) (now date : Z) : M json :=
  let* userSessionId := SupportChatWidget.initSessionId now_id random in
  mount (TheSupportChatWidget userSessionId) now date ;;
  ret userSessionId.

(** ** SupportChatWidget: the frame around the conversation *)

Module WidgetFrame.

(** The states [isOpen] and [isMinimized]. *)
Record Frame : Type := {
  isOpen : bool;
  isMinimized : bool
}.

(** Both start as [useState(false)]. *)
Definition initialFrame : Frame := {| isOpen := false; isMinimized := false |}.

Definition toggleChat (f : Frame) : Frame :=
  {| isOpen := negb (isOpen f); isMinimized := false |}.

Definition minimizeChat (f : Frame) : Frame :=
  {| isOpen := isOpen f; isMinimized := true |}.

Definition maximizeChat (f : Frame) : Frame :=
  {| isOpen := isOpen f; isMinimized := false |}.

(** [window.innerWidth < 768] *)
Definition isMobile (innerWidth : Z) : bool := innerWidth <? 768.

(** The effect run whenever [isOpen] or [isMinimized] changes. *)
Definition saveFrameEffect (f : Frame) : M unit :=
  SupportChatWidget.saveToLocalStorage SupportChatWidget.CHAT_STATE
    (JObj [("isOpen", JBool (isOpen f)); ("isMinimized", JBool (isMinimized f))]).

(** [savedState.name || false], stored in a state declared boolean. *)
Definition flag (name : string) (savedState : json) : M bool :=
  match Json.member name savedState with
  | Some field =>
      match Json.or_else field (JBool false) with
      | JBool b => ret b
      | _ => untyped
      end
  | None => throw (TypeError "Cannot read properties of null")
  end.

(** The effect run on mount, whole: the history is loaded or the welcome
    message made, then the frame is restored from the saved state if
    there is one, then the session identifier is saved.  It is the load
    effect of [SupportChatWidget] with the lines
    [if (savedState) { setIsOpen(...); setIsMinimized(...) }] in their
    place; the result is the frame after it. *)
Definition mountEffect (now date : Z) (userSessionId : json) (f : Frame) : M Frame :=
  let* savedMessages :=
    SupportChatWidget.getFromLocalStorage SupportChatWidget.CHAT_MESSAGES in
  let* savedState :=
    SupportChatWidget.getFromLocalStorage SupportChatWidget.CHAT_STATE in
  match savedMessages with
  | JArr (entry :: entries) =>
      let* revived := reviveAll (entry :: entries) in
      setMessages (fun _ => revived)
  | _ => setMessages (fun _ => [SupportChatWidget.welcomeMessage now date])
  end ;;
  let* restored :=
    if Json.truthy savedState then
      let* open := flag "isOpen" savedState in
      let* minimized := flag "isMinimized" savedState in
      ret {| isOpen := open; isMinimized := minimized |}
    else ret f in
  SupportChatWidget.saveToLocalStorage SupportChatWidget.USER_SESSION userSessionId ;;
  ret restored.

(** The buttons of the rendered tree whose presence or handler depends on
    the frame, and whether the messages and the input are rendered. *)
Inductive Control : Type :=
| ChatButton            (* the round button, shown while the widget is closed *)
| MinimizeButton        (* title "Minimize" *)
| MaximizeButton        (* the same button, title "Maximize" *)
| CloseButton.          (* title "Close chat" *)

Record View : Type := {
  controls : list Control;
  content : bool
}.

Definition render (mobile : bool) (f : Frame) : View :=
  if isOpen f then
    {| controls :=
         (if negb mobile
          then [if isMinimized f then MaximizeButton else MinimizeButton]
          else [])
         ++ [CloseButton];
       content := negb (isMinimized f) |}
  else {| controls := [ChatButton]; content := false |}.

Definition onClick (control : Control) (f : Frame) : Frame :=
  match control with
  | ChatButton | CloseButton => toggleChat f
  | MinimizeButton => minimizeChat f
  | MaximizeButton => maximizeChat f
  end.

End WidgetFrame.

(** ** ChatResponseView: the code renderer *)

Module MarkdownComponents.
Import RegExp.

(** The class [\w]. *)
Definition wordChar (c : ascii) : bool :=
  let n := JsString.code c in
  ((48 <=? n) && (n <=? 57) || (65 <=? n) && (n <=? 90) || (n =? 95)
   || (97 <=? n) && (n <=? 122))%nat.

(** [/language-(\w+)/] *)
Definition languageTag : regex :=
  Seq (Str "language-") (Group 1 (Plus wordChar)).

(** [/\n$/]: a line feed, then the end of the text (no flag). *)
Definition finalLineFeed (s : string) : list result :=
  List.filter (fun x => String.eqb (rest x) EmptyString) (matches false (Chr "010") s).

(** [s.replace(/\n$/, "")]: the first match from the left is removed. *)
Fixpoint dropFinalLineFeed (s : string) : string :=
  match finalLineFeed s with
  | x :: _ => rest x
  | [] =>
      match s with
      | String c s' => String c (dropFinalLineFeed s')
      | EmptyString => EmptyString
      end
  end.

(** What the [code] component returns. *)
Inductive Code : Type :=
| SyntaxHighlighter (language children : string)
| PlainCode (children : string).      (* <code className="bg-gray-200 ..."> *)

(** [code({ inline, className, children })]; [className] may be
    undefined, and [className || ""] is then the empty string. *)
Definition code (inline : bool) (className : option string) (children : string) : Code :=
  let name := match className with Some n => n | None => EmptyString end in
  match exec false languageTag name with
  | Some found =>
      if negb inline
      then SyntaxHighlighter (group 1 found.2) (dropFinalLineFeed children)
      else PlainCode children
  | None => PlainCode children
  end.

End MarkdownComponents.

(** ** ChatResponseView: the copy button *)

Module CopyButton.

(** A pending [setTimeout]: its handle and the time it is due. *)
Record Timer : Type := {
  handle : nat;
  due : Z
}.

(** The state [copied], the ref [timeoutRef] of the memoised component,
    the timers of the page, the number of handles given out, and the text
    on the clipboard. *)
Record Button : Type := {
  copied : bool;
  timeoutRef : option nat;
  timers : list Timer;
  issued : nat;
  clipboard : option string
}.

Definition initialButton : Button :=
  {| copied := false; timeoutRef := None; timers := []; issued := 0;
     clipboard := None |}.

Definition setCopied (v : bool) (b : Button) : Button :=
  {| copied := v; timeoutRef := timeoutRef b; timers := timers b;
     issued := issued b; clipboard := clipboard b |}.

(** [setTimeout(() => setCopied(false), delay)]: handles are positive
    numbers, each new. *)
Definition setTimeout (now delay : Z) (b : Button) : nat * Button :=
  (S (issued b),
   {| copied := copied b; timeoutRef := timeoutRef b;
      timers := timers b ++ [{| handle := S (issued b); due := now + delay |}];
      issued := S (issued b); clipboard := clipboard b |}).

Definition clearTimeout (h : nat) (b : Button) : Button :=
  {| copied := copied b; timeoutRef := timeoutRef b;
     timers := filter (fun t => handle t <> h) (timers b);
     issued := issued b; clipboard := clipboard b |}.

Definition writeText (text : string) (b : Button) : Button :=
  {| copied := copied b; timeoutRef := timeoutRef b; timers := timers b;
     issued := issued b; clipboard := Some text |}.

(** The clock reaches [now]: the timers due by then run, each calling
    [setCopied(false)]. *)
Definition elapse (now : Z) (b : Button) : Button :=
  {| copied := if decide (Exists (fun t => due t <= now) (timers b))
               then false else copied b;
     timeoutRef := timeoutRef b;
     timers := filter (fun t => now < due t) (timers b);
     issued := issued b; clipboard := clipboard b |}.

(** [handleCopy] of [ChatResponseView.tsx].  [written] tells whether
    [navigator.clipboard.writeText] resolved; [now] is the time it did. *)
Module Standalone.

Definition handleCopy (text : string) (written : bool) (now : Z) (b : Button) : Button :=
  if written then
    (setTimeout now 2000 (setCopied true (writeText text b))).2
  else b.

End Standalone.

(** [handleCopy] of the memoised [ChatResponseView] of the two other
    files, which keeps the handle of its timer in [timeoutRef]; the ref
    is tested for truthiness, and a handle is never zero. *)
Module Memoised.

Definition handleCopy (text : string) (written : bool) (now : Z) (b : Button) : Button :=
  if written then
    let b1 := setCopied true (writeText text b) in
    let b2 :=
      match timeoutRef b1 with
      | Some (S _ as h) => clearTimeout h b1
      | _ => b1
      end in
    let (h, b3) := setTimeout now 2000 b2 in
    {| copied := copied b3; timeoutRef := Some h; timers := timers b3;
       issued := issued b3; clipboard := clipboard b3 |}
  else b.

(** The cleanup run on unmount. *)
Definition cleanup (b : Button) : Button :=
  match timeoutRef b with
  | Some (S _ as h) => clearTimeout h b
  | _ => b
  end.

End Memoised.

End CopyButton.

(** * Vocabulary of the properties

    Definitions the statements below are written with: closed forms of
    what a call does, predicates on texts and clock readings, and sample
    inputs. *)

(** ** The message lifecycle *)

(** The request identifier a call attaches to its messages. *)
Definition requestIdOf (c : Component) (e : Env) : option string :=
  match c with
  | TheChatApp => None
  | TheSupportChatWidget _ =>
      Some (SupportChatWidget.generateUniqueId (now_unique e) (random e))
  end.

Definition userMessageOf (c : Component) (e : Env) (inputMessage : string) : Message :=
  {| id := now_user e; text := JStr inputMessage; sender := user;
     timestamp := date_user e; requestId := requestIdOf c e |}.

(** The text of the reply, read off the way the request settled. *)
Definition replyText (r : FetchOutcome) : json :=
  match r with
  | Responded status (Some data) =>
      if ok status then
        match Json.member "output" data with
        | Some out => Json.or_else out (JStr ChatApp.fallbackText)
        | None => JStr ChatApp.errorText
        end
      else JStr ChatApp.errorText
  | _ => JStr ChatApp.errorText
  end.

Definition botMessageOf (c : Component) (e : Env) : Message :=
  {| id := now_bot e + 1; text := replyText (reply e); sender := bot;
     timestamp := date_bot e; requestId := requestIdOf c e |}.

Definition requestOf (c : Component) (e : Env) (inputMessage : string) : Request :=
  match c with
  | TheChatApp =>
      {| url := ChatApp.N8N_WEBHOOK_URL;
         body := JObj [("prompt", JStr inputMessage)] |}
  | TheSupportChatWidget sid =>
      {| url := SupportChatWidget.N8N_WEBHOOK_URL;
         body := JObj [("prompt", JStr inputMessage);
                       ("requestId",
                        JStr (SupportChatWidget.generateUniqueId (now_unique e) (random e)));
                       ("sessionId", sid);
                       ("timestamp", JDate (date_request e));
                       ("userAgent", JStr (userAgent e));
                       ("url", JStr (href e))] |}
  end.

(** The world once the user message is in, and once the reply is. *)
Definition dispatched (c : Component) (e : Env) (w : World) : World :=
  {| react := {| messages := messages (react w)
                   ++ [userMessageOf c e (inputMessage (react w))];
                 inputMessage := ""; isLoading := true |};
     storage := storage w; outbox := outbox w |}.

Definition settled (c : Component) (e : Env) (inputMessage0 : string) (w : World) : World :=
  {| react := {| messages := messages (react w) ++ [botMessageOf c e];
                 inputMessage := inputMessage (react w); isLoading := false |};
     storage := storage w;
     outbox := outbox w ++ [requestOf c e inputMessage0] |}.

(** The ways a request fails: the promise rejects (network error), the
    status is not 2xx, or the body does not parse as JSON. *)
Definition failed (r : FetchOutcome) : Prop :=
  match r with
  | Rejected => True
  | Responded status content => ok status = false \/ content = None
  end.

(** ** Persistence *)

Definition stored (key : string) (w : World) : option item :=
  items (storage w) !! key.

(** The record [JSON.stringify] makes of a history. *)
Definition historyDocument (messages : list Message) : item :=
  Document (JArr (MessageJson.to_json <$> messages)).

(** The next start of a component over the same store. *)
Definition restart (w : World) : World :=
  {| react := ChatApp.initialState; storage := storage w; outbox := [] |}.

(** ** Texts *)

(** Every character of a string satisfies [p]. *)
Fixpoint every (p : ascii -> bool) (s : string) : bool :=
  match s with
  | String x s' => p x && every p s'
  | EmptyString => true
  end.

(** A match as a span: the text consumed and the text left. *)
Definition span (x : RegExp.result) : string * string :=
  (RegExp.matched x, RegExp.rest x).

Definition spans (ignoreCase : bool) (r : RegExp.regex) (s : string)
    : list (string * string) :=
  span <$> RegExp.matches ignoreCase r s.

(** [a] then [b]. *)
Definition chain (a b : string * string) : string * string := (a.1 +:+ b.1, b.2).

(** [w] read off the start of [s], each character compared as the flag
    says: the text read and the text left. *)
Fixpoint takeWord (ignoreCase : bool) (w s : string) : option (string * string) :=
  match w with
  | EmptyString => Some (EmptyString, s)
  | String y w' =>
      match s with
      | String a s' =>
          if RegExp.chr_eq ignoreCase a y
          then RegExp.consume a <$> takeWord ignoreCase w' s'
          else None
      | EmptyString => None
      end
  end.

(** [m] is [w] up to what the flag ignores. *)
Fixpoint sameWord (ignoreCase : bool) (m w : string) : bool :=
  match m, w with
  | EmptyString, EmptyString => true
  | String a m', String y w' =>
      RegExp.chr_eq ignoreCase a y && sameWord ignoreCase m' w'
  | _, _ => false
  end.

Definition imageExtensions : list string := [".png"; ".jpg"; ".jpeg"; ".gif"].

(** An http(s) URL that ends in an image extension, whatever the case of
    its letters: a scheme, [://], at least one character, the extension;
    no white space anywhere. *)
Definition isImageUrl (u : string) : Prop :=
  exists scheme body ext,
    u = scheme +:+ "://" +:+ body +:+ ext /\
    (sameWord true scheme "http" = true \/ sameWord true scheme "https" = true) /\
    body <> "" /\
    every ChatResponseView.notSpace body = true /\
    exists e, e ∈ imageExtensions /\ sameWord true ext e = true.

(** The two last parts of the image pattern. *)
Definition extension : RegExp.regex :=
  RegExp.Group 2
    (RegExp.Alt (RegExp.Str ".png") (RegExp.Alt (RegExp.Str ".jpg")
       (RegExp.Alt (RegExp.Str ".jpeg") (RegExp.Str ".gif")))).

Definition urlTail : RegExp.regex :=
  RegExp.Seq (RegExp.Plus ChatResponseView.notSpace) extension.

(** The text is empty or starts with white space; is empty or ends with
    it.  A URL between two such texts is bare. *)
Definition startsBlank (s : string) : bool :=
  match s with
  | String c _ => JsString.isWhiteSpace c
  | EmptyString => true
  end.

Fixpoint endsBlank (s : string) : bool :=
  match s with
  | EmptyString => true
  | String c EmptyString => JsString.isWhiteSpace c
  | String _ s' => endsBlank s'
  end.

(** The occurrences a search found, each as the text before it, the match
    and the text after it. *)
Fixpoint occurrences_from (done : string) (found : list (string * RegExp.result))
    (tail : string) : list (string * string * string) :=
  match found with
  | [] => []
  | (gap, x) :: more =>
      (done +:+ gap, RegExp.matched x, RegExp.substitute RegExp.matched (more, tail))
      :: occurrences_from (done +:+ gap +:+ RegExp.matched x) more tail
  end.

(** The substrings of [text] the image pass rewrites. *)
Definition rewritten (text : string) : list (string * string * string) :=
  occurrences_from ""
    (RegExp.segments true ChatResponseView.imageUrl text).1
    (RegExp.segments true ChatResponseView.imageUrl text).2.

(** The replacement of the image pass, written with the match instead of
    [$1]. *)
Definition markup (x : RegExp.result) : string :=
  "![](" +:+ RegExp.matched x +:+ ")".

Definition notStar (c : ascii) : bool := negb (Ascii.eqb c "*").

(** What follows the opening stars of a bold marker: a lazy run of
    characters of the line, then two stars. *)
Definition lazyRun : RegExp.regex :=
  RegExp.Seq (RegExp.StarLazy Formatter.dot) (RegExp.Str "**").

(** The blocks the rules after the table branch make. *)
Definition textBlock (b : Formatter.Block) : Prop :=
  match b with
  | Formatter.Spans _ | Formatter.Italic _ | Formatter.Spacer
  | Formatter.Paragraph _ => True
  | Formatter.Divider | Formatter.Row _ => False
  end.

(** ** Sample inputs *)

Module Samples.

Definition emptyStorage : Storage := {| items := ∅; full := false |}.

Definition typed (input : string) : World :=
  {| react := {| messages := []; inputMessage := input; isLoading := false |};
     storage := emptyStorage; outbox := [] |}.

Definition busy (input : string) : World :=
  {| react := {| messages := []; inputMessage := input; isLoading := true |};
     storage := emptyStorage; outbox := [] |}.

(** A call whose request settles as [r], the user message made at clock
    reading [t1] and the reply at [t2]. *)
Definition env (r : FetchOutcome) (t1 t2 : Z) : Env :=
  {| now_user := t1; date_user := t1; now_unique := t1; random := "k3j9x0a1b";
     date_request := t1; userAgent := "Mozilla/5.0"; href := "https://travela.world/";
     reply := r; now_bot := t2; date_bot := t2 |}.

End Samples.

Module Histories.

(** [n] messages with the identifiers 1 to [n]. *)
Definition numbered (n : nat) : list Message :=
  (fun i : nat => {| id := Z.of_nat i; text := JStr "hello"; sender := user;
                     timestamp := Z.of_nat i; requestId := None |}) <$> seq 1 n.

Definition holding (messages : list Message) : World :=
  {| react := {| messages := messages; inputMessage := ""; isLoading := false |};
     storage := Samples.emptyStorage; outbox := [] |}.

End Histories.

Module Corrupted.

(** A store whose two history records hold text that is not JSON. *)
Definition world : World :=
  {| react := ChatApp.initialState;
     storage := {| items := {[ "chatHistory" := Unparseable "{oops";
                               SupportChatWidget.CHAT_MESSAGES := Unparseable "{oops" ]};
                   full := false |};
     outbox := [] |}.

End Corrupted.

(** ** Sessions *)

(** The input trims to nothing. *)
Definition blank (typed : string) : bool :=
  negb (JsString.truthy (JsString.trim typed)).

(** What one turn adds to the history and to the requests sent. *)
Definition exchange (c : Component) (turn : string * Env) : list Message :=
  if blank turn.1 then []
  else [userMessageOf c turn.2 turn.1; botMessageOf c turn.2].

Definition transcript (c : Component) (turns : list (string * Env)) : list Message :=
  turns ≫= exchange c.

Definition requestsOf (c : Component) (turns : list (string * Env)) : list Request :=
  turns ≫= fun turn => if blank turn.1 then [] else [requestOf c turn.2 turn.1].

(** The part of a history a component writes to its record. *)
Definition kept (c : Component) (history : list Message) : list Message :=
  match c with
  | TheChatApp => ChatApp.messagesToSave history
  | TheSupportChatWidget _ => history
  end.

(** The record of the history is up to date. *)
Definition persisted (c : Component) (w : World) : Prop :=
  messages (react w) = [] \/
  stored (historyKey c) w = Some (historyDocument (kept c (messages (react w)))).

(** The world with [typed] in the input box. *)
Definition typing (typed : string) (w : World) : World :=
  {| react := {| messages := messages (react w); inputMessage := typed;
                 isLoading := isLoading (react w) |};
     storage := storage w; outbox := outbox w |}.

(** Every text of a history gets through a render, and so does the
    reply of every turn. *)
Definition legible (history : list Message) : Prop :=
  Forall (fun m => renders (text m) = true) history.

Definition answered (turns : list (string * Env)) : Prop :=
  Forall (fun turn => renders (replyText (reply turn.2)) = true) turns.

(** Every turn of the session returns normally. *)
Fixpoint completes (c : Component) (turns : list (string * Env)) (w : World) : Prop :=
  match turns with
  | [] => True
  | (typed, e) :: turns' =>
      (turn c typed e w).1 = Ok tt /\ completes c turns' (exec (turn c typed e) w)
  end.

(** The way [r] ended, with [b] for its result if it returned. *)
Definition returning {A B} (b : B) (r : outcome A * World) : outcome B * World :=
  match r with
  | (Ok _, w) => (Ok b, w)
  | (Throw e, w) => (Throw e, w)
  | (Untyped, w) => (Untyped, w)
  end.

(** What [getFromLocalStorage] gives the mount effect of
    SupportChatWidget for the saved state of the frame. *)
Definition savedStateOf (w : World) : json :=
  match stored SupportChatWidget.CHAT_STATE w with
  | Some (Document v) => v
  | _ => JNull
  end.

(** A store that takes no more writes. *)
Definition fullStorage : Storage := {| items := ∅; full := true |}.

(** ** Request identifiers *)

Definition notUnderscore (c : ascii) : bool := negb (Ascii.eqb c "_").

(** ** The frame of the widget *)

(** A control is among those a view shows. *)
Definition shows (v : WidgetFrame.View) (control : WidgetFrame.Control) : bool :=
  existsb
    (fun shown =>
       match shown, control with
       | WidgetFrame.ChatButton, WidgetFrame.ChatButton
       | WidgetFrame.MinimizeButton, WidgetFrame.MinimizeButton
       | WidgetFrame.MaximizeButton, WidgetFrame.MaximizeButton
       | WidgetFrame.CloseButton, WidgetFrame.CloseButton => true
       | _, _ => false
       end)
    (WidgetFrame.controls v).

(** The frame after clicking the controls of [path] one after the other;
    [None] when one of them is not shown when its turn comes. *)
Fixpoint clicks (mobile : bool) (path : list WidgetFrame.Control)
    (f : WidgetFrame.Frame) : option WidgetFrame.Frame :=
  match path with
  | [] => Some f
  | control :: path' =>
      if shows (WidgetFrame.render mobile f) control
      then clicks mobile path' (WidgetFrame.onClick control f)
      else None
  end.

(** ** The copy button *)

(** What happens to a copy button: the clipboard write of a click
    settles, with its outcome and the time it did, or the clock reaches
    a time.  A click changes nothing before its write has settled, so a
    click whose write is still under way is an event yet to come. *)
Inductive CopyEvent : Type :=
| Click (text : string) (written : bool) (now : Z)
| Clock (now : Z).

Definition memoisedStep (b : CopyButton.Button) (ev : CopyEvent) : CopyButton.Button :=
  match ev with
  | Click text written now => CopyButton.Memoised.handleCopy text written now b
  | Clock now => CopyButton.elapse now b
  end.

(** The button of the memoised component after a history of events. *)
Definition memoisedAfter (events : list CopyEvent) : CopyButton.Button :=
  foldl memoisedStep CopyButton.initialButton events.

(** Every timer of the button is the one [timeoutRef] holds. *)
Definition tracked (b : CopyButton.Button) : Prop :=
  forall t, t ∈ CopyButton.timers b ->
    exists n, CopyButton.handle t = S n /\ CopyButton.timeoutRef b = Some (S n).

(** ** Lines and marked-up text *)

(** The lines of a text put together again, a line feed between each
    two. *)
Fixpoint joinLines (lines : list string) : string :=
  match lines with
  | [] => EmptyString
  | [line] => line
  | line :: lines' => line +:+ String "010" (joinLines lines')
  end.

Definition notLineFeed (c : ascii) : bool := negb (Ascii.eqb c "010").

(** A line written with bold markers: plain text, then runs of bold
    text, each followed by plain text; and the spans it stands for. *)
Fixpoint marked (plain : string) (runs : list (string * string)) : string :=
  match runs with
  | [] => plain
  | (t, p) :: runs' => plain +:+ "**" +:+ t +:+ "**" +:+ marked p runs'
  end.

Definition spansOf (plain : string) (runs : list (string * string))
    : list Formatter.Span :=
  Formatter.Plain plain ::
  (runs ≫= fun run => [Formatter.Bold run.1; Formatter.Plain run.2]).

Definition starFree (run : string * string) : Prop :=
  every notStar run.1 = true /\ every Formatter.dot run.1 = true /\
  every notStar run.2 = true.

(** ** More sample inputs *)

(** A store whose history record holds a JSON value that is no array. *)
Definition otherDocument : World :=
  {| react := ChatApp.initialState;
     storage := {| items := {[ "chatHistory" := Document (JObj [("version", JNum 2)]) ]};
                   full := false |};
     outbox := [] |}.

(** * Properties *)

(** ** The message lifecycle *)

Section Lifecycle.

Implicit Types (c : Component) (e : Env) (w : World).

Lemma dispatch_eq c e w :
  dispatch c e (inputMessage (react w)) w = (Ok tt, dispatched c e w).
Proof. destruct c; reflexivity. Qed.

(** However the request settles, [settle] ends normally, having sent one
    request and appended one reply. *)
Lemma settle_eq c e input w :
  settle c e input w = (Ok tt, settled c e input w).
Proof.
  destruct c as [|sid]; cbv [settle ChatApp.settle SupportChatWidget.settle
    try_catch_finally try_catch bind fetch settled botMessageOf replyText];
    destruct (reply e) as [|status [data|]]; cbn [fst snd]; try reflexivity;
    destruct (ok status); cbn; try reflexivity;
    unfold output_or; destruct (Json.member "output" data); reflexivity.
Qed.

Lemma ignored_false s :
  ignored s = false <->
  JsString.trim (inputMessage s) <> "" /\ isLoading s = false.
Proof.
  unfold ignored. rewrite orb_false_iff, negb_false_iff.
  destruct (JsString.trim (inputMessage s)); cbn; intuition congruence.
Qed.

Lemma ignored_true s :
  ignored s = true <->
  isLoading s = true \/ JsString.trim (inputMessage s) = "".
Proof.
  unfold ignored. rewrite orb_true_iff, negb_true_iff.
  destruct (JsString.trim (inputMessage s)); cbn; intuition congruence.
Qed.

Lemma sendMessage_unfold c e w :
  sendMessage c e w =
  if ignored (react w) then (Ok tt, w)
  else settle c e (inputMessage (react w)) (dispatched c e w).
Proof.
  destruct c; cbv [sendMessage ChatApp.sendMessage SupportChatWidget.sendMessage
    bind getState]; fold (ignored (react w)); destruct (ignored (react w));
    reflexivity.
Qed.

Lemma sendMessage_eq c e w :
  ignored (react w) = false ->
  sendMessage c e w
  = (Ok tt, settled c e (inputMessage (react w)) (dispatched c e w)).
Proof. intros H. rewrite sendMessage_unfold, H. apply settle_eq. Qed.

End Lifecycle.

(** C1.  A call of [sendMessage] with an input that is not blank, made
    while [isLoading] is false, appends exactly one user message at once
    (the state after [dispatch]) and, however the request settles, exactly
    one bot message after it; the call ends normally with [isLoading]
    false.  This holds for ChatApp and for SupportChatWidget. *)
Theorem sendMessage_appends_user_then_bot (c : Component) (e : Env) (w : World) :
  JsString.trim (inputMessage (react w)) <> "" ->
  isLoading (react w) = false ->
  exists (u b : Message) (w1 w2 : World),
    dispatch c e (inputMessage (react w)) w = (Ok tt, w1) /\
    messages (react w1) = messages (react w) ++ [u] /\
    sender u = user /\
    isLoading (react w1) = true /\
    settle c e (inputMessage (react w)) w1 = (Ok tt, w2) /\
    sendMessage c e w = (Ok tt, w2) /\
    messages (react w2) = messages (react w) ++ [u; b] /\
    sender b = bot /\
    isLoading (react w2) = false.
Proof.
  intros Htrim Hbusy.
  assert (ignored (react w) = false) as Hgo by (apply ignored_false; auto).
  exists (userMessageOf c e (inputMessage (react w))), (botMessageOf c e),
    (dispatched c e w), (settled c e (inputMessage (react w)) (dispatched c e w)).
  rewrite dispatch_eq, settle_eq, sendMessage_eq by assumption.
  cbn. rewrite <- app_assoc. repeat split; reflexivity.
Qed.

Lemma sendMessage_appends_user_then_bot_witness :
  exists (u b : Message) (w1 w2 : World),
    dispatch TheChatApp (Samples.env Rejected 1000 1500) "ping" (Samples.typed "ping")
      = (Ok tt, w1) /\
    messages (react w1) = [] ++ [u] /\
    sender u = user /\
    isLoading (react w1) = true /\
    settle TheChatApp (Samples.env Rejected 1000 1500) "ping" w1 = (Ok tt, w2) /\
    sendMessage TheChatApp (Samples.env Rejected 1000 1500) (Samples.typed "ping")
      = (Ok tt, w2) /\
    messages (react w2) = [] ++ [u; b] /\
    sender b = bot /\
    isLoading (react w2) = false.
Proof.
  apply (sendMessage_appends_user_then_bot TheChatApp
           (Samples.env Rejected 1000 1500) (Samples.typed "ping")).
  - vm_compute. discriminate.
  - reflexivity.
Defined.

(** C2.  A call of [sendMessage] made while [isLoading] is true, or with
    an input that trims to the empty string, does nothing: the call ends
    normally and the world is the same, so the history, the requests sent
    and [isLoading] are unchanged. *)
Theorem sendMessage_ignored_is_noop (c : Component) (e : Env) (w : World) :
  isLoading (react w) = true \/ JsString.trim (inputMessage (react w)) = "" ->
  sendMessage c e w = (Ok tt, w).
Proof.
  intros H. apply ignored_true in H. rewrite sendMessage_unfold, H. reflexivity.
Qed.

Lemma sendMessage_ignored_is_noop_witness :
  sendMessage (TheSupportChatWidget (JStr "chat_1_abc"))
    (Samples.env Rejected 1000 1500) (Samples.busy "ping")
  = (Ok tt, Samples.busy "ping")
  /\ sendMessage TheChatApp (Samples.env Rejected 1000 1500) (Samples.typed "   ")
     = (Ok tt, Samples.typed "   ").
Proof.
  split.
  - apply (sendMessage_ignored_is_noop (TheSupportChatWidget (JStr "chat_1_abc"))
             (Samples.env Rejected 1000 1500) (Samples.busy "ping")).
    left. reflexivity.
  - apply (sendMessage_ignored_is_noop TheChatApp
             (Samples.env Rejected 1000 1500) (Samples.typed "   ")).
    right. reflexivity.
Defined.

Lemma replyText_failed (r : FetchOutcome) :
  failed r -> replyText r = JStr ChatApp.errorText.
Proof.
  destruct r as [|status [data|]]; cbn; try reflexivity.
  intros [-> | ?]; [reflexivity | discriminate].
Qed.

(** C3.  When the request of a submitted message fails (network error,
    status outside 2xx, or a body that is not JSON), the call still ends
    normally, the last entry of the history is a bot message with exactly
    the fixed error text, and [isLoading] is false. *)
Theorem failed_request_reports_error (c : Component) (e : Env) (w : World) :
  JsString.trim (inputMessage (react w)) <> "" ->
  isLoading (react w) = false ->
  failed (reply e) ->
  exists (b : Message) (w' : World),
    sendMessage c e w = (Ok tt, w') /\
    last (messages (react w')) = Some b /\
    sender b = bot /\
    text b = JStr "Sorry, I encountered an error while processing your request. Please try again." /\
    isLoading (react w') = false.
Proof.
  intros Htrim Hbusy Hfail.
  assert (ignored (react w) = false) as Hgo by (apply ignored_false; auto).
  exists (botMessageOf c e), (settled c e (inputMessage (react w)) (dispatched c e w)).
  rewrite sendMessage_eq by assumption. cbn.
  rewrite last_snoc, (replyText_failed _ Hfail). repeat split; reflexivity.
Qed.

Lemma failed_request_reports_error_witness :
  exists (b : Message) (w' : World),
    sendMessage TheChatApp (Samples.env Rejected 1000 1500) (Samples.typed "ping")
      = (Ok tt, w') /\
    last (messages (react w')) = Some b /\
    sender b = bot /\
    text b = JStr "Sorry, I encountered an error while processing your request. Please try again." /\
    isLoading (react w') = false.
Proof.
  apply (failed_request_reports_error TheChatApp
           (Samples.env Rejected 1000 1500) (Samples.typed "ping")).
  - vm_compute. discriminate.
  - reflexivity.
  - exact I.
Defined.

(** C4, as stated, fails on a 2xx response whose body is the JSON value
    [null]: the body parses and has no [output], yet reading [data.output]
    throws, the [catch] runs, and the reply carries the error text, not
    the fallback text. *)
Lemma null_body_reports_error :
  exists (b : Message) (w' : World),
    sendMessage TheChatApp (Samples.env (Responded 200 (Some JNull)) 1000 1500)
      (Samples.typed "ping") = (Ok tt, w') /\
    last (messages (react w')) = Some b /\
    text b = JStr "Sorry, I encountered an error while processing your request. Please try again." /\
    text b <> JStr "Sorry, I could not process your request.".
Proof.
  eexists _, _. split; [vm_compute; reflexivity|].
  split; [reflexivity|]. split; [reflexivity|]. discriminate.
Qed.

(** C4, amended.  When the request of a submitted message succeeds with a
    2xx status and a JSON body other than [null], the reply appended last
    carries the body's [output] when that is a non-empty string, and
    exactly the fallback text when the body has no [output] or an empty
    one. *)
Theorem reply_text_follows_output (c : Component) (e : Env) (w : World)
    (status : Z) (data : json) :
  JsString.trim (inputMessage (react w)) <> "" ->
  isLoading (react w) = false ->
  reply e = Responded status (Some data) ->
  ok status = true ->
  data <> JNull ->
  exists (b : Message) (w' : World),
    sendMessage c e w = (Ok tt, w') /\
    last (messages (react w')) = Some b /\
    sender b = bot /\
    (forall s : string,
       Json.member "output" data = Some (Some (JStr s)) -> s <> "" ->
       text b = JStr s) /\
    (Json.member "output" data = Some None
     \/ Json.member "output" data = Some (Some (JStr "")) ->
     text b = JStr "Sorry, I could not process your request.").
Proof.
  intros Htrim Hbusy Hreply Hok Hdata.
  assert (ignored (react w) = false) as Hgo by (apply ignored_false; auto).
  exists (botMessageOf c e), (settled c e (inputMessage (react w)) (dispatched c e w)).
  rewrite sendMessage_eq by assumption. cbn.
  rewrite last_snoc, Hreply. cbn. rewrite Hok.
  repeat split.
  - intros s Hs Hne. rewrite Hs. cbn. destruct s; [congruence | reflexivity].
  - intros [H | H]; rewrite H; reflexivity.
Qed.

Lemma reply_text_follows_output_witness :
  exists (b : Message) (w' : World),
    sendMessage TheChatApp
      (Samples.env (Responded 200 (Some (JObj [("output", JStr "pong")]))) 1000 1500)
      (Samples.typed "ping") = (Ok tt, w') /\
    last (messages (react w')) = Some b /\
    sender b = bot /\
    (forall s : string,
       Json.member "output" (JObj [("output", JStr "pong")]) = Some (Some (JStr s)) ->
       s <> "" -> text b = JStr s) /\
    (Json.member "output" (JObj [("output", JStr "pong")]) = Some None
     \/ Json.member "output" (JObj [("output", JStr "pong")]) = Some (Some (JStr "")) ->
     text b = JStr "Sorry, I could not process your request.").
Proof.
  apply (reply_text_follows_output TheChatApp
           (Samples.env (Responded 200 (Some (JObj [("output", JStr "pong")]))) 1000 1500)
           (Samples.typed "ping") 200 (JObj [("output", JStr "pong")])).
  - vm_compute. discriminate.
  - reflexivity.
  - reflexivity.
  - reflexivity.
  - discriminate.
Defined.

(** The response body [{}] of the specification's example. *)
Lemma empty_object_gets_fallback :
  exists w' : World,
    sendMessage TheChatApp (Samples.env (Responded 200 (Some (JObj []))) 1000 1500)
      (Samples.typed "ping") = (Ok tt, w') /\
    text <$> last (messages (react w'))
      = Some (JStr "Sorry, I could not process your request.").
Proof. eexists. split; [vm_compute; reflexivity | reflexivity]. Qed.

(** ** Persistence *)

Lemma ChatApp_saveEffect_eq (w : World) :
  ChatApp.saveEffect w =
  (Ok tt,
   if (0 <? length (messages (react w)))%nat && negb (full (storage w)) then
     {| react := react w;
        storage := {| items := <["chatHistory" :=
                         historyDocument (ChatApp.messagesToSave (messages (react w)))]>
                         (items (storage w));
                      full := full (storage w) |};
        outbox := outbox w |}
   else w).
Proof.
  cbv [ChatApp.saveEffect bind getState when try_catch localStorage.setItem ret].
  destruct (0 <? length (messages (react w)))%nat; [|reflexivity].
  destruct (full (storage w)); reflexivity.
Qed.

Lemma SupportChatWidget_saveEffect_eq (w : World) :
  SupportChatWidget.saveEffect w =
  (Ok tt,
   if (0 <? length (messages (react w)))%nat && negb (full (storage w)) then
     {| react := react w;
        storage := {| items := <[SupportChatWidget.CHAT_MESSAGES :=
                         historyDocument (messages (react w))]> (items (storage w));
                      full := full (storage w) |};
        outbox := outbox w |}
   else w).
Proof.
  cbv [SupportChatWidget.saveEffect SupportChatWidget.saveToLocalStorage
       bind getState when try_catch localStorage.setItem ret].
  destruct (0 <? length (messages (react w)))%nat; [|reflexivity].
  destruct (full (storage w)); reflexivity.
Qed.

Lemma messagesToSave_drop (l : list Message) :
  ChatApp.messagesToSave l = drop (length l - 100) l.
Proof. unfold ChatApp.messagesToSave. f_equal. lia. Qed.

(** ChatApp keeps the retention policy: once the history is longer than
    100 messages and the store takes the write, the record holds exactly
    the last 100, in order, and the history in memory is left whole. *)
Lemma ChatApp_persists_last_100 (w : World) :
  (100 < length (messages (react w)))%nat ->
  full (storage w) = false ->
  stored "chatHistory" (exec ChatApp.saveEffect w)
    = Some (historyDocument (drop (length (messages (react w)) - 100) (messages (react w))))
  /\ length (drop (length (messages (react w)) - 100) (messages (react w))) = 100%nat
  /\ react (exec ChatApp.saveEffect w) = react w.
Proof.
  intros Hlen Hfull. unfold exec, stored. rewrite ChatApp_saveEffect_eq, Hfull.
  destruct (Nat.ltb_spec 0 (length (messages (react w)))) as [_|]; [|lia].
  cbn. rewrite lookup_insert_eq, messagesToSave_drop, length_drop.
  repeat split. lia.
Qed.

(** SupportChatWidget writes the whole history, whatever its length. *)
Lemma SupportChatWidget_persists_everything (w : World) :
  messages (react w) <> [] ->
  full (storage w) = false ->
  stored SupportChatWidget.CHAT_MESSAGES (exec SupportChatWidget.saveEffect w)
    = Some (historyDocument (messages (react w))).
Proof.
  intros Hne Hfull. unfold exec, stored.
  rewrite SupportChatWidget_saveEffect_eq, Hfull.
  destruct (messages (react w)) eqn:E; [congruence|].
  cbn. apply lookup_insert_eq.
Qed.

(** C5 at the failing input: with 101 messages in the history,
    SupportChatWidget's save effect stores all 101 of them, the oldest
    included, where the claim has the record hold the most recent 100. *)
Theorem SupportChatWidget_keeps_more_than_100 :
  stored SupportChatWidget.CHAT_MESSAGES
    (exec SupportChatWidget.saveEffect (Histories.holding (Histories.numbered 101)))
    = Some (historyDocument (Histories.numbered 101))
  /\ length (Histories.numbered 101) = 101%nat
  /\ stored "chatHistory"
       (exec ChatApp.saveEffect (Histories.holding (Histories.numbered 101)))
     = Some (historyDocument (drop 1 (Histories.numbered 101))).
Proof.
  split; [|split].
  - apply SupportChatWidget_persists_everything; [discriminate | reflexivity].
  - reflexivity.
  - vm_compute. reflexivity.
Qed.

(** ** Identifiers *)

(** C6 at the failing input.  Identifiers are clock readings: a user
    message takes [Date.now()] and the reply [Date.now() + 1], which is
    meant to keep the two apart.  When the next user message is made one
    millisecond after the reading of the reply before it, it takes the
    identifier that reply was given: here the first request settles at
    1500, so its reply is 1501, and the second message is sent at 1501.
    The history then holds two messages with one identifier, which is
    also their React key. *)
Theorem consecutive_turns_share_an_id :
  ids (session TheChatApp
         [("first", Samples.env Rejected 1000 1500);
          ("second", Samples.env (Responded 200 (Some (JObj []))) 1501 1600)]
         (Samples.typed ""))
  = [1000; 1501; 1501; 1601]
  /\ ~ NoDup [1000; 1501; 1501; 1601].
Proof.
  split; [vm_compute; reflexivity|].
  intros H. apply NoDup_cons in H as [_ H]. apply NoDup_cons in H as [H _].
  apply H. set_solver.
Qed.

(** ** Hydration *)

Lemma getFromLocalStorage_eq (key : string) (w : World) :
  SupportChatWidget.getFromLocalStorage key w =
  (Ok match stored key w with
      | Some (Document v) => v
      | _ => JNull
      end, w).
Proof.
  cbv [SupportChatWidget.getFromLocalStorage try_catch bind localStorage.getItem stored].
  destruct (items (storage w) !! key) as [[raw|v]|]; try reflexivity.
  destruct raw; reflexivity.
Qed.

Lemma saveToLocalStorage_keeps_state (key : string) (data : json) (w : World) :
  exists st : Storage,
    SupportChatWidget.saveToLocalStorage key data w
    = (Ok tt, {| react := react w; storage := st; outbox := outbox w |}).
Proof.
  cbv [SupportChatWidget.saveToLocalStorage try_catch localStorage.setItem ret].
  destruct (full (storage w)); destruct w; eexists; reflexivity.
Qed.

(** C7, as stated, fails for SupportChatWidget: with a history record
    that does not parse, its load effect starts the conversation with the
    welcome message, not empty, and leaves the record where it is. *)
Lemma widget_welcomes_over_corrupt_history :
  exists w' : World,
    SupportChatWidget.loadEffect 1000 1000 (JStr "chat_1_abc") Corrupted.world
      = (Ok tt, w') /\
    messages (react w') = [SupportChatWidget.welcomeMessage 1000 1000] /\
    messages (react w') <> [] /\
    stored SupportChatWidget.CHAT_MESSAGES w' = Some (Unparseable "{oops").
Proof.
  eexists. split; [vm_compute; reflexivity|].
  split; [reflexivity|]. split; [discriminate|]. vm_compute. reflexivity.
Qed.

(** What clears that record is the save effect, which runs next because
    [messages] changed: it writes the welcome-only history over it. *)
Lemma widget_save_overwrites_corrupt_history :
  stored SupportChatWidget.CHAT_MESSAGES
    (exec (SupportChatWidget.loadEffect 1000 1000 (JStr "chat_1_abc") ;;
           SupportChatWidget.saveEffect) Corrupted.world)
  = Some (historyDocument [SupportChatWidget.welcomeMessage 1000 1000]).
Proof. vm_compute. reflexivity. Qed.

(** C7, amended.  On hydration, a history record that is a non-empty
    string [JSON.parse] rejects is discarded without a crash or a retry.
    ChatApp leaves its state as it was, so the conversation starts empty,
    and removes the record.  SupportChatWidget starts the conversation
    with its single welcome message. *)
Theorem corrupt_history_is_discarded (c : Component) (raw : string) (w : World)
    (now date : Z) :
  raw <> "" ->
  stored (historyKey c) w = Some (Unparseable raw) ->
  exists w' : World,
    loadEffect c now date w = (Ok tt, w') /\
    match c with
    | TheChatApp =>
        react w' = react w /\
        (react w = ChatApp.initialState -> messages (react w') = []) /\
        items (storage w') = delete "chatHistory" (items (storage w)) /\
        stored "chatHistory" w' = None
    | TheSupportChatWidget _ =>
        messages (react w') = [SupportChatWidget.welcomeMessage now date]
    end.
Proof.
  intros Hraw Hstored. destruct c as [|sid]; cbn [historyKey loadEffect] in *.
  - eexists. split.
    + cbv [ChatApp.loadEffect try_catch bind localStorage.getItem].
      unfold stored in Hstored. rewrite Hstored.
      destruct raw; [congruence|]. reflexivity.
    + cbn. repeat split.
      * intros ->. reflexivity.
      * unfold stored. cbn. apply lookup_delete_eq.
  - unfold SupportChatWidget.loadEffect, bind at 1.
    rewrite getFromLocalStorage_eq, Hstored.
    unfold bind at 1. rewrite getFromLocalStorage_eq.
    unfold bind at 1. cbn [setMessages setState].
    match goal with
    | |- context [SupportChatWidget.saveToLocalStorage ?k ?d ?w0] =>
        destruct (saveToLocalStorage_keeps_state k d w0) as [st ->]
    end.
    eexists. split; reflexivity.
Qed.

Lemma corrupt_history_is_discarded_witness :
  (exists w' : World,
     ChatApp.loadEffect Corrupted.world = (Ok tt, w') /\
     react w' = react Corrupted.world /\
     (react Corrupted.world = ChatApp.initialState -> messages (react w') = []) /\
     items (storage w') = delete "chatHistory" (items (storage Corrupted.world)) /\
     stored "chatHistory" w' = None)
  /\
  (exists w' : World,
     SupportChatWidget.loadEffect 1000 1000 (JStr "chat_1_abc") Corrupted.world
       = (Ok tt, w') /\
     messages (react w') = [SupportChatWidget.welcomeMessage 1000 1000]).
Proof.
  split.
  - apply (corrupt_history_is_discarded TheChatApp "{oops" Corrupted.world 1000 1000).
    + discriminate.
    + vm_compute. reflexivity.
  - apply (corrupt_history_is_discarded (TheSupportChatWidget (JStr "chat_1_abc"))
             "{oops" Corrupted.world 1000 1000).
    + discriminate.
    + vm_compute. reflexivity.
Defined.

(** ** The line formatter *)

Lemma textRules_textBlock (line : string) : textBlock (Formatter.textRules line).
Proof.
  unfold Formatter.textRules.
  repeat match goal with |- context [if ?b then _ else _] => destruct b end;
    exact I.
Qed.

(** C10.  A line that contains a pipe, has fewer than two cells left once
    it is split on pipes and the blank cells are dropped, and contains no
    run of three dashes, gets neither a table row nor a divider: it falls
    through to the rules below (bold runs, italic line, empty line,
    regular text) and is formatted by them. *)
Theorem sparse_pipe_line_falls_through (line : string) :
  JsString.includes "|" line = true ->
  (length (Formatter.tableCells line) < 2)%nat ->
  JsString.includes "---" line = false ->
  Formatter.formatLine line = Formatter.textRules line
  /\ textBlock (Formatter.formatLine line)
  /\ Formatter.formatLine line <> Formatter.Divider
  /\ (forall cells, Formatter.formatLine line <> Formatter.Row cells).
Proof.
  intros Hpipe Hcells Hdash.
  assert (Formatter.formatLine line = Formatter.textRules line) as Heq.
  { unfold Formatter.formatLine, Formatter.tableRule.
    rewrite Hpipe, Hdash.
    destruct (Nat.ltb_spec 1 (length (Formatter.tableCells line))); [lia | reflexivity]. }
  pose proof (textRules_textBlock line) as Hblock. rewrite <- Heq in Hblock.
  repeat split; auto.
  - intros E. rewrite E in Hblock. exact Hblock.
  - intros cells E. rewrite E in Hblock. exact Hblock.
Qed.

Lemma sparse_pipe_line_falls_through_witness :
  Formatter.formatLine "total |" = Formatter.textRules "total |"
  /\ textBlock (Formatter.formatLine "total |")
  /\ Formatter.formatLine "total |" <> Formatter.Divider
  /\ (forall cells, Formatter.formatLine "total |" <> Formatter.Row cells).
Proof.
  apply (sparse_pipe_line_falls_through "total |").
  - reflexivity.
  - vm_compute. lia.
  - reflexivity.
Defined.

Lemma sparse_pipe_line_is_a_paragraph :
  Formatter.formatMessage "total |" = [Formatter.Paragraph "total |"].
Proof. vm_compute. reflexivity. Qed.

(** ** Facts about strings *)

Section StringFacts.

Implicit Types (a b c d s : string) (x : ascii) (p : ascii -> bool).

Lemma str_app_cons x a b : String x a +:+ b = String x (a +:+ b).
Proof. reflexivity. Qed.

Lemma str_app_nil_l a : "" +:+ a = a.
Proof. reflexivity. Qed.

Lemma str_app_nil_r a : a +:+ "" = a.
Proof. induction a as [|x a IH]; [reflexivity|]. rewrite str_app_cons, IH. reflexivity. Qed.

Lemma str_app_assoc a b c : (a +:+ b) +:+ c = a +:+ (b +:+ c).
Proof.
  induction a as [|x a IH]; [reflexivity|].
  rewrite !str_app_cons, IH. reflexivity.
Qed.

Lemma str_length_app a b :
  String.length (a +:+ b) = (String.length a + String.length b)%nat.
Proof.
  induction a as [|x a IH]; [reflexivity|].
  rewrite str_app_cons. cbn. rewrite IH. reflexivity.
Qed.

Lemma str_app_eq_nil a b : a +:+ b = "" -> a = "" /\ b = "".
Proof. destruct a; [auto | discriminate]. Qed.

(** Two ways of cutting one string: one cut is inside the other's first
    part. *)
Lemma str_app_eq_inv a b c d :
  a +:+ b = c +:+ d ->
  (exists k, a = c +:+ k /\ d = k +:+ b) \/ (exists k, c = a +:+ k /\ b = k +:+ d).
Proof.
  revert c. induction a as [|x a IH]; intros c H.
  - right. exists c. auto.
  - destruct c as [|y c].
    + left. exists (String x a). auto.
    + rewrite !str_app_cons in H. injection H as -> H.
      destruct (IH _ H) as [(k & -> & ->) | (k & -> & ->)]; [left | right];
        exists k; auto.
Qed.

Lemma str_app_cancel_r a b c : a +:+ c = b +:+ c -> a = b.
Proof.
  intros H.
  apply str_app_eq_inv in H as [(k & -> & Hk) | (k & -> & Hk)];
    apply (f_equal String.length) in Hk; rewrite str_length_app in Hk;
    destruct k; cbn in Hk; try lia; rewrite str_app_nil_r; reflexivity.
Qed.

End StringFacts.

Lemma every_app (p : ascii -> bool) (a b : string) :
  every p (a +:+ b) = every p a && every p b.
Proof.
  induction a as [|x a IH]; [reflexivity|].
  rewrite str_app_cons. cbn. rewrite IH, andb_assoc. reflexivity.
Qed.

(** ** Facts about the matcher *)

Section MatcherFacts.

Import RegExp.
Implicit Types (r : regex) (s m : string) (x y : result) (p : ascii -> bool).

Lemma plus_spec p s m s' :
  (m, s') ∈ plus p s -> s = m +:+ s' /\ m <> "" /\ every p m = true.
Proof.
  revert m s'. induction s as [|c s IH]; intros m s' H; cbn in H.
  - set_solver.
  - destruct (p c) eqn:Hc; [|set_solver].
    apply elem_of_app in H as [H | H].
    + apply list_elem_of_fmap in H as ([m0 r0] & [= -> ->] & H0).
      destruct (IH _ _ H0) as (-> & Hm & Hall). cbn.
      rewrite Hc, Hall. auto.
    + apply list_elem_of_singleton in H as [= -> ->]. cbn. rewrite Hc. auto.
Qed.

Lemma starLazy_spec p s m s' :
  (m, s') ∈ starLazy p s -> s = m +:+ s' /\ every p m = true.
Proof.
  revert m s'. induction s as [|c s IH]; intros m s' H; cbn in H.
  - apply list_elem_of_singleton in H as [= -> ->]. auto.
  - apply elem_of_cons in H as [[= -> ->] | H]; [auto|].
    destruct (p c) eqn:Hc; [|set_solver].
    apply list_elem_of_fmap in H as ([m0 r0] & [= -> ->] & H0).
    destruct (IH _ _ H0) as (-> & Hall). cbn. rewrite Hc, Hall. auto.
Qed.

(** What a match consumed and what it left make up the text it saw. *)
Lemma matches_sound ignoreCase r :
  forall s x, x ∈ matches ignoreCase r s -> s = matched x +:+ rest x.
Proof.
  induction r as [c|p|r1 IH1 r2 IH2|r1 IH1 r2 IH2|r1 IH1|p|p|n r1 IH1];
    intros s x H; cbn in H.
  - destruct s as [|a s]; [set_solver|].
    destruct (chr_eq ignoreCase a c); [|set_solver].
    apply list_elem_of_singleton in H as ->. reflexivity.
  - destruct s as [|a s]; [set_solver|].
    destruct (p a); [|set_solver].
    apply list_elem_of_singleton in H as ->. reflexivity.
  - apply list_elem_of_bind in H as (x1 & H & H1).
    apply list_elem_of_bind in H as (x2 & H & H2).
    apply list_elem_of_singleton in H as ->. cbn.
    rewrite str_app_assoc, <- (IH2 _ _ H2). apply IH1, H1.
  - apply elem_of_app in H as [H | H]; auto.
  - apply elem_of_app in H as [H | H]; auto.
    apply list_elem_of_singleton in H as ->. reflexivity.
  - apply list_elem_of_fmap in H as ([m0 r0] & -> & H).
    apply plus_spec in H. tauto.
  - apply list_elem_of_fmap in H as ([m0 r0] & -> & H).
    apply starLazy_spec in H. tauto.
  - apply list_elem_of_fmap in H as (x1 & -> & H). cbn. auto.
Qed.

(** [exec] returns the first match of the leftmost position that has one. *)
Lemma exec_Some ignoreCase r s gap x :
  exec ignoreCase r s = Some (gap, x) ->
  exists s2,
    s = gap +:+ s2 /\
    head (matches ignoreCase r s2) = Some x /\
    (forall g1 g2, gap = g1 +:+ g2 -> g2 <> "" ->
       matches ignoreCase r (g2 +:+ s2) = []).
Proof.
  revert gap. induction s as [|c s IH]; intros gap H; cbn in H.
  - destruct (matches ignoreCase r "") as [|x0 l] eqn:E; [discriminate|].
    injection H as <- <-. exists "". rewrite E. repeat split.
    intros g1 g2 Hg. symmetry in Hg. apply str_app_eq_nil in Hg as [_ ->]. congruence.
  - destruct (matches ignoreCase r (String c s)) as [|x0 l] eqn:E.
    + destruct (exec ignoreCase r s) as [[g0 x1]|] eqn:E'; [|discriminate].
      injection H as <- <-. destruct (IH _ eq_refl) as (s2 & -> & Hhd & Hno).
      exists s2. repeat split; auto.
      intros g1 g2 Hg Hne. destruct g1 as [|c1 g1].
      * rewrite str_app_nil_l in Hg. subst g2. rewrite str_app_cons. exact E.
      * rewrite str_app_cons in Hg. injection Hg as _ Hg. eauto.
    + injection H as <- <-. exists (String c s). rewrite E. repeat split.
      intros g1 g2 Hg. symmetry in Hg. apply str_app_eq_nil in Hg as [_ ->]. congruence.
Qed.

Lemma exec_None ignoreCase r s :
  exec ignoreCase r s = None ->
  forall g1 g2, s = g1 +:+ g2 -> matches ignoreCase r g2 = [].
Proof.
  induction s as [|c s IH]; intros H g1 g2 Hs; cbn in H.
  - symmetry in Hs. apply str_app_eq_nil in Hs as [_ ->].
    destruct (matches ignoreCase r ""); [reflexivity | discriminate].
  - destruct (matches ignoreCase r (String c s)) eqn:E; [|discriminate].
    destruct (exec ignoreCase r s) as [[]|] eqn:E'; [discriminate|].
    destruct g1 as [|c1 g1].
    + rewrite str_app_nil_l in Hs. subst g2. exact E.
    + rewrite str_app_cons in Hs. injection Hs as _ Hs. eauto.
Qed.

End MatcherFacts.

(** ** Facts about the global search *)

Section SearchFacts.

Import RegExp.
Implicit Types (r : regex) (s m : string) (x y : result).

Lemma exec_shorter ignoreCase r s gap x :
  exec ignoreCase r s = Some (gap, x) ->
  (String.length (matched x) + String.length (rest x) <= String.length s)%nat.
Proof.
  intros H. apply exec_Some in H as (s2 & -> & Hhd & _).
  apply head_Some_elem_of, matches_sound in Hhd. rewrite Hhd.
  rewrite !str_length_app. lia.
Qed.

(** Fuel beyond the length of the text changes nothing. *)
Lemma segments_from_fuel ignoreCase r (n : nat) :
  forall (m : nat) s,
    (String.length s < n)%nat -> (String.length s < m)%nat ->
    segments_from n ignoreCase r s = segments_from m ignoreCase r s.
Proof.
  induction n as [|n IH]; intros m s Hn Hm; [lia|].
  destruct m as [|m]; [lia|]. cbn.
  destruct (exec ignoreCase r s) as [[gap x]|] eqn:E; [|reflexivity].
  apply exec_shorter in E.
  destruct (matched x) as [|c0 m0] eqn:Em, (rest x) as [|c1 s1] eqn:Er;
    cbn in E; try reflexivity.
  - rewrite (IH m s1) by lia. reflexivity.
  - rewrite (IH m "") by (cbn; lia). reflexivity.
  - rewrite (IH m (String c1 s1)) by (cbn; lia). reflexivity.
Qed.

Lemma segments_unfold ignoreCase r s :
  segments ignoreCase r s =
  match exec ignoreCase r s with
  | None => ([], s)
  | Some (gap, x) =>
      let later :=
        match matched x, rest x with
        | EmptyString, String c s' => shift c (segments ignoreCase r s')
        | EmptyString, EmptyString => ([], EmptyString)
        | _, s' => segments ignoreCase r s'
        end in
      ((gap, x) :: later.1, later.2)
  end.
Proof.
  unfold segments at 1. cbn [segments_from].
  destruct (exec ignoreCase r s) as [[gap x]|] eqn:E; [|reflexivity].
  apply exec_shorter in E. unfold segments.
  destruct (matched x) as [|c0 m0] eqn:Em, (rest x) as [|c1 s1] eqn:Er;
    cbn in E; try reflexivity.
  - rewrite (segments_from_fuel _ _ (String.length s) (S (String.length s1))) by lia.
    reflexivity.
  - rewrite (segments_from_fuel _ _ (String.length s) (S (String.length ""))) by (cbn; lia).
    reflexivity.
  - rewrite (segments_from_fuel _ _ (String.length s) (S (String.length (String c1 s1))))
      by (cbn; lia).
    reflexivity.
Qed.

Lemma substitute_cons (template : result -> string) gap x more tail :
  substitute template ((gap, x) :: more, tail)
  = gap +:+ template x +:+ substitute template (more, tail).
Proof. unfold substitute. cbn. rewrite !str_app_assoc. reflexivity. Qed.

Lemma substitute_shift (template : result -> string) c found :
  substitute template (shift c found) = String c (substitute template found).
Proof. destruct found as [[|[gap x] more] tail]; reflexivity. Qed.

(** Putting every match back where it was found gives the text searched. *)
Lemma segments_original ignoreCase r s :
  substitute matched (segments ignoreCase r s) = s.
Proof.
  remember (String.length s) as n eqn:Hn. revert s Hn.
  induction n as [n IH] using lt_wf_ind; intros s ->.
  rewrite segments_unfold.
  destruct (exec ignoreCase r s) as [[gap x]|] eqn:E; [|reflexivity].
  pose proof (exec_shorter _ _ _ _ _ E) as Hlen.
  apply exec_Some in E as (s2 & -> & Hhd & _).
  apply head_Some_elem_of, matches_sound in Hhd.
  cbv zeta. rewrite substitute_cons, <- surjective_pairing. f_equal.
  rewrite Hhd. f_equal.
  rewrite Hhd, !str_length_app in Hlen. rewrite Hhd in IH.
  destruct (matched x) as [|c0 m0] eqn:Em, (rest x) as [|c1 s1] eqn:Er; cbn in Hlen.
  - reflexivity.
  - rewrite substitute_shift. f_equal.
    apply (IH (String.length s1)); [|reflexivity].
    rewrite !str_length_app. cbn. lia.
  - apply (IH 0%nat); [|reflexivity]. rewrite !str_length_app. cbn. lia.
  - apply (IH (String.length (String c1 s1))); [|reflexivity].
    rewrite !str_length_app. cbn. lia.
Qed.

End SearchFacts.

(** ** Matches as spans: the text consumed and the text left *)

Section Spans.

Import RegExp.
Implicit Types (r : regex) (s m w : string) (x y : result) (p : ascii -> bool).

Lemma head_spans ignoreCase r s :
  head (spans ignoreCase r s) = span <$> head (matches ignoreCase r s).
Proof. unfold spans. destruct (matches ignoreCase r s); reflexivity. Qed.

Lemma spans_nil ignoreCase r s :
  spans ignoreCase r s = [] <-> matches ignoreCase r s = [].
Proof. unfold spans. destruct (matches ignoreCase r s); cbn; split; congruence. Qed.

Lemma elem_of_spans ignoreCase r s m s' :
  (m, s') ∈ spans ignoreCase r s -> s = m +:+ s'.
Proof.
  intros H. apply list_elem_of_fmap in H as (x & [= -> ->] & H).
  apply matches_sound in H. exact H.
Qed.

Lemma spans_Seq ignoreCase r1 r2 s :
  spans ignoreCase (Seq r1 r2) s
  = a ← spans ignoreCase r1 s; chain a <$> spans ignoreCase r2 a.2.
Proof.
  unfold spans. cbn [matches].
  induction (matches ignoreCase r1 s) as [|x l IH]; [reflexivity|].
  rewrite fmap_cons, !bind_cons, fmap_app, IH. f_equal.
  cbn [span snd]. induction (matches ignoreCase r2 (rest x)) as [|y k IHk]; [reflexivity|].
  rewrite bind_cons, !fmap_cons, fmap_app, IHk. reflexivity.
Qed.

Lemma spans_Alt ignoreCase r1 r2 s :
  spans ignoreCase (Alt r1 r2) s = spans ignoreCase r1 s ++ spans ignoreCase r2 s.
Proof. unfold spans. cbn. apply fmap_app. Qed.

Lemma spans_Opt ignoreCase r s :
  spans ignoreCase (Opt r) s = spans ignoreCase r s ++ [(EmptyString, s)].
Proof. unfold spans. cbn. rewrite fmap_app. reflexivity. Qed.

Lemma spans_Group ignoreCase n r s :
  spans ignoreCase (Group n r) s = spans ignoreCase r s.
Proof.
  unfold spans. cbn. rewrite <- list_fmap_compose. reflexivity.
Qed.

Lemma spans_Plus ignoreCase p s : spans ignoreCase (Plus p) s = plus p s.
Proof.
  unfold spans. cbn. rewrite <- list_fmap_compose.
  rewrite <- (list_fmap_id (plus p s)) at 2. apply list_fmap_ext. intros _ [] _. reflexivity.
Qed.

Lemma spans_StarLazy ignoreCase p s : spans ignoreCase (StarLazy p) s = starLazy p s.
Proof.
  unfold spans. cbn. rewrite <- list_fmap_compose.
  rewrite <- (list_fmap_id (starLazy p s)) at 2. apply list_fmap_ext. intros _ [] _. reflexivity.
Qed.

Lemma spans_Chr ignoreCase c s :
  spans ignoreCase (Chr c) s
  = match s with
    | String a s' => if chr_eq ignoreCase a c then [(String a EmptyString, s')] else []
    | EmptyString => []
    end.
Proof. unfold spans. cbn. destruct s as [|a s]; [|destruct (chr_eq _ a c)]; reflexivity. Qed.

Lemma chain_consume a (b c : string * string) :
  chain (consume a b) c = consume a (chain b c).
Proof. reflexivity. Qed.

(** A literal word matches in one way at most: the word itself. *)
Lemma spans_Str ignoreCase w s :
  w <> "" ->
  spans ignoreCase (Str w) s = option_list (takeWord ignoreCase w s).
Proof.
  revert s. induction w as [|y w IH]; intros s Hw; [congruence|].
  destruct w as [|y' w].
  - cbn [Str]. rewrite spans_Chr. cbn. destruct s as [|a s]; [reflexivity|].
    destruct (chr_eq ignoreCase a y); reflexivity.
  - change (Str (String y (String y' w))) with (Seq (Chr y) (Str (String y' w))).
    rewrite spans_Seq, spans_Chr.
    destruct s as [|a s]; [reflexivity|].
    change (takeWord ignoreCase (String y (String y' w)) (String a s))
      with (if chr_eq ignoreCase a y
            then consume a <$> takeWord ignoreCase (String y' w) s else None).
    destruct (chr_eq ignoreCase a y); [|reflexivity].
    rewrite bind_singleton. cbn [snd]. rewrite IH by discriminate.
    destruct (takeWord ignoreCase (String y' w) s) as [[m s']|]; reflexivity.
Qed.

Lemma takeWord_Some ignoreCase w s m s' :
  takeWord ignoreCase w s = Some (m, s') <->
  s = m +:+ s' /\ sameWord ignoreCase m w = true.
Proof.
  revert s m. induction w as [|y w IH]; intros s m; cbn [takeWord].
  - split.
    + intros [= <- <-]. auto.
    + intros [-> H]. destruct m; [reflexivity | discriminate].
  - split.
    + destruct s as [|a s]; [discriminate|].
      destruct (chr_eq ignoreCase a y) eqn:Ha; [|discriminate].
      destruct (takeWord ignoreCase w s) as [[m0 s0]|] eqn:E; [|discriminate].
      intros [= <- <-]. apply IH in E as [-> Hm0].
      cbn. rewrite Ha, Hm0. auto.
    + intros [-> H]. destruct m as [|a m]; [discriminate|].
      cbn in H. apply andb_true_iff in H as [Ha H].
      rewrite str_app_cons, Ha.
      assert (takeWord ignoreCase w (m +:+ s') = Some (m, s')) as -> by (apply IH; auto).
      reflexivity.
Qed.

Lemma takeWord_app ignoreCase w m s :
  sameWord ignoreCase m w = true -> takeWord ignoreCase w (m +:+ s) = Some (m, s).
Proof. intros H. apply takeWord_Some. auto. Qed.

Lemma sameWord_app ignoreCase m1 w1 m2 w2 :
  sameWord ignoreCase m1 w1 = true -> sameWord ignoreCase m2 w2 = true ->
  sameWord ignoreCase (m1 +:+ m2) (w1 +:+ w2) = true.
Proof.
  revert w1. induction m1 as [|a m1 IH]; intros [|y w1] H1 H2; try discriminate.
  - exact H2.
  - rewrite !str_app_cons. cbn in *. apply andb_true_iff in H1 as [-> H1]. cbn. auto.
Qed.

(** [(class)+ r]: the runs of the class from the longest down, each
    followed by a match of [r]. *)
Lemma spans_Plus_then ignoreCase p r s :
  spans ignoreCase (Seq (Plus p) r) s
  = match s with
    | String c s' =>
        if p c then
          (consume c <$> spans ignoreCase (Seq (Plus p) r) s')
          ++ (consume c <$> spans ignoreCase r s')
        else []
    | EmptyString => []
    end.
Proof.
  rewrite spans_Seq, spans_Plus. destruct s as [|c s]; [reflexivity|].
  cbn [plus]. destruct (p c); [|reflexivity].
  rewrite bind_app, bind_singleton, spans_Seq, spans_Plus.
  apply (f_equal2 app); [|reflexivity].
  induction (plus p s) as [|a l IH]; [reflexivity|].
  rewrite fmap_cons, !bind_cons, fmap_app, IH. f_equal.
  rewrite <- !list_fmap_compose. reflexivity.
Qed.

(** [(class)*? r]: a match of [r] here, or one character of the class
    further on. *)
Lemma spans_StarLazy_then ignoreCase p r s :
  spans ignoreCase (Seq (StarLazy p) r) s
  = spans ignoreCase r s ++
    match s with
    | String c s' =>
        if p c then consume c <$> spans ignoreCase (Seq (StarLazy p) r) s' else []
    | EmptyString => []
    end.
Proof.
  rewrite spans_Seq, spans_StarLazy.
  assert (forall l : list (string * string),
            chain (EmptyString, s) <$> l = l) as Hid.
  { intros l. rewrite <- (list_fmap_id l) at 2. apply list_fmap_ext. intros _ [] _. reflexivity. }
  destruct s as [|c s]; cbn [starLazy].
  - rewrite bind_singleton. cbn [snd]. rewrite Hid, app_nil_r. reflexivity.
  - rewrite bind_cons. cbn [snd]. rewrite Hid. f_equal.
    destruct (p c); [|reflexivity].
    rewrite spans_Seq, spans_StarLazy.
    induction (starLazy p s) as [|a l IH]; [reflexivity|].
    rewrite fmap_cons, !bind_cons, fmap_app, IH. f_equal.
    rewrite <- !list_fmap_compose. reflexivity.
Qed.

End Spans.

(** ** Membership in the spans *)

Section SpanMembership.

Import RegExp.
Implicit Types (r : regex) (s m w : string) (p : ascii -> bool).

Lemma elem_of_plus p s m s' :
  (m, s') ∈ plus p s <-> s = m +:+ s' /\ m <> "" /\ every p m = true.
Proof.
  split; [apply plus_spec|]. intros (-> & Hm & Hall).
  induction m as [|c m IH]; [congruence|].
  cbn in Hall. apply andb_true_iff in Hall as [Hc Hall].
  rewrite str_app_cons. cbn [plus]. rewrite Hc. apply elem_of_app.
  destruct m as [|c' m].
  - right. apply list_elem_of_singleton. reflexivity.
  - left. apply list_elem_of_fmap. exists (String c' m, s'). split; [reflexivity|].
    apply IH; [discriminate | exact Hall].
Qed.

Lemma elem_of_spans_Seq ignoreCase r1 r2 s m s' :
  (m, s') ∈ spans ignoreCase (Seq r1 r2) s <->
  exists m1 s1 m2,
    (m1, s1) ∈ spans ignoreCase r1 s /\ (m2, s') ∈ spans ignoreCase r2 s1 /\
    m = m1 +:+ m2.
Proof.
  rewrite spans_Seq, list_elem_of_bind. split.
  - intros ([m1 s1] & H & H1). apply list_elem_of_fmap in H as ([m2 s2] & [= -> ->] & H2).
    exists m1, s1, m2. auto.
  - intros (m1 & s1 & m2 & H1 & H2 & ->). exists (m1, s1). split; [|exact H1].
    apply list_elem_of_fmap. exists (m2, s'). auto.
Qed.

Lemma elem_of_spans_Str ignoreCase w s m s' :
  w <> "" ->
  (m, s') ∈ spans ignoreCase (Str w) s <->
  s = m +:+ s' /\ sameWord ignoreCase m w = true.
Proof.
  intros Hw. rewrite spans_Str by exact Hw. rewrite <- takeWord_Some.
  destruct (takeWord ignoreCase w s) as [a|]; cbn.
  - rewrite list_elem_of_singleton. split; congruence.
  - split; [intros H; inversion H | discriminate].
Qed.

End SpanMembership.

(** ** Characters under the [i] flag *)

Section Characters.

Import RegExp.

Lemma canonicalize_space (c : ascii) :
  JsString.isWhiteSpace (canonicalize c) = JsString.isWhiteSpace c.
Proof. destruct c as [[] [] [] [] [] [] [] []]; reflexivity. Qed.

Lemma chr_eq_canonical (a b : ascii) :
  chr_eq true a b = true <-> canonicalize a = canonicalize b.
Proof. apply Ascii.eqb_eq. Qed.

Lemma chr_eq_space (a b : ascii) :
  chr_eq true a b = true -> JsString.isWhiteSpace a = JsString.isWhiteSpace b.
Proof.
  intros H%chr_eq_canonical.
  rewrite <- (canonicalize_space a), H. apply canonicalize_space.
Qed.

Lemma sameWord_space (m w : string) :
  sameWord true m w = true ->
  every ChatResponseView.notSpace m = every ChatResponseView.notSpace w.
Proof.
  revert w. induction m as [|a m IH]; intros [|y w] H; try discriminate; [reflexivity|].
  cbn in H. apply andb_true_iff in H as [Ha H]. cbn.
  unfold ChatResponseView.notSpace at 1 3. rewrite (chr_eq_space _ _ Ha), (IH _ H).
  reflexivity.
Qed.

Lemma sameWord_cons_r ignoreCase (m : string) (y : ascii) (w : string) :
  sameWord ignoreCase m (String y w) = true ->
  exists a m', m = String a m' /\ chr_eq ignoreCase a y = true
               /\ sameWord ignoreCase m' w = true.
Proof.
  destruct m as [|a m]; [discriminate|]. cbn. intros [? ?]%andb_true_iff. eauto.
Qed.

Lemma sameWord_nil_r ignoreCase (m : string) :
  sameWord ignoreCase m "" = true -> m = "".
Proof. destruct m; [reflexivity | discriminate]. Qed.

End Characters.

(** Spell out a word that matches a literal: its characters, and the
    canonical form of each. *)
Ltac spell H :=
  repeat
    (let a := fresh "c" in
     let Ha := fresh "H" a in
     apply sameWord_cons_r in H as (a & ? & -> & Ha & H);
     apply chr_eq_canonical in Ha; vm_compute (RegExp.canonicalize (Ascii _ _ _ _ _ _ _ _)) in Ha);
  apply sameWord_nil_r in H as ->.

(** ** The image pattern *)

Section ImagePattern.

Import RegExp ChatResponseView.
Implicit Types (s m u pre post body ext scheme : string).

Lemma imageUrl_eq :
  imageUrl = Group 1 (Seq (Str "http") (Seq (Opt (Chr "s")) (Seq (Str "://") urlTail))).
Proof. reflexivity. Qed.

Lemma spans_extension s :
  spans true extension s
  = option_list (takeWord true ".png" s) ++ option_list (takeWord true ".jpg" s)
    ++ option_list (takeWord true ".jpeg" s) ++ option_list (takeWord true ".gif" s).
Proof.
  unfold extension. rewrite spans_Group, !spans_Alt, !spans_Str by discriminate.
  reflexivity.
Qed.

Lemma elem_of_spans_extension s m s' :
  (m, s') ∈ spans true extension s <->
  s = m +:+ s' /\ exists e, e ∈ imageExtensions /\ sameWord true m e = true.
Proof.
  unfold extension. rewrite spans_Group, !spans_Alt, !elem_of_app.
  rewrite !elem_of_spans_Str by discriminate. unfold imageExtensions. split.
  - intros [H | [H | [H | H]]]; destruct H as [-> H]; (split; [reflexivity|]);
      eexists; (split; [|exact H]); set_solver.
  - intros (-> & e & He & H). set_unfold in He.
    destruct He as [-> | [-> | [-> | [-> | []]]]]; auto 10.
Qed.

(** At the start of an extension the alternatives are tried in order,
    and the first that matches reads exactly the extension. *)
Lemma head_spans_extension ext e post :
  e ∈ imageExtensions -> sameWord true ext e = true ->
  head (spans true extension (ext +:+ post)) = Some (ext, post).
Proof.
  intros He H. rewrite spans_extension. unfold imageExtensions in He. set_unfold in He.
  destruct He as [-> | [-> | [-> | [-> | []]]]]; spell H;
    rewrite !str_app_cons, str_app_nil_l; cbn [takeWord]; unfold chr_eq;
    repeat match goal with Hc : canonicalize _ = _ |- _ => rewrite Hc; clear Hc end;
    reflexivity.
Qed.

Lemma spans_extension_start c s :
  chr_eq true c "." = false -> spans true extension (String c s) = [].
Proof. intros H. rewrite spans_extension. cbn [takeWord]. rewrite H. reflexivity. Qed.

Lemma spans_extension_blank s :
  startsBlank s = true -> spans true extension s = [].
Proof.
  destruct s as [|c s]; [reflexivity|]. cbn. intros H.
  apply spans_extension_start. destruct (chr_eq true c ".") eqn:E; [|reflexivity].
  apply chr_eq_space in E. rewrite H in E. discriminate.
Qed.

Lemma spans_urlTail_blank s :
  startsBlank s = true -> spans true urlTail s = [].
Proof.
  unfold urlTail. rewrite spans_Plus_then. destruct s as [|c s]; [reflexivity|].
  cbn. unfold notSpace. intros ->. reflexivity.
Qed.

Lemma canonical_notSpace (c k : ascii) :
  canonicalize c = k -> JsString.isWhiteSpace k = false -> notSpace c = true.
Proof.
  intros <- H. unfold notSpace. rewrite canonicalize_space in H. rewrite H. reflexivity.
Qed.

(** Inside an extension no extension starts, so the run of [urlTail]
    cannot stop there. *)
Lemma spans_urlTail_extension ext e post :
  e ∈ imageExtensions -> sameWord true ext e = true -> startsBlank post = true ->
  spans true urlTail (ext +:+ post) = [].
Proof.
  intros He H Hpost. unfold imageExtensions in He. set_unfold in He.
  pose proof (spans_urlTail_blank _ Hpost) as Htail.
  pose proof (spans_extension_blank _ Hpost) as Hext.
  unfold urlTail in *.
  destruct He as [-> | [-> | [-> | [-> | []]]]]; spell H;
    rewrite !str_app_cons, str_app_nil_l;
    repeat (rewrite spans_Plus_then;
            match goal with
            | Hc : canonicalize ?c = _ |- context [notSpace ?c] =>
                rewrite (canonical_notSpace c _ Hc eq_refl)
            end);
    rewrite ?Htail, ?Hext;
    repeat (rewrite spans_extension_start
              by (unfold chr_eq;
                  match goal with
                  | Hc : canonicalize ?c = _ |- context [canonicalize ?c] => rewrite Hc
                  end; reflexivity));
    reflexivity.
Qed.

(** Greedy means longest: the run is taken up to the last extension
    before the next white space. *)
Lemma head_spans_urlTail body ext e post :
  body <> "" -> every notSpace body = true ->
  e ∈ imageExtensions -> sameWord true ext e = true -> startsBlank post = true ->
  head (spans true urlTail (body +:+ ext +:+ post)) = Some (body +:+ ext, post).
Proof.
  intros Hbody Hall He Hext Hpost.
  induction body as [|c body IH]; [congruence|].
  cbn in Hall. apply andb_true_iff in Hall as [Hc Hall].
  rewrite !str_app_cons. unfold urlTail. rewrite spans_Plus_then, Hc.
  fold urlTail. rewrite head_app.
  destruct body as [|c' body].
  - rewrite !str_app_nil_l, (spans_urlTail_extension _ _ _ He Hext Hpost).
    cbn [fmap list_fmap head].
    pose proof (head_spans_extension _ _ post He Hext) as Hhd.
    destruct (spans true extension (ext +:+ post)) as [|a l]; [discriminate|].
    injection Hhd as ->. reflexivity.
  - specialize (IH ltac:(discriminate) Hall).
    destruct (spans true urlTail (String c' body +:+ ext +:+ post)) as [|a l];
      [discriminate|].
    injection IH as ->. reflexivity.
Qed.

Lemma elem_of_spans_urlTail s m s' :
  (m, s') ∈ spans true urlTail s <->
  s = m +:+ s' /\
  exists body ext,
    m = body +:+ ext /\ body <> "" /\ every notSpace body = true /\
    exists e, e ∈ imageExtensions /\ sameWord true ext e = true.
Proof.
  unfold urlTail. rewrite elem_of_spans_Seq. split.
  - intros (m1 & s1 & m2 & H1 & H2 & ->).
    rewrite spans_Plus in H1. apply elem_of_plus in H1 as (-> & Hm1 & Hall).
    apply elem_of_spans_extension in H2 as (-> & He).
    rewrite str_app_assoc. split; [reflexivity|]. exists m1, m2. auto.
  - intros (-> & body & ext & -> & Hbody & Hall & He).
    exists body, (ext +:+ s'), ext. rewrite spans_Plus, elem_of_plus, elem_of_spans_extension.
    rewrite str_app_assoc. auto 10.
Qed.

End ImagePattern.

Section ImageMatches.

Import RegExp ChatResponseView.
Implicit Types (s m u pre post body ext scheme : string).

Lemma option_list_Some {A} (a : A) : option_list (Some a) = [a].
Proof. reflexivity. Qed.

Lemma canonical_colon (c : ascii) : canonicalize c = ":"%char -> c = ":"%char.
Proof.
  destruct c as [[] [] [] [] [] [] [] []]; vm_compute; intros H;
    first [reflexivity | discriminate H].
Qed.

Lemma canonical_slash (c : ascii) : canonicalize c = "/"%char -> c = "/"%char.
Proof.
  destruct c as [[] [] [] [] [] [] [] []]; vm_compute; intros H;
    first [reflexivity | discriminate H].
Qed.

Lemma sameWord_separator m : sameWord true m "://" = true -> m = "://".
Proof.
  intros H. spell H.
  repeat match goal with
         | Hc : canonicalize _ = ":"%char |- _ => apply canonical_colon in Hc as ->
         | Hc : canonicalize _ = "/"%char |- _ => apply canonical_slash in Hc as ->
         end.
  reflexivity.
Qed.

Lemma elem_of_spans_Opt_Chr c s m s' :
  (m, s') ∈ spans true (Opt (Chr c)) s <->
  s = m +:+ s' /\ (m = "" \/ sameWord true m (String c "") = true).
Proof.
  rewrite spans_Opt, spans_Chr, elem_of_app, list_elem_of_singleton. split.
  - intros [H | [= -> ->]]; [|auto].
    destruct s as [|a s]; [inversion H|].
    destruct (chr_eq true a c) eqn:E; [|inversion H].
    apply list_elem_of_singleton in H as [= -> ->].
    split; [reflexivity|]. right. cbn [sameWord]. rewrite E. reflexivity.
  - intros (-> & [-> | H]); [right; reflexivity|]. left.
    apply sameWord_cons_r in H as (a & m' & Hm & Ha & H).
    apply sameWord_nil_r in H. subst m m'.
    rewrite str_app_cons, str_app_nil_l, Ha. apply list_elem_of_singleton. reflexivity.
Qed.

Lemma sameWord_https scheme :
  sameWord true scheme "https" = true ->
  exists h o, scheme = h +:+ o /\ sameWord true h "http" = true
              /\ sameWord true o "s" = true.
Proof.
  intros H.
  apply sameWord_cons_r in H as (c1 & ? & -> & H1 & H).
  apply sameWord_cons_r in H as (c2 & ? & -> & H2 & H).
  apply sameWord_cons_r in H as (c3 & ? & -> & H3 & H).
  apply sameWord_cons_r in H as (c4 & o & -> & H4 & H).
  exists (String c1 (String c2 (String c3 (String c4 "")))), o.
  cbn [sameWord]. rewrite H1, H2, H3, H4. auto.
Qed.

Lemma spans_Opt_Chr_hit o c s :
  sameWord true o (String c "") = true ->
  spans true (Opt (Chr c)) (o +:+ s) = [(o, s); ("", o +:+ s)].
Proof.
  intros H. apply sameWord_cons_r in H as (a & m' & Hm & Ha & H).
  apply sameWord_nil_r in H. subst o m'.
  rewrite spans_Opt, spans_Chr, str_app_cons, str_app_nil_l, Ha. reflexivity.
Qed.

(** The pattern matches at the start of a text exactly the prefixes that
    are image URLs. *)
Lemma elem_of_spans_imageUrl s m s' :
  (m, s') ∈ spans true imageUrl s <-> s = m +:+ s' /\ isImageUrl m.
Proof.
  rewrite imageUrl_eq, spans_Group. split.
  - intros H.
    apply elem_of_spans_Seq in H as (h & s1 & m1 & Hh & H & ->).
    apply elem_of_spans_Seq in H as (o & s2 & m2 & Ho & H & ->).
    apply elem_of_spans_Seq in H as (k & s3 & m3 & Hk & H & ->).
    apply elem_of_spans_Str in Hh as [-> Hh]; [|discriminate].
    apply elem_of_spans_Opt_Chr in Ho as [-> Ho].
    apply elem_of_spans_Str in Hk as [-> Hk]; [|discriminate].
    apply elem_of_spans_urlTail in H as (-> & body & ext & -> & Hbody & Hall & He).
    apply sameWord_separator in Hk as ->.
    rewrite !str_app_assoc. split; [reflexivity|].
    exists (h +:+ o), body, ext. rewrite !str_app_assoc. split; [reflexivity|].
    split; [|auto].
    destruct Ho as [-> | Ho].
    + left. rewrite str_app_nil_r. exact Hh.
    + right. apply (sameWord_app true h "http" o "s"); assumption.
  - intros (-> & scheme & body & ext & -> & Hscheme & Hbody & Hall & He).
    assert (exists h o, scheme = h +:+ o /\ sameWord true h "http" = true
                        /\ (o = "" \/ sameWord true o "s" = true))
      as (h & o & -> & Hh & Ho).
    { destruct Hscheme as [H | H].
      - exists scheme, "". rewrite str_app_nil_r. auto.
      - apply sameWord_https in H as (h & o & -> & Hh & Ho). eauto 6. }
    apply elem_of_spans_Seq.
    exists h, (o +:+ "://" +:+ body +:+ ext +:+ s'), (o +:+ "://" +:+ body +:+ ext).
    rewrite !str_app_assoc. split; [|split; [|reflexivity]].
    { apply elem_of_spans_Str; [discriminate|]. auto. }
    apply elem_of_spans_Seq.
    exists o, ("://" +:+ body +:+ ext +:+ s'), ("://" +:+ body +:+ ext).
    split; [|split; [|reflexivity]].
    { apply elem_of_spans_Opt_Chr. auto. }
    apply elem_of_spans_Seq.
    exists "://", (body +:+ ext +:+ s'), (body +:+ ext).
    split; [|split; [|reflexivity]].
    { apply elem_of_spans_Str; [discriminate|]. auto. }
    apply elem_of_spans_urlTail. rewrite str_app_assoc. split; [reflexivity|].
    exists body, ext. auto.
Qed.

(** An image URL that white space or the end of the text follows is
    matched whole, and first. *)
Lemma head_spans_imageUrl u post :
  isImageUrl u -> startsBlank post = true ->
  head (spans true imageUrl (u +:+ post)) = Some (u, post).
Proof.
  intros (scheme & body & ext & -> & Hscheme & Hbody & Hall & e & He & Hext) Hpost.
  pose proof (head_spans_urlTail body ext e post Hbody Hall He Hext Hpost) as Htail.
  destruct (spans true urlTail (body +:+ ext +:+ post)) as [|a l] eqn:E; [discriminate|].
  injection Htail as ->.
  assert (spans true (Seq (Str "://") urlTail) ("://" +:+ body +:+ ext +:+ post)
          = chain ("://", body +:+ ext +:+ post)
              <$> ((body +:+ ext, post) :: l)) as Hsep.
  { rewrite spans_Seq, spans_Str by discriminate.
    rewrite (takeWord_app true "://" "://" _ eq_refl). rewrite option_list_Some.
    rewrite bind_singleton. cbn [snd]. rewrite E. reflexivity. }
  rewrite imageUrl_eq, spans_Group, !str_app_assoc.
  rewrite spans_Seq, spans_Str by discriminate.
  destruct Hscheme as [H | H].
  - rewrite (takeWord_app true "http" scheme _ H). rewrite option_list_Some.
    rewrite bind_singleton. cbn [snd].
    rewrite spans_Seq.
    assert (spans true (Opt (Chr "s")) ("://" +:+ body +:+ ext +:+ post)
            = [("", "://" +:+ body +:+ ext +:+ post)]) as ->
      by (rewrite spans_Opt, spans_Chr; reflexivity).
    rewrite bind_singleton. cbn [snd]. rewrite Hsep. reflexivity.
  - apply sameWord_https in H as (h & o & -> & Hh & Ho).
    rewrite str_app_assoc, (takeWord_app true "http" h _ Hh).
    rewrite option_list_Some, bind_singleton. cbn [snd].
    rewrite spans_Seq, (spans_Opt_Chr_hit _ _ _ Ho), bind_cons. cbn [snd].
    rewrite Hsep. cbn. rewrite !str_app_assoc. reflexivity.
Qed.

End ImageMatches.

(** ** The rewriting pass *)

Section Rewriting.

Import RegExp ChatResponseView.
Implicit Types (s m u pre post done tail : string) (x : result).

Lemma segments_step ignoreCase r s gap x :
  exec ignoreCase r s = Some (gap, x) -> matched x <> "" ->
  segments ignoreCase r s
  = ((gap, x) :: (segments ignoreCase r (rest x)).1, (segments ignoreCase r (rest x)).2).
Proof.
  intros E Hm. rewrite segments_unfold, E.
  destruct (matched x); [congruence | reflexivity].
Qed.

Lemma shift_snd c (found : list (string * result) * string) :
  snd <$> (shift c found).1 = snd <$> found.1.
Proof. destruct found as [[|[gap x] more] tail]; reflexivity. Qed.

(** What holds of every first match holds of every match a search finds. *)
Lemma segments_Forall ignoreCase r (P : result -> Prop) :
  (forall s x, head (matches ignoreCase r s) = Some x -> P x) ->
  forall s, Forall P (snd <$> (segments ignoreCase r s).1).
Proof.
  intros HP s. remember (String.length s) as n eqn:Hn. revert s Hn.
  induction n as [n IH] using lt_wf_ind; intros s ->.
  rewrite segments_unfold.
  destruct (exec ignoreCase r s) as [[gap x]|] eqn:E; [|constructor].
  pose proof (exec_shorter _ _ _ _ _ E) as Hlen.
  apply exec_Some in E as (s2 & -> & Hhd & _).
  cbv zeta. cbn [fst fmap list_fmap snd]. constructor; [eauto|].
  destruct (matched x) as [|c0 m0] eqn:Em, (rest x) as [|c1 s1] eqn:Er; cbn in Hlen.
  - constructor.
  - rewrite shift_snd. apply (IH (String.length s1)); [lia | reflexivity].
  - apply (IH 0%nat); [lia | reflexivity].
  - apply (IH (String.length (String c1 s1))); [cbn; lia | reflexivity].
Qed.

Lemma substitute_ext (f g : result -> string) (found : list (string * result) * string) :
  Forall (fun x => f x = g x) (snd <$> found.1) ->
  substitute f found = substitute g found.
Proof.
  destruct found as [found tail]. unfold substitute. cbn [fst snd]. intros H.
  f_equal. induction found as [|[gap x] more IH]; [reflexivity|].
  cbn in H. apply Forall_cons in H as [Hx H]. cbn. rewrite Hx, (IH H). reflexivity.
Qed.

Lemma head_matches_imageUrl s x :
  head (matches true imageUrl s) = Some x ->
  s = matched x +:+ rest x /\ isImageUrl (matched x) /\ group 1 x = matched x.
Proof.
  intros H. pose proof (head_Some_elem_of _ _ H) as Hin.
  assert ((matched x, rest x) ∈ spans true imageUrl s) as Hsp.
  { apply list_elem_of_fmap. exists x. auto. }
  apply elem_of_spans_imageUrl in Hsp as [Hs Hu]. repeat split; auto.
  rewrite imageUrl_eq in Hin. cbn [matches] in Hin.
  apply list_elem_of_fmap in Hin as (y & -> & _). unfold group. cbn.
  reflexivity.
Qed.

Lemma isImageUrl_nonempty u : isImageUrl u -> u <> "".
Proof.
  intros (scheme & body & ext & -> & [H | H] & _);
    apply sameWord_cons_r in H as (a & m' & -> & _); discriminate.
Qed.

Lemma isImageUrl_notSpace u : isImageUrl u -> every notSpace u = true.
Proof.
  intros (scheme & body & ext & -> & Hscheme & _ & Hall & e & He & Hext).
  rewrite !every_app, Hall, (sameWord_space _ _ Hext).
  assert (every notSpace scheme = true) as ->
    by (destruct Hscheme as [H | H]; rewrite (sameWord_space _ _ H); reflexivity).
  unfold imageExtensions in He. set_unfold in He.
  destruct He as [-> | [-> | [-> | [-> | []]]]]; reflexivity.
Qed.

(** The pass written with the matches themselves. *)
Lemma formatTextWithImages_markup text :
  formatTextWithImages text = substitute markup (segments true imageUrl text).
Proof.
  unfold formatTextWithImages, replace. apply substitute_ext.
  eapply Forall_impl; [apply (segments_Forall true imageUrl (fun x => group 1 x = matched x))|].
  - intros s x H. apply head_matches_imageUrl in H. tauto.
  - cbn. intros x Hx. unfold imageMarkup, markup. rewrite Hx. reflexivity.
Qed.

Lemma occurrences_from_split done found tail pre u post :
  (pre, u, post) ∈ occurrences_from done found tail ->
  done +:+ substitute matched (found, tail) = pre +:+ u +:+ post
  /\ u ∈ (matched <$> (snd <$> found)).
Proof.
  revert done. induction found as [|[gap x] more IH]; intros done H; cbn in H.
  - inversion H.
  - apply elem_of_cons in H as [[= -> -> ->] | H].
    + rewrite substitute_cons, !str_app_assoc. split; [reflexivity|]. cbn. left.
    + apply IH in H as [H Hu]. split; [|cbn; right; exact Hu].
      rewrite substitute_cons, <- H, !str_app_assoc. reflexivity.
Qed.

End Rewriting.

Section BareUrls.

Import RegExp ChatResponseView.
Implicit Types (s m u pre post done tail k : string) (x : result).

Lemma endsBlank_app pre k : k <> "" -> endsBlank (pre +:+ k) = endsBlank k.
Proof.
  intros Hk. induction pre as [|c pre IH]; [reflexivity|].
  rewrite str_app_cons. cbn [endsBlank]. rewrite IH.
  destruct (pre +:+ k) eqn:E; [|reflexivity].
  apply str_app_eq_nil in E as [_ ->]. congruence.
Qed.

Lemma endsBlank_space k :
  k <> "" -> endsBlank k = true -> every notSpace k = false.
Proof.
  induction k as [|c k IH]; intros Hk H; [congruence|].
  destruct k as [|c' k].
  - cbn in *. unfold notSpace. rewrite H. reflexivity.
  - change (every notSpace (String c (String c' k)))
      with (notSpace c && every notSpace (String c' k)).
    rewrite IH; [apply andb_false_r | discriminate | exact H].
Qed.

(** A match cannot run over white space: it ends before the blank end of
    [k], and what is left of [k] still ends blank. *)
Lemma match_stops_before_blank k m s s' :
  k <> "" -> endsBlank k = true -> every notSpace m = true ->
  m +:+ s' = k +:+ s ->
  exists k', k = m +:+ k' /\ s' = k' +:+ s /\ k' <> "" /\ endsBlank k' = true.
Proof.
  intros Hk Hblank Hm Heq.
  apply str_app_eq_inv in Heq as [(k' & -> & Hs) | (k' & -> & Hs)].
  - rewrite every_app, (endsBlank_space _ Hk Hblank) in Hm. discriminate.
  - destruct k' as [|c k'].
    + rewrite str_app_nil_r in Hblank, Hk.
      rewrite (endsBlank_space _ Hk Hblank) in Hm. discriminate.
    + exists (String c k'). rewrite endsBlank_app in Hblank by discriminate.
      repeat split; auto.
Qed.

(** Every image URL that stands between white space (or the ends of the
    text) is found by the search, as a match of its own. *)
Lemma bare_url_found (n : nat) :
  forall pre done u post,
    String.length pre = n ->
    isImageUrl u -> endsBlank pre = true -> startsBlank post = true ->
    (done +:+ pre, u, post)
      ∈ occurrences_from done (segments true imageUrl (pre +:+ u +:+ post)).1
          (segments true imageUrl (pre +:+ u +:+ post)).2.
Proof.
  induction n as [n IH] using lt_wf_ind.
  intros pre done u post Hn Hu Hpre Hpost.
  pose proof (head_spans_imageUrl u post Hu Hpost) as Hhead.
  rewrite head_spans in Hhead.
  destruct (head (matches true imageUrl (u +:+ post))) as [x0|] eqn:Hx0; [|discriminate].
  injection Hhead as Hm0 Hr0.
  destruct (exec true imageUrl (pre +:+ u +:+ post)) as [[gap x]|] eqn:E.
  2:{ pose proof (exec_None _ _ _ E pre (u +:+ post) eq_refl) as Hnone.
      rewrite Hnone in Hx0. discriminate. }
  pose proof (exec_Some _ _ _ _ _ E) as (s2 & Hs & Hhd & Hno).
  pose proof (head_matches_imageUrl _ _ Hhd) as (Hs2 & Hx & _).
  rewrite (segments_step _ _ _ _ _ E (isImageUrl_nonempty _ Hx)). cbn [fst snd occurrences_from].
  assert (gap = pre /\ s2 = u +:+ post \/
          exists k, k <> "" /\ pre = gap +:+ k /\ s2 = k +:+ u +:+ post) as [[-> ->] | Hk].
  { symmetry in Hs. apply str_app_eq_inv in Hs as [(k & -> & Hk) | (k & -> & Hk)].
    - destruct k as [|c k]; [rewrite str_app_nil_r; auto|].
      exfalso. rewrite Hk, (Hno pre (String c k) eq_refl) in Hx0 by discriminate.
      discriminate.
    - destruct k as [|c k]; [rewrite str_app_nil_r; auto|].
      right. exists (String c k). repeat split; auto; discriminate. }
  - rewrite Hx0 in Hhd. injection Hhd as <-.
    rewrite Hm0, Hr0, <- surjective_pairing, segments_original. left.
  - destruct Hk as (k & Hk & -> & ->).
    rewrite endsBlank_app in Hpre by exact Hk.
    symmetry in Hs2.
    destruct (match_stops_before_blank k (matched x) (u +:+ post) (rest x)
                Hk Hpre (isImageUrl_notSpace _ Hx) Hs2)
      as (k' & -> & Hrest & Hk' & Hblank).
    right. rewrite Hrest.
    replace (done +:+ gap +:+ matched x +:+ k')
      with ((done +:+ gap +:+ matched x) +:+ k') by (rewrite !str_app_assoc; reflexivity).
    apply (IH (String.length k')); auto.
    rewrite <- Hn, !str_length_app.
    pose proof (isImageUrl_nonempty _ Hx). destruct (matched x); [congruence | cbn; lia].
Qed.

(** A text in which no image URL occurs comes out as it went in. *)
Lemma no_url_unchanged text :
  (forall pre u post, text = pre +:+ u +:+ post -> ~ isImageUrl u) ->
  formatTextWithImages text = text.
Proof.
  intros Hnone. rewrite formatTextWithImages_markup, segments_unfold.
  destruct (exec true imageUrl text) as [[gap x]|] eqn:E; [|reflexivity].
  apply exec_Some in E as (s2 & -> & Hhd & _).
  apply head_matches_imageUrl in Hhd as (-> & Hx & _).
  destruct (Hnone gap (matched x) (rest x) eq_refl Hx).
Qed.

End BareUrls.

(** ** Bold markers in table cells *)

Section BoldMarkers.

Import RegExp Formatter.
Implicit Types (s m t pre post : string) (x : result).

Lemma sameWord_exact m w : sameWord false m w = true -> m = w.
Proof.
  revert w. induction m as [|a m IH]; intros [|y w] H; try discriminate; [reflexivity|].
  cbn in H. apply andb_true_iff in H as [Ha H].
  apply Ascii.eqb_eq in Ha as ->. rewrite (IH _ H). reflexivity.
Qed.

Lemma sameWord_refl w : sameWord false w w = true.
Proof. induction w as [|y w IH]; [reflexivity|]. cbn. rewrite Ascii.eqb_refl. exact IH. Qed.

Lemma matches_Str_groups ignoreCase w s x :
  x ∈ matches ignoreCase (Str w) s -> groups x = [].
Proof.
  revert s x. induction w as [|y w IH]; intros s x H.
  - destruct s; cbn in H; apply list_elem_of_singleton in H as ->; reflexivity.
  - destruct w as [|y' w].
    + cbn in H. destruct s as [|a s]; [inversion H|].
      destruct (chr_eq ignoreCase a y); [|inversion H].
      apply list_elem_of_singleton in H as ->. reflexivity.
    + change (Str (String y (String y' w))) with (Seq (Chr y) (Str (String y' w))) in H.
      cbn [matches] in H.
      apply list_elem_of_bind in H as (x1 & H & H1).
      apply list_elem_of_bind in H as (x2 & H & H2).
      apply list_elem_of_singleton in H as ->. cbn.
      rewrite (IH _ _ H2).
      destruct s as [|a s]; [inversion H1|].
      destruct (chr_eq ignoreCase a y); [|inversion H1].
      apply list_elem_of_singleton in H1 as ->. reflexivity.
Qed.

(** A match of the marker is two stars, the group, two stars. *)
Lemma boldMarker_shape s x :
  x ∈ matches false boldMarker s -> matched x = "**" +:+ group 1 x +:+ "**".
Proof.
  unfold boldMarker. cbn [matches]. intros H.
  apply list_elem_of_bind in H as (xa & H & Ha).
  apply list_elem_of_bind in H as (xgb & H & Hgb).
  apply list_elem_of_singleton in H as ->.
  apply list_elem_of_bind in Hgb as (xg & H & Hg).
  apply list_elem_of_bind in H as (xb & H & Hb).
  apply list_elem_of_singleton in H as ->.
  apply list_elem_of_fmap in Hg as (y & -> & _).
  rewrite (matches_Str_groups _ _ _ _ Ha), (matches_Str_groups _ _ _ _ Hb).
  assert (matched xa = "**") as ->.
  { assert ((matched xa, rest xa) ∈ spans false (Str "**") s) as Hsp
      by (apply list_elem_of_fmap; exists xa; auto).
    apply elem_of_spans_Str in Hsp as [_ Hsp]; [|discriminate].
    apply sameWord_exact, Hsp. }
  assert (matched xb = "**") as ->.
  { cbn [rest] in Hb.
    assert ((matched xb, rest xb) ∈ spans false (Str "**") (rest y)) as Hsp
      by (apply list_elem_of_fmap; exists xb; auto).
    apply elem_of_spans_Str in Hsp as [_ Hsp]; [|discriminate].
    apply sameWord_exact, Hsp. }
  reflexivity.
Qed.

Lemma spans_boldMarker s :
  spans false boldMarker s
  = a ← option_list (takeWord false "**" s);
    chain a <$> spans false (Seq (StarLazy dot) (Str "**")) a.2.
Proof.
  unfold boldMarker. rewrite spans_Seq, spans_Str by discriminate.
  apply list_bind_ext; [|reflexivity]. intros a. f_equal.
  rewrite !spans_Seq, spans_Group. reflexivity.
Qed.

Lemma matches_boldMarker_other c s :
  notStar c = true -> matches false boldMarker (String c s) = [].
Proof.
  intros H. apply spans_nil. rewrite spans_boldMarker. cbn [takeWord].
  unfold notStar in H. apply negb_true_iff in H. cbn [chr_eq]. rewrite H. reflexivity.
Qed.

(** The lazy run stops at the first pair of stars. *)
Lemma head_spans_lazy_run t post :
  every notStar t = true -> every dot t = true ->
  head (spans false (Seq (StarLazy dot) (Str "**")) (t +:+ "**" +:+ post))
  = Some (t +:+ "**", post).
Proof.
  intros Hstar Hdot. induction t as [|c t IH].
  - rewrite str_app_nil_l, spans_StarLazy_then, spans_Str by discriminate.
    rewrite (takeWord_app false "**" "**" post eq_refl). reflexivity.
  - cbn in Hstar, Hdot.
    apply andb_true_iff in Hstar as [Hc Hstar]. apply andb_true_iff in Hdot as [Hd Hdot].
    rewrite str_app_cons, spans_StarLazy_then, spans_Str, Hd by discriminate.
    cbn [takeWord]. unfold notStar in Hc. apply negb_true_iff in Hc.
    cbn [chr_eq]. rewrite Hc. change (option_list None ++ ?l) with l.
    specialize (IH Hstar Hdot).
    destruct (spans false (Seq (StarLazy dot) (Str "**")) (t +:+ "**" +:+ post));
      [discriminate|].
    injection IH as ->. reflexivity.
Qed.

Lemma head_matches_boldMarker t post :
  every notStar t = true -> every dot t = true ->
  exists x,
    head (matches false boldMarker ("**" +:+ t +:+ "**" +:+ post)) = Some x /\
    matched x = "**" +:+ t +:+ "**" /\ rest x = post /\ group 1 x = t.
Proof.
  intros Hstar Hdot.
  assert (head (spans false boldMarker ("**" +:+ t +:+ "**" +:+ post))
          = Some ("**" +:+ t +:+ "**", post)) as Hsp.
  { rewrite spans_boldMarker, (takeWord_app false "**" "**" _ eq_refl).
    rewrite option_list_Some, bind_singleton. cbn [snd].
    pose proof (head_spans_lazy_run t post Hstar Hdot) as Hrun.
    destruct (spans false (Seq (StarLazy dot) (Str "**")) (t +:+ "**" +:+ post));
      [discriminate|].
    injection Hrun as ->. reflexivity. }
  rewrite head_spans in Hsp.
  destruct (head (matches false boldMarker ("**" +:+ t +:+ "**" +:+ post)))
    as [x|] eqn:Hx; [|discriminate].
  injection Hsp as Hm Hr. exists x. repeat split; auto.
  pose proof (boldMarker_shape _ _ (head_Some_elem_of _ _ Hx)) as Hshape.
  rewrite Hm in Hshape. injection Hshape as Hshape.
  symmetry. eapply str_app_cancel_r, Hshape.
Qed.

(** The search skips text in which no match starts. *)
Lemma exec_skip ignoreCase r pre s x :
  (forall g1 g2, pre = g1 +:+ g2 -> g2 <> "" -> matches ignoreCase r (g2 +:+ s) = []) ->
  head (matches ignoreCase r s) = Some x ->
  exec ignoreCase r (pre +:+ s) = Some (pre, x).
Proof.
  intros Hno Hhd. induction pre as [|c pre IH].
  - rewrite str_app_nil_l. destruct s as [|a s]; cbn;
      destruct (matches ignoreCase r _); try discriminate; injection Hhd as ->; reflexivity.
  - rewrite str_app_cons. cbn [exec].
    rewrite <- str_app_cons, (Hno "" (String c pre) eq_refl) by discriminate.
    rewrite IH; [reflexivity|].
    intros g1 g2 -> Hg2. apply (Hno (String c g1) g2); auto.
Qed.

Lemma exec_boldMarker pre t post :
  every notStar pre = true -> every notStar t = true -> every dot t = true ->
  exists x,
    exec false boldMarker (pre +:+ "**" +:+ t +:+ "**" +:+ post) = Some (pre, x) /\
    matched x = "**" +:+ t +:+ "**" /\ rest x = post /\ group 1 x = t.
Proof.
  intros Hpre Hstar Hdot.
  destruct (head_matches_boldMarker t post Hstar Hdot) as (x & Hhd & Hx).
  exists x. split; [|exact Hx]. apply exec_skip; [|exact Hhd].
  intros g1 g2 -> Hg2. rewrite every_app in Hpre. apply andb_true_iff in Hpre as [_ Hg].
  destruct g2 as [|c g2]; [congruence|]. cbn in Hg. apply andb_true_iff in Hg as [Hc _].
  rewrite str_app_cons. apply matches_boldMarker_other, Hc.
Qed.

(** A marker whose text has no star and no line break, after text with no
    star, is replaced by its text; the rest of the cell is treated the
    same way. *)
Lemma cellText_strips_marker cell pre t post :
  JsString.trim cell = pre +:+ "**" +:+ t +:+ "**" +:+ post ->
  every notStar pre = true -> every notStar t = true -> every dot t = true ->
  cellText cell = pre +:+ t +:+ replace false boldMarker (group 1) post.
Proof.
  intros Hcell Hpre Hstar Hdot. unfold cellText, replace. rewrite Hcell.
  destruct (exec_boldMarker pre t post Hpre Hstar Hdot) as (x & E & Hm & Hr & Hg).
  rewrite (segments_step _ _ _ _ _ E) by (rewrite Hm; discriminate).
  rewrite substitute_cons, <- surjective_pairing, Hg, Hr. reflexivity.
Qed.

End BoldMarkers.

(** ** No marker is left in a cell *)

Section NoMarkerLeft.

Import RegExp Formatter.
Implicit Types (s m t u g pre post : string) (x : result).

Lemma takeWord_stars s :
  takeWord false "**" s
  = match s with
    | String "*" (String "*" u) => Some ("**", u)
    | _ => None
    end.
Proof.
  destruct s as [|c [|d u]]; cbn [takeWord chr_eq].
  - reflexivity.
  - destruct (Ascii.eqb_spec c "*") as [->|Hc]; [reflexivity|].
    destruct c as [[] [] [] [] [] [] [] []]; try reflexivity; congruence.
  - destruct (Ascii.eqb_spec c "*") as [->|Hc].
    + destruct (Ascii.eqb_spec d "*") as [->|Hd]; [reflexivity|].
      destruct d as [[] [] [] [] [] [] [] []]; try reflexivity; congruence.
    + destruct c as [[] [] [] [] [] [] [] []]; try reflexivity; congruence.
Qed.

Lemma spans_lazyRun s :
  spans false lazyRun s
  = option_list (takeWord false "**" s) ++
    match s with
    | String c s' => if dot c then consume c <$> spans false lazyRun s' else []
    | EmptyString => []
    end.
Proof. unfold lazyRun. rewrite spans_StarLazy_then, spans_Str by discriminate. reflexivity. Qed.

Lemma spans_boldMarker_lazyRun s :
  spans false boldMarker s
  = match s with
    | String "*" (String "*" u) => RegExp.consume "*" <$> (RegExp.consume "*" <$> spans false lazyRun u)
    | _ => []
    end.
Proof.
  rewrite spans_boldMarker, takeWord_stars.
  destruct s as [|c [|d u]]; try reflexivity.
  - destruct c as [[] [] [] [] [] [] [] []]; reflexivity.
  - destruct c as [[] [] [] [] [] [] [] []]; try reflexivity.
    destruct d as [[] [] [] [] [] [] [] []]; try reflexivity.
    rewrite option_list_Some, bind_singleton. cbn [snd].
    rewrite <- list_fmap_compose. apply list_fmap_ext. intros _ [] _. reflexivity.
Qed.

(** A run of characters of one line up to a pair of stars is a match of
    the lazy run, if not the first. *)
Lemma elem_of_spans_lazyRun t post :
  every dot t = true ->
  (t +:+ "**", post) ∈ spans false lazyRun (t +:+ "**" +:+ post).
Proof.
  intros Hdot. induction t as [|c t IH].
  - rewrite str_app_nil_l, spans_lazyRun, takeWord_stars.
    apply elem_of_app. left. apply list_elem_of_singleton. reflexivity.
  - cbn in Hdot. apply andb_true_iff in Hdot as [Hc Hdot].
    rewrite !(str_app_cons c t), spans_lazyRun, Hc. apply elem_of_app. right.
    apply list_elem_of_fmap. exists (t +:+ "**", post). split; [reflexivity|auto].
Qed.

(** Where no pair of stars can be reached before the text [a] ends, none
    can whatever follows [a] in place of a pair of stars. *)
Lemma lazyRun_blocked a b c :
  spans false lazyRun (a +:+ "**" +:+ b) = [] ->
  spans false lazyRun (a +:+ c) = [].
Proof.
  induction a as [|y a IH].
  - rewrite str_app_nil_l, spans_lazyRun, takeWord_stars. discriminate.
  - rewrite !(str_app_cons y a).
    rewrite (spans_lazyRun (String y (a +:+ "**" +:+ b))).
    rewrite (spans_lazyRun (String y (a +:+ c))), !takeWord_stars.
    intros [H1 H2]%app_eq_nil.
    apply app_nil. split.
    + destruct y as [[] [] [] [] [] [] [] []]; try reflexivity.
      destruct a as [|z a]; [discriminate|].
      rewrite (str_app_cons z a) in *.
      destruct z as [[] [] [] [] [] [] [] []]; try reflexivity. discriminate.
    + destruct (dot y); [|reflexivity].
      apply fmap_nil_inv in H2. rewrite (IH H2). reflexivity.
Qed.

(** The lazy run stops at the first pair of stars: its first match ends
    in one and no pair of stars starts inside it. *)
Lemma head_spans_lazyRun_inv u m post :
  head (spans false lazyRun u) = Some (m, post) ->
  exists g,
    m = g +:+ "**" /\ every dot g = true /\
    (forall g0 g', g = g0 +:+ g' -> g' <> "" ->
       takeWord false "**" (g' +:+ "**" +:+ post) = None).
Proof.
  revert m. induction u as [|c u IH]; intros m; rewrite spans_lazyRun.
  - rewrite takeWord_stars. discriminate.
  - destruct (takeWord false "**" (String c u)) as [[w u']|] eqn:Ew.
    + rewrite takeWord_stars in Ew.
      destruct c as [[] [] [] [] [] [] [] []]; try discriminate.
      destruct u as [|d u]; [discriminate|].
      destruct d as [[] [] [] [] [] [] [] []]; try discriminate.
      injection Ew as <- <-. intros [= <- <-]. exists "". repeat split.
      intros g0 g' Hg. symmetry in Hg. apply str_app_eq_nil in Hg as [_ ->]. congruence.
    + change (option_list None ++ ?l) with l.
      destruct (dot c) eqn:Hc; [|discriminate].
      destruct (spans false lazyRun u) as [|[m' p'] l] eqn:E; [discriminate|].
      intros [= <- <-].
      assert (u = m' +:+ p') as Hu.
      { apply (elem_of_spans false lazyRun). rewrite E. left. }
      destruct (IH m' eq_refl) as (g & -> & Hdot & Hfirst).
      exists (String c g). repeat split.
      * cbn. rewrite Hc. exact Hdot.
      * intros g0 g' Hg Hne. destruct g0 as [|c0 g0].
        -- rewrite str_app_nil_l in Hg. subst g'.
           rewrite str_app_cons, <- str_app_assoc, <- Hu. exact Ew.
        -- rewrite str_app_cons in Hg. injection Hg as _ Hg. eauto.
Qed.

Lemma matches_boldMarker_stars u :
  matches false boldMarker ("**" +:+ u) = [] <-> spans false lazyRun u = [].
Proof.
  rewrite <- spans_nil, spans_boldMarker_lazyRun.
  change ("**" +:+ u) with (String "*" (String "*" u)). cbv iota beta.
  split.
  - intros H. apply fmap_nil_inv in H. apply fmap_nil_inv in H. exact H.
  - intros ->. reflexivity.
Qed.

Lemma matches_boldMarker_no_stars s :
  takeWord false "**" s = None -> matches false boldMarker s = [].
Proof.
  intros H. apply spans_nil. rewrite spans_boldMarker, H. reflexivity.
Qed.

(** A text is empty, one star, starts with two stars, or no pair of
    stars starts it whatever follows. *)
Lemma stars_cases a :
  a = "" \/ a = "*" \/ (exists a', a = "**" +:+ a') \/
  (forall b, takeWord false "**" (a +:+ b) = None).
Proof.
  destruct a as [|c [|d a]]; [auto| |].
  - destruct (Ascii.eqb_spec c "*") as [->|Hc]; [auto|].
    do 3 right. intros b. rewrite str_app_cons, takeWord_stars.
    destruct c as [[] [] [] [] [] [] [] []]; try reflexivity; congruence.
  - destruct (Ascii.eqb_spec c "*") as [->|Hc].
    + destruct (Ascii.eqb_spec d "*") as [->|Hd].
      * right. right. left. exists a. reflexivity.
      * do 3 right. intros b. rewrite !str_app_cons, takeWord_stars.
        destruct d as [[] [] [] [] [] [] [] []]; try reflexivity; congruence.
    + do 3 right. intros b. rewrite !str_app_cons, takeWord_stars.
      destruct c as [[] [] [] [] [] [] [] []]; try reflexivity; congruence.
Qed.

Lemma exec_None_app ignoreCase r a b :
  (forall a1 a2, a = a1 +:+ a2 -> a2 <> "" -> matches ignoreCase r (a2 +:+ b) = []) ->
  exec ignoreCase r b = None ->
  exec ignoreCase r (a +:+ b) = None.
Proof.
  intros Hno Hb. induction a as [|c a IH]; [exact Hb|].
  rewrite str_app_cons. cbn [exec].
  rewrite <- str_app_cons, (Hno "" (String c a) eq_refl) by discriminate.
  rewrite IH; [reflexivity|].
  intros a1 a2 -> Ha2. apply (Hno (String c a1) a2); auto.
Qed.

(** The first match of the marker: its group is on one line and no pair
    of stars starts inside it. *)
Lemma head_matches_boldMarker_inv s x :
  head (matches false boldMarker s) = Some x ->
  exists g post,
    s = "**" +:+ g +:+ "**" +:+ post /\
    matched x = "**" +:+ g +:+ "**" /\ rest x = post /\ group 1 x = g /\
    every dot g = true /\
    (forall g0 g', g = g0 +:+ g' -> g' <> "" ->
       takeWord false "**" (g' +:+ "**" +:+ post) = None).
Proof.
  intros Hx.
  pose proof (boldMarker_shape _ _ (head_Some_elem_of _ _ Hx)) as Hshape.
  pose proof (matches_sound _ _ _ _ (head_Some_elem_of _ _ Hx)) as Hs.
  assert (head (spans false boldMarker s) = Some (matched x, rest x)) as Hsp
    by (rewrite head_spans, Hx; reflexivity).
  rewrite spans_boldMarker_lazyRun in Hsp.
  destruct s as [|c [|d u]]; try discriminate.
  { destruct c as [[] [] [] [] [] [] [] []]; discriminate. }
  destruct c as [[] [] [] [] [] [] [] []]; try discriminate.
  destruct d as [[] [] [] [] [] [] [] []]; try discriminate.
  destruct (spans false lazyRun u) as [|[m p] l] eqn:E; [discriminate|].
  injection Hsp as Hm Hr.
  destruct (head_spans_lazyRun_inv u m p) as (g & -> & Hdot & Hfirst);
    [rewrite E; reflexivity|].
  assert (group 1 x = g) as Hg.
  { rewrite <- Hm in Hshape. injection Hshape as Hshape.
    symmetry. eapply str_app_cancel_r, Hshape. }
  exists g, p. rewrite Hs, <- Hm, <- Hr. repeat split; auto.
  rewrite !str_app_cons, !str_app_assoc. reflexivity.
Qed.

(** After the replacement the pattern matches nowhere. *)
Lemma replace_leaves_no_marker s :
  exec false boldMarker (replace false boldMarker (group 1) s) = None.
Proof.
  remember (String.length s) as n eqn:Hn. revert s Hn.
  induction n as [n IH] using lt_wf_ind; intros s ->.
  unfold replace.
  destruct (exec false boldMarker s) as [[gap x]|] eqn:E.
  - pose proof (exec_shorter _ _ _ _ _ E) as Hlen.
    pose proof E as E'.
    apply exec_Some in E' as (s2 & -> & Hhd & Hno).
    destruct (head_matches_boldMarker_inv _ _ Hhd)
      as (g & post & -> & Hm & Hr & Hg & Hdot & Hfirst).
    rewrite (segments_step _ _ _ _ _ E) by (rewrite Hm; discriminate).
    rewrite substitute_cons, <- surjective_pairing, Hg, Hr.
    change (substitute (group 1) (segments false boldMarker post))
      with (replace false boldMarker (group 1) post).
    assert (exec false boldMarker (replace false boldMarker (group 1) post) = None)
      as Hpost.
    { apply (IH (String.length post)); [|reflexivity].
      rewrite Hm, Hr, !str_length_app in Hlen. rewrite !str_length_app. cbn in *. lia. }
    apply exec_None_app; [|apply exec_None_app; [|exact Hpost]].
    + intros a1 a2 -> Ha2. specialize (Hno a1 a2 eq_refl Ha2).
      destruct (stars_cases a2) as [-> | [-> | [[a' ->] | Hother]]].
      * congruence.
      * change ("*" +:+ "**" +:+ g +:+ "**" +:+ post)
          with ("**" +:+ (String "*" g) +:+ "**" +:+ post) in Hno.
        apply matches_boldMarker_stars in Hno.
        pose proof (elem_of_spans_lazyRun (String "*" g) post) as Hin.
        rewrite Hno in Hin. cbn in Hin. specialize (Hin Hdot). inversion Hin.
      * rewrite str_app_assoc in Hno |- *.
        apply matches_boldMarker_stars. apply matches_boldMarker_stars in Hno.
        eapply lazyRun_blocked, Hno.
      * apply matches_boldMarker_no_stars, Hother.
    + intros g0 g' -> Hg'. specialize (Hfirst g0 g' eq_refl Hg').
      destruct (stars_cases g') as [-> | [-> | [[a' ->] | Hother]]].
      * congruence.
      * rewrite takeWord_stars in Hfirst. discriminate.
      * rewrite str_app_assoc, takeWord_stars in Hfirst. discriminate.
      * apply matches_boldMarker_no_stars, Hother.
  - rewrite segments_unfold, E. exact E.
Qed.

(** A text in which the pattern matches nowhere holds no marker. *)
Lemma exec_None_no_marker s :
  exec false boldMarker s = None ->
  forall a t b, every dot t = true -> s <> a +:+ "**" +:+ t +:+ "**" +:+ b.
Proof.
  intros E a t b Hdot ->.
  pose proof (exec_None _ _ _ E a _ eq_refl) as Hno.
  apply matches_boldMarker_stars in Hno.
  pose proof (elem_of_spans_lazyRun t b Hdot) as Hin.
  rewrite Hno in Hin. inversion Hin.
Qed.

End NoMarkerLeft.

(** ** The claims about the formatters *)

(** C8, as stated, fails for a URL that is not bare: inside image markup
    the URL is preceded by an opening parenthesis and followed by the
    closing one, and the pass rewrites it all the same, putting markup
    inside markup. *)
Lemma linked_image_is_rewritten_again :
  ChatResponseView.formatTextWithImages "![alt](http://a/b.png)"
    = "![alt](![](http://a/b.png))"
  /\ rewritten "![alt](http://a/b.png)" = [("![alt](", "http://a/b.png", ")")]
  /\ endsBlank "![alt](" = false
  /\ startsBlank ")" = false.
Proof. repeat split; vm_compute; reflexivity. Qed.

(** The pattern is greedy: two URLs with no white space between them are
    rewritten as one. *)
Lemma adjacent_urls_are_rewritten_as_one :
  ChatResponseView.formatTextWithImages "http://a/x.png,http://a/y.png"
  = "![](http://a/x.png,http://a/y.png)".
Proof. vm_compute. reflexivity. Qed.

(** C8, amended.  The pass is applied to the whole text and rewrites the
    matches of a left-to-right search for the image pattern, each to
    [![](match)], leaving the text between matches as it is.  Every
    substring it rewrites is an http(s) URL ending in an image extension
    (letters in any case), bare or not; every such URL that stands
    between white space or the ends of the text is rewritten, as a whole;
    and a text in which no such URL occurs is unchanged. *)
Theorem image_urls_are_rewritten (text : string) :
  ChatResponseView.formatTextWithImages text
    = RegExp.substitute markup (RegExp.segments true ChatResponseView.imageUrl text)
  /\ text
     = RegExp.substitute RegExp.matched
         (RegExp.segments true ChatResponseView.imageUrl text)
  /\ (forall pre u post,
        (pre, u, post) ∈ rewritten text ->
        text = pre +:+ u +:+ post /\ isImageUrl u)
  /\ (forall pre u post,
        text = pre +:+ u +:+ post -> isImageUrl u ->
        endsBlank pre = true -> startsBlank post = true ->
        (pre, u, post) ∈ rewritten text)
  /\ ((forall pre u post, text = pre +:+ u +:+ post -> ~ isImageUrl u) ->
      ChatResponseView.formatTextWithImages text = text).
Proof.
  split; [apply formatTextWithImages_markup|].
  split; [symmetry; apply segments_original|].
  split; [|split].
  - intros pre u post H. unfold rewritten in H.
    apply occurrences_from_split in H as [H Hu].
    rewrite str_app_nil_l, <- surjective_pairing, segments_original in H.
    split; [exact H|].
    apply list_elem_of_fmap in Hu as (x & -> & Hx).
    pose proof (segments_Forall true ChatResponseView.imageUrl
                  (fun x => isImageUrl (RegExp.matched x))
                  (fun s y Hy => proj1 (proj2 (head_matches_imageUrl s y Hy))) text) as HF.
    rewrite Forall_forall in HF. apply (HF x Hx).
  - intros pre u post -> Hu Hpre Hpost. unfold rewritten.
    apply (bare_url_found (String.length pre) pre "" u post eq_refl Hu Hpre Hpost).
  - apply no_url_unchanged.
Qed.

(** The URL of the specification's case, between spaces. *)
Lemma bare_url_example :
  ChatResponseView.formatTextWithImages "see https://cdn.travela.world/Pic.JPG now"
  = "see ![](https://cdn.travela.world/Pic.JPG) now".
Proof. vm_compute. reflexivity. Qed.

(** C9.  The line [Name | Alice | 30] becomes a single table row with
    the three cells [Name], [Alice], [30], trimmed, the first in the
    label style.  In a row every cell is the plain text [cellText] makes
    of it, the first cell alone in the label style, and [cellText]
    replaces a bold marker by the text between its stars: a marker whose
    text has no star and no line break, after text with no star, is
    replaced by its text, and the rest of the cell is treated the same
    way.  No marker is left in a cell: its text never holds two stars,
    text of one line, two stars. *)
Theorem table_row_cells_are_plain_text :
  Formatter.formatMessage "Name | Alice | 30"
    = [Formatter.Row [(Formatter.LabelCell, "Name"); (Formatter.ValueCell, "Alice");
                      (Formatter.ValueCell, "30")]]
  /\ Formatter.formatMessage "Name | **Alice** | 30"
     = [Formatter.Row [(Formatter.LabelCell, "Name"); (Formatter.ValueCell, "Alice");
                       (Formatter.ValueCell, "30")]]
  /\ (forall line cells,
        Formatter.tableRule line = Some (Formatter.Row cells) ->
        cells = imap (fun i cell => (Formatter.cellStyle i, Formatter.cellText cell))
                  (Formatter.tableCells line)
        /\ (forall i style content,
              cells !! i = Some (style, content) ->
              (style = Formatter.LabelCell <-> i = 0%nat)))
  /\ (forall cell pre t post,
        JsString.trim cell = pre +:+ "**" +:+ t +:+ "**" +:+ post ->
        every notStar pre = true -> every notStar t = true ->
        every Formatter.dot t = true ->
        Formatter.cellText cell
        = pre +:+ t +:+ RegExp.replace false Formatter.boldMarker (RegExp.group 1) post)
  /\ (forall cell a t b,
        every Formatter.dot t = true ->
        Formatter.cellText cell <> a +:+ "**" +:+ t +:+ "**" +:+ b).
Proof.
  split; [vm_compute; reflexivity|].
  split; [vm_compute; reflexivity|].
  split; [|split].
  - intros line cells H. unfold Formatter.tableRule in H.
    destruct (JsString.includes "|" line); [|discriminate].
    destruct (JsString.includes "---" line); [discriminate|].
    destruct (1 <? length (Formatter.tableCells line))%nat; [|discriminate].
    injection H as <-. split; [reflexivity|].
    intros i style content Hi. rewrite list_lookup_imap in Hi.
    destruct (Formatter.tableCells line !! i); [|discriminate].
    injection Hi as <- _. destruct i; cbn; split; congruence.
  - apply cellText_strips_marker.
  - intros cell. apply exec_None_no_marker, replace_leaves_no_marker.
Qed.

Lemma image_urls_are_rewritten_witness :
  ("see ", "http://a/b.png", " now") ∈ rewritten "see http://a/b.png now"
  /\ ("see http://a/b.png now" = "see " +:+ "http://a/b.png" +:+ " now"
      /\ isImageUrl "http://a/b.png")
  /\ ChatResponseView.formatTextWithImages "" = "".
Proof.
  destruct (image_urls_are_rewritten "see http://a/b.png now")
    as (_ & _ & Hsound & Hbare & _).
  destruct (image_urls_are_rewritten "") as (_ & _ & _ & _ & Hnone).
  split; [|split].
  - apply Hbare; [reflexivity | | reflexivity | reflexivity].
    exists "http", "a/b", ".png". repeat split; [left; reflexivity | discriminate |].
    exists ".png". split; [left | reflexivity].
  - apply Hsound. vm_compute. left.
  - apply Hnone. intros pre u post Heq Hu.
    symmetry in Heq. apply str_app_eq_nil in Heq as [_ Heq].
    apply str_app_eq_nil in Heq as [-> _].
    exact (isImageUrl_nonempty _ Hu eq_refl).
Defined.

Lemma table_row_cells_are_plain_text_witness :
  ([(Formatter.LabelCell, "Name"); (Formatter.ValueCell, "Alice");
    (Formatter.ValueCell, "30")]
   = imap (fun i cell => (Formatter.cellStyle i, Formatter.cellText cell))
       (Formatter.tableCells "Name | Alice | 30")
   /\ (forall i style content,
         [(Formatter.LabelCell, "Name"); (Formatter.ValueCell, "Alice");
          (Formatter.ValueCell, "30")] !! i = Some (style, content) ->
         (style = Formatter.LabelCell <-> i = 0%nat)))
  /\ Formatter.cellText " total: **42** eur "
     = "total: " +:+ "42"
       +:+ RegExp.replace false Formatter.boldMarker (RegExp.group 1) " eur"
  /\ Formatter.cellText " total: **42** eur " <> "total: " +:+ "**" +:+ "42" +:+ "**" +:+ " eur".
Proof.
  destruct table_row_cells_are_plain_text as (_ & _ & Hrow & Hcell & Hclean).
  split; [|split].
  - apply (Hrow "Name | Alice | 30"). vm_compute. reflexivity.
  - apply (Hcell " total: **42** eur " "total: " "42" " eur"); reflexivity.
  - apply (Hclean " total: **42** eur " "total: " "42" " eur"). reflexivity.
Defined.

(** * Further properties *)

(** A history record that parses, but not to an array, is discarded by
    ChatApp like one that does not parse. *)
Lemma ChatApp_discards_other_documents (v : json) (w : World) :
  stored "chatHistory" w = Some (Document v) ->
  (forall entries, v <> JArr entries) ->
  exists w' : World,
    ChatApp.loadEffect w = (Ok tt, w') /\
    react w' = react w /\
    stored "chatHistory" w' = None.
Proof.
  intros Hstored Hv. unfold stored in Hstored. eexists. split.
  - cbv [ChatApp.loadEffect try_catch bind localStorage.getItem]. rewrite Hstored.
    cbn. destruct v; try reflexivity. destruct (Hv items0 eq_refl).
  - cbn. split; [reflexivity|]. unfold stored. cbn. apply lookup_delete_eq.
Qed.

Lemma of_json_to_json (m : Message) :
  MessageJson.of_json (MessageJson.to_json m) = Some m.
Proof. destruct m as [i t [] ts [r|]]; reflexivity. Qed.

Lemma reviveAll_to_json (l : list Message) (w : World) :
  reviveAll (MessageJson.to_json <$> l) w = (Ok l, w).
Proof.
  induction l as [|m l IH]; [reflexivity|].
  rewrite fmap_cons. cbn [reviveAll].
  change (match MessageJson.to_json m with JNull => _ | _ => ?k end) with k.
  rewrite of_json_to_json. unfold bind. rewrite IH. reflexivity.
Qed.

(** Round trip.  What the save effect wrote, the load effect of the next
    start reads back: ChatApp the messages it kept (the last 100),
    SupportChatWidget all of them, each with the same text, sender,
    request identifier, identifier and instant. *)
Theorem history_round_trip (c : Component) (w : World) (now date : Z) :
  messages (react w) <> [] ->
  full (storage w) = false ->
  exists w' : World,
    loadEffect c now date (restart (exec (saveEffect c) w)) = (Ok tt, w') /\
    messages (react w')
    = match c with
      | TheChatApp => ChatApp.messagesToSave (messages (react w))
      | TheSupportChatWidget _ => messages (react w)
      end.
Proof.
  intros Hne Hfull. destruct (messages (react w)) as [|m l] eqn:Hm; [congruence|].
  destruct c as [|sid]; cbn [saveEffect loadEffect]; unfold exec.
  - rewrite ChatApp_saveEffect_eq, Hm, Hfull. cbn [length Nat.ltb Nat.leb andb negb snd].
    eexists. split.
    + cbv [ChatApp.loadEffect try_catch bind localStorage.getItem restart storage items].
      rewrite lookup_insert_eq. cbn [localStorage.truthy when JSON.parse historyDocument ret
        reviveMessages].
      rewrite reviveAll_to_json. reflexivity.
    + reflexivity.
  - rewrite SupportChatWidget_saveEffect_eq, Hm, Hfull.
    cbn [length Nat.ltb Nat.leb andb negb snd].
    unfold SupportChatWidget.loadEffect, bind at 1.
    rewrite getFromLocalStorage_eq. unfold stored at 1, restart at 1.
    cbn [storage items]. rewrite lookup_insert_eq.
    unfold bind at 1. rewrite getFromLocalStorage_eq.
    unfold historyDocument. rewrite fmap_cons.
    unfold bind at 1, bind at 1. rewrite <- fmap_cons, reviveAll_to_json.
    cbn [setMessages setState].
    match goal with
    | |- context [SupportChatWidget.saveToLocalStorage ?k ?d ?w0] =>
        destruct (saveToLocalStorage_keeps_state k d w0) as [st ->]
    end.
    eexists. split; reflexivity.
Qed.

Lemma history_round_trip_witness :
  exists w' : World,
    loadEffect TheChatApp 0 0
      (restart (exec (saveEffect TheChatApp) (Histories.holding (Histories.numbered 3))))
      = (Ok tt, w') /\
    messages (react w') = ChatApp.messagesToSave (Histories.numbered 3).
Proof.
  apply (history_round_trip TheChatApp (Histories.holding (Histories.numbered 3)) 0 0).
  - discriminate.
  - reflexivity.
Defined.

(** A line with a pipe and a run of three dashes is a divider, whatever
    else it holds. *)
Theorem separator_line_is_divider (line : string) :
  JsString.includes "|" line = true ->
  JsString.includes "---" line = true ->
  Formatter.formatLine line = Formatter.Divider.
Proof.
  intros Hpipe Hdash. unfold Formatter.formatLine, Formatter.tableRule.
  rewrite Hpipe, Hdash. reflexivity.
Qed.

Lemma separator_line_is_divider_witness :
  Formatter.formatLine "---|---|---" = Formatter.Divider.
Proof. apply (separator_line_is_divider "---|---|---"); reflexivity. Defined.

(** A line with none of the special tokens is a paragraph of itself. *)
Theorem plain_line_is_verbatim (line : string) :
  JsString.includes "|" line = false ->
  JsString.includes "**" line = false ->
  JsString.startsWith "*" line && JsString.endsWith "*" line = false ->
  JsString.trim line <> "" ->
  Formatter.formatLine line = Formatter.Paragraph line.
Proof.
  intros Hpipe Hbold Hitalic Hblank.
  unfold Formatter.formatLine, Formatter.tableRule, Formatter.textRules.
  rewrite Hpipe, Hbold, Hitalic. cbn [andb].
  destruct (String.eqb_spec (JsString.trim line) ""); [congruence | reflexivity].
Qed.

Lemma plain_line_is_verbatim_witness :
  Formatter.formatLine "Your booking is confirmed."
  = Formatter.Paragraph "Your booking is confirmed.".
Proof.
  apply (plain_line_is_verbatim "Your booking is confirmed."); try reflexivity.
  vm_compute. discriminate.
Defined.

(** ** Sessions *)

Section Sessions.

Implicit Types (c : Component) (e : Env) (w : World) (turns : list (string * Env)).

(** The world after the save effect. *)
Lemma saveEffect_eq c w :
  saveEffect c w =
  (Ok tt,
   if (0 <? length (messages (react w)))%nat && negb (full (storage w)) then
     {| react := react w;
        storage := {| items := <[historyKey c :=
                         historyDocument (kept c (messages (react w)))]>
                         (items (storage w));
                      full := full (storage w) |};
        outbox := outbox w |}
   else w).
Proof.
  destruct c; cbn [saveEffect historyKey kept];
    [apply ChatApp_saveEffect_eq | apply SupportChatWidget_saveEffect_eq].
Qed.

Lemma saveEffect_react c w : react (exec (saveEffect c) w) = react w.
Proof. unfold exec. rewrite saveEffect_eq. destruct (_ && _); reflexivity. Qed.

Lemma saveEffect_outbox c w : outbox (exec (saveEffect c) w) = outbox w.
Proof. unfold exec. rewrite saveEffect_eq. destruct (_ && _); reflexivity. Qed.

Lemma saveEffect_full c w : full (storage (exec (saveEffect c) w)) = full (storage w).
Proof. unfold exec. rewrite saveEffect_eq. destruct (_ && _); reflexivity. Qed.

Lemma saveEffect_other c w k :
  k <> historyKey c -> stored k (exec (saveEffect c) w) = stored k w.
Proof.
  intros Hk. unfold exec, stored. rewrite saveEffect_eq.
  destruct (_ && _); [|reflexivity]. cbn. apply lookup_insert_ne. congruence.
Qed.

Lemma saveEffect_when_full c w :
  full (storage w) = true -> exec (saveEffect c) w = w.
Proof.
  intros H. unfold exec. rewrite saveEffect_eq, H, andb_false_r. reflexivity.
Qed.

Lemma saveEffect_persisted c w :
  full (storage w) = false -> persisted c (exec (saveEffect c) w).
Proof.
  intros H. unfold persisted, exec, stored. rewrite saveEffect_eq, H, andb_true_r.
  destruct (messages (react w)) as [|m l] eqn:E; cbn.
  - left. exact E.
  - right. rewrite E. apply lookup_insert_eq.
Qed.

Lemma exec_bind {A B} (m : M A) (k : A -> M B) (a : A) w w' :
  m w = (Ok a, w') -> bind m k w = k a w'.
Proof. intros H. unfold bind. rewrite H. reflexivity. Qed.

(** A turn in closed form. *)
Lemma turn_eq c typed e w :
  turn c typed e w =
  (Ok tt,
   if ignored (react (typing typed w)) then typing typed w
   else exec (saveEffect c)
          (settled c e typed (exec (saveEffect c) (dispatched c e (typing typed w))))).
Proof.
  unfold turn, bind at 1. cbn [setInputMessage setState].
  fold (typing typed w). unfold bind at 1, getState at 1.
  destruct (ignored (react (typing typed w))) eqn:Hig.
  - rewrite sendMessage_unfold, Hig. reflexivity.
  - unfold bind at 1. rewrite dispatch_eq.
    unfold bind at 1. rewrite saveEffect_eq.
    unfold bind at 1. rewrite settle_eq.
    unfold exec. rewrite !saveEffect_eq. reflexivity.
Qed.

Lemma ignored_typing typed w :
  isLoading (react w) = false -> ignored (react (typing typed w)) = blank typed.
Proof. intros H. unfold ignored, blank. cbn. rewrite H. apply orb_false_r. Qed.

(** What a turn makes of the React state and of the requests sent. *)
Lemma turn_react_outbox c typed e w :
  isLoading (react w) = false ->
  messages (react (exec (turn c typed e) w))
    = messages (react w) ++ exchange c (typed, e)
  /\ outbox (exec (turn c typed e) w)
      = outbox w ++ (if blank typed then [] else [requestOf c e typed])
  /\ isLoading (react (exec (turn c typed e) w)) = false.
Proof.
  intros Hidle. unfold exec at 1 2 3. rewrite turn_eq, (ignored_typing _ _ Hidle).
  unfold exchange. cbn [fst snd].
  destruct (blank typed); cbn [snd].
  - cbn. rewrite !app_nil_r. auto.
  - rewrite saveEffect_react, saveEffect_outbox. cbn [settled react outbox messages
      isLoading]. rewrite saveEffect_react, saveEffect_outbox. cbn.
    rewrite <- app_assoc. auto.
Qed.

End Sessions.

Lemma session_effect (c : Component) (turns : list (string * Env)) (w : World) :
  isLoading (react w) = false ->
  messages (react (session c turns w)) = messages (react w) ++ transcript c turns
  /\ outbox (session c turns w) = outbox w ++ requestsOf c turns
  /\ isLoading (react (session c turns w)) = false.
Proof.
  revert w. induction turns as [|[typed e] turns IH]; intros w Hidle.
  - cbn. rewrite !app_nil_r. auto.
  - cbn [session].
    destruct (turn_react_outbox c typed e w Hidle) as (Hm & Ho & Hl).
    destruct (IH _ Hl) as (IHm & IHo & IHl).
    rewrite IHm, IHo, Hm, Ho. unfold transcript, requestsOf.
    rewrite !bind_cons, <- !app_assoc. auto.
Qed.

(** The transcript of a session.  From a state with no request pending,
    a session appends to the history, for each turn whose input is not
    blank and in the order of the turns, the user message and the reply
    to it, and nothing else; it sends one request for each such turn; and
    it ends with no request pending.  What was in the history stays, in
    place. *)
Theorem session_transcript (c : Component) (turns : list (string * Env)) (w : World) :
  isLoading (react w) = false ->
  messages (react (session c turns w)) = messages (react w) ++ transcript c turns
  /\ outbox (session c turns w) = outbox w ++ requestsOf c turns
  /\ isLoading (react (session c turns w)) = false.
Proof. apply session_effect. Qed.

Lemma session_transcript_witness :
  messages (react (session TheChatApp
                     [("ping", Samples.env Rejected 1000 1500);
                      ("  ", Samples.env Rejected 2000 2500)]
                     (Samples.typed "")))
  = [] ++ transcript TheChatApp
            [("ping", Samples.env Rejected 1000 1500);
             ("  ", Samples.env Rejected 2000 2500)]
  /\ outbox (session TheChatApp
               [("ping", Samples.env Rejected 1000 1500);
                ("  ", Samples.env Rejected 2000 2500)]
               (Samples.typed ""))
     = [] ++ requestsOf TheChatApp
               [("ping", Samples.env Rejected 1000 1500);
                ("  ", Samples.env Rejected 2000 2500)]
  /\ isLoading (react (session TheChatApp
                         [("ping", Samples.env Rejected 1000 1500);
                          ("  ", Samples.env Rejected 2000 2500)]
                         (Samples.typed ""))) = false.
Proof.
  apply (session_transcript TheChatApp
           [("ping", Samples.env Rejected 1000 1500);
            ("  ", Samples.env Rejected 2000 2500)]
           (Samples.typed "")).
  reflexivity.
Defined.

Lemma transcript_pairs (c : Component) (turns : list (string * Env)) (i : nat) (b : Message) :
  transcript c turns !! i = Some b ->
  sender b = bot ->
  exists (j : nat) (u : Message),
    i = S j /\ transcript c turns !! j = Some u /\
    sender u = user /\ requestId u = requestId b.
Proof.
  revert i. induction turns as [|[typed e] turns IH]; intros i Hi Hb.
  - discriminate.
  - unfold transcript in *. rewrite bind_cons in *.
    unfold exchange at 1 in Hi. unfold exchange at 1. cbn [fst snd] in *.
    destruct (blank typed); [exact (IH i Hi Hb)|].
    destruct i as [|[|i]]; cbn in Hi.
    + injection Hi as <-. discriminate.
    + injection Hi as <-. exists 0%nat, (userMessageOf c e typed). auto.
    + destruct (IH i Hi Hb) as (j & u & -> & Hj & Hu).
      exists (S (S j)), u. auto.
Qed.

(** Every reply a session appends comes directly after the user message
    it answers, and carries the request identifier of that message: none
    in ChatApp, the one generated for the call in SupportChatWidget. *)
Theorem reply_follows_its_request (c : Component) (turns : list (string * Env))
    (w : World) (i : nat) (b : Message) :
  isLoading (react w) = false ->
  messages (react (session c turns w)) !! i = Some b ->
  (length (messages (react w)) <= i)%nat ->
  sender b = bot ->
  exists (j : nat) (u : Message),
    i = S j /\ (length (messages (react w)) <= j)%nat /\
    messages (react (session c turns w)) !! j = Some u /\
    sender u = user /\ requestId u = requestId b /\
    match c with
    | TheChatApp => requestId b = None
    | TheSupportChatWidget _ => exists r, requestId b = Some r
    end.
Proof.
  intros Hidle Hi Hlen Hb.
  destruct (session_effect c turns w Hidle) as (Hm & _ & _).
  rewrite Hm in *. rewrite lookup_app_r in Hi by exact Hlen.
  destruct (transcript_pairs c turns _ b Hi Hb) as (j & u & Hij & Hj & Hu & Hr).
  exists (length (messages (react w)) + j)%nat, u.
  repeat split; auto; try lia.
  - rewrite lookup_app_r by lia.
    replace (length (messages (react w)) + j - length (messages (react w)))%nat
      with j by lia. exact Hj.
  - rewrite <- Hr. clear -Hj Hu.
    revert j Hj. induction turns as [|[typed e] turns IH]; intros j Hj; [discriminate|].
    unfold transcript in *. rewrite bind_cons in Hj.
    unfold exchange at 1 in Hj. cbn [fst snd] in Hj.
    destruct (blank typed); [exact (IH j Hj)|].
    destruct j as [|[|j]]; cbn in Hj.
    + injection Hj as <-. destruct c; cbn; eauto.
    + injection Hj as <-. discriminate.
    + exact (IH j Hj).
Qed.

Lemma reply_follows_its_request_witness :
  exists (j : nat) (u : Message),
    1%nat = S j /\
    (length (messages (react (Samples.typed ""))) <= j)%nat /\
    messages (react (session (TheSupportChatWidget (JStr "chat_1_abc"))
                       [("ping", Samples.env Rejected 1000 1500)]
                       (Samples.typed ""))) !! j = Some u /\
    sender u = user /\
    requestId u
    = requestId (botMessageOf (TheSupportChatWidget (JStr "chat_1_abc"))
                   (Samples.env Rejected 1000 1500)) /\
    exists r,
      requestId (botMessageOf (TheSupportChatWidget (JStr "chat_1_abc"))
                   (Samples.env Rejected 1000 1500)) = Some r.
Proof.
  apply (reply_follows_its_request (TheSupportChatWidget (JStr "chat_1_abc"))
           [("ping", Samples.env Rejected 1000 1500)] (Samples.typed "") 1
           (botMessageOf (TheSupportChatWidget (JStr "chat_1_abc"))
              (Samples.env Rejected 1000 1500))).
  - reflexivity.
  - reflexivity.
  - cbn. lia.
  - reflexivity.
Defined.

(** ** What a session does to the store *)

Section SessionStore.

Implicit Types (c : Component) (e : Env) (w : World) (turns : list (string * Env)).

Lemma turn_storage c typed e w :
  storage (exec (turn c typed e) w)
  = if ignored (react (typing typed w)) then storage w
    else storage (exec (saveEffect c)
                    (settled c e typed (exec (saveEffect c) (dispatched c e (typing typed w))))).
Proof.
  unfold exec at 1. rewrite turn_eq.
  destruct (ignored (react (typing typed w))); reflexivity.
Qed.

Lemma turn_full c typed e w :
  full (storage (exec (turn c typed e) w)) = full (storage w).
Proof.
  rewrite turn_storage. destruct (ignored _); [reflexivity|].
  rewrite saveEffect_full. cbn [settled storage]. rewrite saveEffect_full. reflexivity.
Qed.

Lemma turn_other c typed e w k :
  k <> historyKey c -> stored k (exec (turn c typed e) w) = stored k w.
Proof.
  intros Hk. unfold stored at 1. rewrite turn_storage.
  destruct (ignored _); [reflexivity|].
  fold (stored k (exec (saveEffect c)
    (settled c e typed (exec (saveEffect c) (dispatched c e (typing typed w)))))).
  rewrite saveEffect_other by exact Hk. unfold stored at 1. cbn [settled storage].
  fold (stored k (exec (saveEffect c) (dispatched c e (typing typed w)))).
  rewrite saveEffect_other by exact Hk. reflexivity.
Qed.

Lemma turn_when_full c typed e w :
  full (storage w) = true -> storage (exec (turn c typed e) w) = storage w.
Proof.
  intros Hfull. rewrite turn_storage. destruct (ignored _); [reflexivity|].
  rewrite saveEffect_when_full; cbn [settled storage];
    rewrite saveEffect_when_full; auto.
Qed.

Lemma turn_persisted c typed e w :
  full (storage w) = false -> persisted c w -> persisted c (exec (turn c typed e) w).
Proof.
  intros Hfull Hp. unfold exec at 1. rewrite turn_eq.
  destruct (ignored (react (typing typed w))); [exact Hp|].
  apply saveEffect_persisted. cbn [settled storage]. rewrite saveEffect_full. exact Hfull.
Qed.

(** A turn keeps the history one every render gets through, when its
    reply is a string: the user message is one always. *)
Lemma turn_legible c typed e w :
  legible (messages (react w)) ->
  renders (replyText (reply e)) = true ->
  legible (messages (react (exec (turn c typed e) w))).
Proof.
  intros Hw He. unfold exec at 1. rewrite turn_eq.
  destruct (ignored (react (typing typed w))); [exact Hw|].
  cbn [snd]. rewrite saveEffect_react. cbn [settled react messages].
  rewrite saveEffect_react. cbn [dispatched react messages typing].
  apply Forall_app. split; [|repeat constructor; exact He].
  apply Forall_app. split; [exact Hw|]. repeat constructor.
Qed.

Lemma turn_returns c typed e w : (turn c typed e w).1 = Ok tt.
Proof. rewrite turn_eq. reflexivity. Qed.

End SessionStore.

(** The record of the history follows the history.  The save effect runs
    after a render, and a render throws on a text that is not a string;
    so take a session in which every text is one: those of the history it
    starts with and the reply of every turn.  If the store takes writes
    and the record is up to date when the session starts (or the history
    is empty), then every render of the session gets through, and when
    the session ends the record is up to date: it holds the document of
    the messages the component keeps, the last 100 for ChatApp and all of
    them for SupportChatWidget. *)
Theorem session_keeps_history_persisted (c : Component) (turns : list (string * Env))
    (w : World) :
  full (storage w) = false ->
  persisted c w ->
  legible (messages (react w)) ->
  answered turns ->
  persisted c (session c turns w) /\ legible (messages (react (session c turns w))).
Proof.
  revert w. induction turns as [|[typed e] turns IH]; intros w Hfull Hp Hw Hturns;
    [auto|].
  apply Forall_cons in Hturns as [He Hturns]. cbn [snd] in He.
  cbn [session]. apply IH; auto.
  - rewrite turn_full. exact Hfull.
  - apply turn_persisted; assumption.
  - apply turn_legible; assumption.
Qed.

Lemma session_keeps_history_persisted_witness :
  persisted TheChatApp
    (session TheChatApp [("ping", Samples.env Rejected 1000 1500)] (Samples.typed ""))
  /\ legible
       (messages
          (react (session TheChatApp [("ping", Samples.env Rejected 1000 1500)]
                    (Samples.typed "")))).
Proof.
  apply (session_keeps_history_persisted TheChatApp
           [("ping", Samples.env Rejected 1000 1500)] (Samples.typed "")).
  - reflexivity.
  - left. reflexivity.
  - constructor.
  - repeat constructor.
Defined.

(** A session writes to the record of its own history and to nothing
    else in the store: every other record, the session identifier and
    the record of the other component among them, is as it was. *)
Theorem session_touches_only_its_record (c : Component) (turns : list (string * Env))
    (w : World) (k : string) :
  k <> historyKey c ->
  stored k (session c turns w) = stored k w.
Proof.
  intros Hk. revert w. induction turns as [|[typed e] turns IH]; intros w; [reflexivity|].
  cbn [session]. rewrite IH. apply turn_other, Hk.
Qed.

Lemma session_touches_only_its_record_witness :
  stored SupportChatWidget.USER_SESSION
    (session (TheSupportChatWidget (JStr "chat_1_abc"))
       [("ping", Samples.env Rejected 1000 1500)] (Samples.typed ""))
  = stored SupportChatWidget.USER_SESSION (Samples.typed "").
Proof.
  apply (session_touches_only_its_record (TheSupportChatWidget (JStr "chat_1_abc"))
           [("ping", Samples.env Rejected 1000 1500)] (Samples.typed "")
           SupportChatWidget.USER_SESSION).
  discriminate.
Defined.

(** A store that refuses every write does not stop the conversation.
    Take a session in which every text is a string, so that every render
    gets through.  Over a store that is full, every turn of the session
    returns normally (what [setItem] throws is caught in the save
    effect), the store stays as it is, and the history and the requests
    are those of the same turns over a store that works: the user
    message and the reply of each turn that is not blank, and one request
    for each. *)
Theorem full_store_never_stops_the_chat (c : Component) (turns : list (string * Env))
    (w : World) :
  full (storage w) = true ->
  isLoading (react w) = false ->
  legible (messages (react w)) ->
  answered turns ->
  completes c turns w
  /\ storage (session c turns w) = storage w
  /\ messages (react (session c turns w)) = messages (react w) ++ transcript c turns
  /\ outbox (session c turns w) = outbox w ++ requestsOf c turns
  /\ legible (messages (react (session c turns w))).
Proof.
  intros Hfull Hidle Hw Hturns.
  destruct (session_effect c turns w Hidle) as (Hm & Ho & _).
  assert (completes c turns w /\ storage (session c turns w) = storage w
          /\ legible (messages (react (session c turns w)))) as (Hc & Hs & Hl);
    [|auto 6].
  clear Hm Ho Hidle. revert w Hfull Hw.
  induction turns as [|[typed e] turns IH]; intros w Hfull Hw; [cbn; auto|].
  apply Forall_cons in Hturns as [He Hturns]. cbn [snd] in He.
  cbn [session completes].
  destruct (IH Hturns (exec (turn c typed e) w)) as (Hc & Hs & Hl).
  - rewrite turn_full. exact Hfull.
  - apply turn_legible; assumption.
  - rewrite Hs. repeat split; auto using turn_returns, turn_when_full.
Qed.

Lemma full_store_never_stops_the_chat_witness :
  completes TheChatApp [("ping", Samples.env Rejected 1000 1500)]
    {| react := ChatApp.initialState; storage := fullStorage; outbox := [] |}
  /\ storage (session TheChatApp [("ping", Samples.env Rejected 1000 1500)]
                {| react := ChatApp.initialState; storage := fullStorage; outbox := [] |})
     = fullStorage
  /\ messages (react (session TheChatApp [("ping", Samples.env Rejected 1000 1500)]
                       {| react := ChatApp.initialState; storage := fullStorage;
                          outbox := [] |}))
     = [] ++ transcript TheChatApp [("ping", Samples.env Rejected 1000 1500)]
  /\ outbox (session TheChatApp [("ping", Samples.env Rejected 1000 1500)]
               {| react := ChatApp.initialState; storage := fullStorage; outbox := [] |})
     = [] ++ requestsOf TheChatApp [("ping", Samples.env Rejected 1000 1500)]
  /\ legible
       (messages
          (react (session TheChatApp [("ping", Samples.env Rejected 1000 1500)]
                    {| react := ChatApp.initialState; storage := fullStorage;
                       outbox := [] |}))).
Proof.
  apply (full_store_never_stops_the_chat TheChatApp
           [("ping", Samples.env Rejected 1000 1500)]
           {| react := ChatApp.initialState; storage := fullStorage; outbox := [] |}).
  - reflexivity.
  - reflexivity.
  - constructor.
  - repeat constructor.
Defined.

(** ** Retention *)

(** ChatApp persists the trailing window of the history: what its save
    effect writes is the end of the history, 100 messages long or the
    whole history when that is shorter, and the history in memory is not
    cut. *)
Theorem ChatApp_persists_trailing_window (w : World) :
  messages (react w) <> [] ->
  full (storage w) = false ->
  stored "chatHistory" (exec ChatApp.saveEffect w)
    = Some (historyDocument (ChatApp.messagesToSave (messages (react w))))
  /\ length (ChatApp.messagesToSave (messages (react w)))
     = Nat.min 100 (length (messages (react w)))
  /\ (exists older,
        messages (react w) = older ++ ChatApp.messagesToSave (messages (react w)))
  /\ react (exec ChatApp.saveEffect w) = react w.
Proof.
  intros Hne Hfull. unfold exec, stored. rewrite ChatApp_saveEffect_eq, Hfull.
  destruct (messages (react w)) as [|m l] eqn:E; [congruence|].
  cbn [length Nat.ltb Nat.leb andb negb snd storage items react].
  rewrite lookup_insert_eq, messagesToSave_drop, length_drop.
  repeat split.
  - cbn [length]. lia.
  - exists (take (length (m :: l) - 100) (m :: l)). symmetry. apply take_drop.
Qed.

Lemma ChatApp_persists_trailing_window_witness :
  stored "chatHistory" (exec ChatApp.saveEffect (Histories.holding (Histories.numbered 3)))
    = Some (historyDocument (ChatApp.messagesToSave (Histories.numbered 3)))
  /\ length (ChatApp.messagesToSave (Histories.numbered 3))
     = Nat.min 100 (length (Histories.numbered 3))
  /\ (exists older,
        Histories.numbered 3 = older ++ ChatApp.messagesToSave (Histories.numbered 3))
  /\ react (exec ChatApp.saveEffect (Histories.holding (Histories.numbered 3)))
     = react (Histories.holding (Histories.numbered 3)).
Proof.
  apply (ChatApp_persists_trailing_window (Histories.holding (Histories.numbered 3))).
  - discriminate.
  - reflexivity.
Defined.

(** ** Starting SupportChatWidget *)

Section WidgetStart.

Lemma generateUniqueId_truthy (now : Z) (random : string) :
  Json.truthy (JStr (SupportChatWidget.generateUniqueId now random)) = true.
Proof. reflexivity. Qed.

Lemma or_else_truthy (a : option json) (b : json) :
  Json.truthy b = true -> Json.truthy (Json.or_else a b) = true.
Proof.
  intros Hb. destruct a as [v|]; cbn; [|exact Hb].
  destruct (Json.truthy v) eqn:E; auto.
Qed.

Lemma initSessionId_eq (now : Z) (random : string) (w : World) :
  SupportChatWidget.initSessionId now random w =
  (Ok (Json.or_else
         (Some match stored SupportChatWidget.USER_SESSION w with
               | Some (Document v) => v
               | _ => JNull
               end)
         (JStr (SupportChatWidget.generateUniqueId now random))), w).
Proof.
  unfold SupportChatWidget.initSessionId, bind. rewrite getFromLocalStorage_eq. reflexivity.
Qed.

Lemma saveToLocalStorage_eq (key : string) (data : json) (w : World) :
  SupportChatWidget.saveToLocalStorage key data w =
  (Ok tt,
   if full (storage w) then w
   else {| react := react w;
           storage := {| items := <[key := Document data]> (items (storage w));
                         full := full (storage w) |};
           outbox := outbox w |}).
Proof.
  cbv [SupportChatWidget.saveToLocalStorage try_catch localStorage.setItem ret JSON.stringify].
  destruct (full (storage w)); reflexivity.
Qed.

(** The load effect when the record of the history is missing, does not
    parse, or is not an array with an entry. *)
Lemma loadEffect_welcome (now date : Z) (sid : json) (w : World) :
  match stored SupportChatWidget.CHAT_MESSAGES w with
  | Some (Document (JArr (_ :: _))) => False
  | _ => True
  end ->
  SupportChatWidget.loadEffect now date sid w =
  SupportChatWidget.saveToLocalStorage SupportChatWidget.USER_SESSION sid
    {| react := {| messages := [SupportChatWidget.welcomeMessage now date];
                   inputMessage := inputMessage (react w);
                   isLoading := isLoading (react w) |};
       storage := storage w; outbox := outbox w |}.
Proof.
  intros H. unfold SupportChatWidget.loadEffect, bind at 1. rewrite getFromLocalStorage_eq.
  unfold bind at 1. rewrite getFromLocalStorage_eq.
  unfold bind at 1.
  destruct (stored SupportChatWidget.CHAT_MESSAGES w) as [[raw|[| | | | |[|entry entries]|]]|];
    try reflexivity.
  destruct H.
Qed.

(** The load effect when the record is the document of a history. *)
Lemma loadEffect_history (now date : Z) (sid : json) (w : World) (m : Message)
    (l : list Message) :
  stored SupportChatWidget.CHAT_MESSAGES w = Some (historyDocument (m :: l)) ->
  SupportChatWidget.loadEffect now date sid w =
  SupportChatWidget.saveToLocalStorage SupportChatWidget.USER_SESSION sid
    {| react := {| messages := m :: l;
                   inputMessage := inputMessage (react w);
                   isLoading := isLoading (react w) |};
       storage := storage w; outbox := outbox w |}.
Proof.
  intros H. unfold SupportChatWidget.loadEffect, bind at 1. rewrite getFromLocalStorage_eq, H.
  unfold bind at 1. rewrite getFromLocalStorage_eq.
  unfold historyDocument. rewrite fmap_cons.
  unfold bind at 1, bind at 1. rewrite <- fmap_cons, reviveAll_to_json.
  reflexivity.
Qed.

End WidgetStart.

Section WidgetRestart.

Lemma reviveAll_state (entries : list json) (w : World) :
  (reviveAll entries w).2 = w.
Proof.
  induction entries as [|entry entries IH]; [reflexivity|].
  cbn [reviveAll].
  destruct entry; try reflexivity;
    destruct (MessageJson.of_json _);
    unfold bind; destruct (reviveAll entries w) as [[revived|failure|] w'] eqn:E;
    cbn in IH; subst w'; reflexivity.
Qed.

Lemma reviveAll_length (entries : list json) (w w' : World) (l : list Message) :
  reviveAll entries w = (Ok l, w') -> length l = length entries.
Proof.
  revert l w'. induction entries as [|entry entries IH]; intros l w' H.
  - injection H as <- _. reflexivity.
  - cbn [reviveAll] in H.
    destruct entry; try (unfold throw in H; discriminate);
      (destruct (MessageJson.of_json _); unfold bind in H;
       destruct (reviveAll entries w) as [[revived|failure|] w0] eqn:E;
       try discriminate;
       injection H as <- _; cbn; f_equal; eapply IH; reflexivity).
Qed.

(** The world after a start that went through. *)
Lemma mount_widget_ok (now date : Z) (sid : json) (w w1 : World) :
  full (storage w) = false ->
  mount (TheSupportChatWidget sid) now date w = (Ok tt, w1) ->
  exists m l,
    messages (react w1) = m :: l /\
    full (storage w1) = false /\
    stored SupportChatWidget.USER_SESSION w1 = Some (Document sid) /\
    stored SupportChatWidget.CHAT_MESSAGES w1 = Some (historyDocument (m :: l)).
Proof.
  intros Hfull H. unfold mount, bind in H. cbn [loadEffect saveEffect] in H.
  assert (exists m l,
            SupportChatWidget.loadEffect now date sid w =
            SupportChatWidget.saveToLocalStorage SupportChatWidget.USER_SESSION sid
              {| react := {| messages := m :: l;
                             inputMessage := inputMessage (react w);
                             isLoading := isLoading (react w) |};
                 storage := storage w; outbox := outbox w |}) as (m & l & Hload).
  { destruct (stored SupportChatWidget.CHAT_MESSAGES w) as [[raw|v]|] eqn:Hst;
      try (eexists _, _; apply loadEffect_welcome; rewrite Hst; exact I).
    destruct v as [| | | | |[|entry entries]|];
      try (eexists _, _; apply loadEffect_welcome; rewrite Hst; exact I).
    unfold SupportChatWidget.loadEffect, bind at 1 in H. rewrite getFromLocalStorage_eq, Hst in H.
    unfold bind at 1 in H. rewrite getFromLocalStorage_eq in H.
    unfold bind at 1, bind at 1 in H.
    pose proof (reviveAll_state (entry :: entries) w) as Hw.
    destruct (reviveAll (entry :: entries) w) as [[revived|e|] w0] eqn:E;
      cbn in Hw; subst w0; try discriminate.
    pose proof (reviveAll_length _ _ _ _ E) as Hlen.
    destruct revived as [|m l]; [discriminate|].
    exists m, l.
    unfold SupportChatWidget.loadEffect, bind at 1. rewrite getFromLocalStorage_eq, Hst.
    unfold bind at 1. rewrite getFromLocalStorage_eq.
    unfold bind at 1, bind at 1. rewrite E. reflexivity. }
  rewrite Hload, saveToLocalStorage_eq in H. cbn [storage] in H. rewrite Hfull in H.
  rewrite SupportChatWidget_saveEffect_eq in H. cbn in H.
  injection H as <-. exists m, l. cbn. unfold stored. cbn.
  repeat split; auto.
  - rewrite lookup_insert_ne by discriminate. apply lookup_insert_eq.
  - apply lookup_insert_eq.
Qed.

Lemma widgetStart_ok (now_id : Z) (random : string) (now date : Z) (sid : json)
    (w w1 : World) :
  widgetStart now_id random now date w = (Ok sid, w1) ->
  Json.truthy sid = true /\
  mount (TheSupportChatWidget sid) now date w = (Ok tt, w1).
Proof.
  unfold widgetStart, bind at 1. rewrite initSessionId_eq.
  set (sid0 := Json.or_else _ _).
  assert (Json.truthy sid0 = true) as Ht by (apply or_else_truthy; reflexivity).
  unfold bind, ret.
  destruct (mount (TheSupportChatWidget sid0) now date w) as [[[]|e|] w0] eqn:E;
    intros H; try discriminate H.
  injection H as <- <-. auto.
Qed.

End WidgetRestart.

(** The first start of SupportChatWidget, over a store that holds neither
    a session identifier nor a history and that takes writes: the session
    identifier is generated and stored, and the history, in memory and in
    the store, is the single welcome message. *)
Theorem widget_first_start (now_id : Z) (random : string) (now date : Z) (w : World) :
  stored SupportChatWidget.USER_SESSION w = None ->
  stored SupportChatWidget.CHAT_MESSAGES w = None ->
  full (storage w) = false ->
  exists w1 : World,
    widgetStart now_id random now date w
      = (Ok (JStr (SupportChatWidget.generateUniqueId now_id random)), w1) /\
    messages (react w1) = [SupportChatWidget.welcomeMessage now date] /\
    stored SupportChatWidget.USER_SESSION w1
      = Some (Document (JStr (SupportChatWidget.generateUniqueId now_id random))) /\
    stored SupportChatWidget.CHAT_MESSAGES w1
      = Some (historyDocument [SupportChatWidget.welcomeMessage now date]).
Proof.
  intros Hsid Hhist Hfull.
  unfold widgetStart, bind at 1. rewrite initSessionId_eq, Hsid.
  cbn [Json.or_else Json.truthy].
  unfold bind at 1, mount, bind at 1. cbn [loadEffect saveEffect].
  rewrite loadEffect_welcome by (rewrite Hhist; exact I).
  rewrite saveToLocalStorage_eq. cbn [storage]. rewrite Hfull.
  rewrite SupportChatWidget_saveEffect_eq. cbn.
  eexists. split; [reflexivity|]. unfold stored. cbn.
  repeat split.
  - rewrite lookup_insert_ne by discriminate. apply lookup_insert_eq.
  - apply lookup_insert_eq.
Qed.

Lemma widget_first_start_witness :
  exists w1 : World,
    widgetStart 1000 "k3j9x0a1b" 1000 1000 (Samples.typed "")
      = (Ok (JStr (SupportChatWidget.generateUniqueId 1000 "k3j9x0a1b")), w1) /\
    messages (react w1) = [SupportChatWidget.welcomeMessage 1000 1000] /\
    stored SupportChatWidget.USER_SESSION w1
      = Some (Document (JStr (SupportChatWidget.generateUniqueId 1000 "k3j9x0a1b"))) /\
    stored SupportChatWidget.CHAT_MESSAGES w1
      = Some (historyDocument [SupportChatWidget.welcomeMessage 1000 1000]).
Proof.
  apply (widget_first_start 1000 "k3j9x0a1b" 1000 1000 (Samples.typed ""));
    reflexivity.
Defined.

(** The next start finds what a start left.  Take a start of
    SupportChatWidget that went through over a store that takes writes
    and set a history every text of which is a string, so that the render
    of it gets through and the save effect follows.  Every later start,
    whatever its clock and random readings, returns the same session
    identifier and sets the same history (no second welcome message), and
    leaves the record of the session identifier, the record of the
    history and every other record as it is; the record of the frame is
    set apart, a start writes it on its own account. *)
Theorem widget_restart_is_stable (now_id : Z) (random : string) (now date : Z)
    (sid : json) (w w1 : World) (now_id' : Z) (random' : string) (now' date' : Z) :
  full (storage w) = false ->
  widgetStart now_id random now date w = (Ok sid, w1) ->
  legible (messages (react w1)) ->
  exists w2 : World,
    widgetStart now_id' random' now' date' (restart w1) = (Ok sid, w2) /\
    messages (react w2) = messages (react w1) /\
    legible (messages (react w2)) /\
    (forall k, k <> SupportChatWidget.CHAT_STATE -> stored k w2 = stored k w1).
Proof.
  intros Hfull Hstart Hlegible.
  destruct (widgetStart_ok _ _ _ _ _ _ _ Hstart) as [Hsid Hmount].
  destruct (mount_widget_ok _ _ _ _ _ Hfull Hmount) as (m & l & Hm & Hfull1 & Hs & Hh).
  unfold widgetStart, bind at 1. rewrite initSessionId_eq.
  change (stored SupportChatWidget.USER_SESSION (restart w1))
    with (stored SupportChatWidget.USER_SESSION w1).
  rewrite Hs. cbn [Json.or_else]. rewrite Hsid.
  unfold bind at 1, mount, bind at 1. cbn [loadEffect saveEffect].
  rewrite (loadEffect_history now' date' sid (restart w1) m l) by exact Hh.
  rewrite saveToLocalStorage_eq. cbn [storage restart]. rewrite Hfull1.
  rewrite SupportChatWidget_saveEffect_eq. cbn.
  eexists. split; [reflexivity|]. cbn.
  split; [congruence|]. split; [rewrite <- Hm; exact Hlegible|].
  intros k _. unfold stored in *. cbn [storage items].
  rewrite (insert_id (items (storage w1)) SupportChatWidget.USER_SESSION) by exact Hs.
  rewrite insert_id by exact Hh. reflexivity.
Qed.

Lemma widget_restart_is_stable_witness :
  exists w2 : World,
    widgetStart 5000 "zzzzzzzzz" 5000 5000
      (restart (exec (widgetStart 1000 "k3j9x0a1b" 1000 1000) (Samples.typed "")))
      = (Ok (JStr (SupportChatWidget.generateUniqueId 1000 "k3j9x0a1b")), w2) /\
    messages (react w2)
      = messages (react (exec (widgetStart 1000 "k3j9x0a1b" 1000 1000) (Samples.typed ""))) /\
    legible (messages (react w2)) /\
    (forall k, k <> SupportChatWidget.CHAT_STATE ->
       stored k w2
       = stored k (exec (widgetStart 1000 "k3j9x0a1b" 1000 1000) (Samples.typed ""))).
Proof.
  apply (widget_restart_is_stable 1000 "k3j9x0a1b" 1000 1000
           (JStr (SupportChatWidget.generateUniqueId 1000 "k3j9x0a1b"))
           (Samples.typed "")
           (exec (widgetStart 1000 "k3j9x0a1b" 1000 1000) (Samples.typed ""))
           5000 "zzzzzzzzz" 5000 5000).
  - reflexivity.
  - vm_compute. reflexivity.
  - repeat constructor.
Defined.

(** ** Request identifiers *)

Section UniqueIds.

Lemma string_of_uint_digits (d : Decimal.uint) :
  every notUnderscore (NilEmpty.string_of_uint d) = true.
Proof. induction d; cbn; auto. Qed.

Lemma decimal_digits (n : Z) : every notUnderscore (SupportChatWidget.decimal n) = true.
Proof.
  unfold SupportChatWidget.decimal. destruct (Z.to_int n) as [d|d]; cbn;
    destruct d; cbn; auto using string_of_uint_digits.
Qed.

Lemma decimal_inj (n n' : Z) : SupportChatWidget.decimal n = SupportChatWidget.decimal n' -> n = n'.
Proof.
  unfold SupportChatWidget.decimal. intros H. apply DecimalZ.to_int_inj.
  assert (forall z, NilZero.int_of_string (NilZero.string_of_int (Z.to_int z))
                    = Some (Z.to_int z)) as Hisi.
  { intros z. apply NilZero.isi; destruct z; cbn; try discriminate;
      intros [= E]; revert E; apply Unsigned.to_uint_nonnil. }
  apply (f_equal NilZero.int_of_string) in H. rewrite !Hisi in H. congruence.
Qed.

(** The first underscore of a text cuts it in one way. *)
Lemma cut_at_underscore (a b r r' : string) :
  every notUnderscore a = true -> every notUnderscore b = true ->
  a +:+ "_" +:+ r = b +:+ "_" +:+ r' -> a = b /\ r = r'.
Proof.
  revert b. induction a as [|x a IH]; intros [|y b] Ha Hb H.
  - rewrite !str_app_nil_l in H. change ("_" +:+ ?s) with (String "_" s) in H.
    injection H as ->. auto.
  - rewrite str_app_nil_l, str_app_cons in H.
    change ("_" +:+ ?s) with (String "_" s) in H.
    injection H as <- _. discriminate.
  - rewrite str_app_nil_l, str_app_cons in H.
    change ("_" +:+ ?s) with (String "_" s) in H.
    injection H as -> _. discriminate.
  - rewrite !(str_app_cons _ _ ("_" +:+ _)) in H. injection H as -> H.
    cbn in Ha, Hb. apply andb_true_iff in Ha as [_ Ha]. apply andb_true_iff in Hb as [_ Hb].
    destruct (IH b Ha Hb H) as [-> ->]. auto.
Qed.

End UniqueIds.

(** Request identifiers tell calls apart: two calls get the same
    identifier only when their clock readings and their random suffixes
    are both the same. *)
Theorem generateUniqueId_injective (now now' : Z) (random random' : string) :
  SupportChatWidget.generateUniqueId now random
  = SupportChatWidget.generateUniqueId now' random' ->
  now = now' /\ random = random'.
Proof.
  unfold SupportChatWidget.generateUniqueId. intros H.
  change ("chat_" +:+ ?s) with (String "c" (String "h" (String "a" (String "t" (String "_" s))))) in H.
  injection H as H.
  apply cut_at_underscore in H as [H ->]; auto using decimal_digits.
  apply decimal_inj in H. auto.
Qed.

Lemma generateUniqueId_injective_witness :
  1000 = 1000 /\ "abc" = "abc".
Proof.
  apply (generateUniqueId_injective 1000 1000 "abc" "abc"). reflexivity.
Defined.

(** ** The keyboard handler *)

(** A key press sends at most one request.  Only Enter without Shift
    prevents the default action of the key, and it does so whatever the
    state; a request goes out only if, besides, the input is not blank
    and no request is pending.  Every other press leaves the world as it
    is. *)
Theorem key_press_sends_at_most_once (c : Component) (env : Env) (e : Keyboard.Event)
    (w : World) :
  exists (prevented : bool) (w' : World) (sent : list Request),
    handleKeyPress c env e w = (Ok prevented, w') /\
    (prevented = true <-> Keyboard.key e = "Enter" /\ Keyboard.shiftKey e = false) /\
    outbox w' = outbox w ++ sent /\
    (length sent <= 1)%nat /\
    (sent <> [] <->
       Keyboard.key e = "Enter" /\ Keyboard.shiftKey e = false /\
       JsString.trim (inputMessage (react w)) <> "" /\ isLoading (react w) = false) /\
    (sent = [] -> w' = w).
Proof.
  unfold handleKeyPress.
  destruct (String.eqb_spec (Keyboard.key e) "Enter") as [Hkey|Hkey];
    destruct (Keyboard.shiftKey e) eqn:Hshift; cbn [andb negb];
    try (exists false, w, []; rewrite app_nil_r;
         repeat split; try (cbn; lia);
         intros; try discriminate; intuition congruence).
  unfold bind. rewrite sendMessage_unfold.
  destruct (ignored (react w)) eqn:Hig.
  - exists true, w, []. rewrite app_nil_r.
    apply ignored_true in Hig.
    repeat split; auto; try (cbn; lia); try congruence.
    intros (_ & _ & Htrim & Hidle). destruct Hig; congruence.
  - rewrite settle_eq. cbn [ret].
    exists true, (settled c env (inputMessage (react w)) (dispatched c env w)),
      [requestOf c env (inputMessage (react w))].
    apply ignored_false in Hig as [Htrim Hidle].
    repeat split; auto; try discriminate.
Qed.

(** ** The frame of SupportChatWidget *)

Section Frames.

Import WidgetFrame.

Lemma flag_saved (name : string) (fields : list (string * json)) (b : bool) (w : World) :
  Json.lookup name fields = Some (JBool b) ->
  flag name (JObj fields) w = (Ok b, w).
Proof. intros H. unfold flag. cbn. rewrite H. destruct b; reflexivity. Qed.

(** The mount effect ends as its history part, the load effect, does;
    when that returns, the frame is the one the saved state gives. *)
Lemma mountEffect_returning (now date : Z) (sid : json) (f f' : Frame) (w : World) :
  (Json.truthy (savedStateOf w) = false /\ f' = f) \/
  (exists fields,
     savedStateOf w = JObj fields /\
     Json.lookup "isOpen" fields = Some (JBool (isOpen f')) /\
     Json.lookup "isMinimized" fields = Some (JBool (isMinimized f'))) ->
  mountEffect now date sid f w
  = returning f' (SupportChatWidget.loadEffect now date sid w).
Proof.
  intros Hsaved.
  unfold mountEffect, SupportChatWidget.loadEffect, bind.
  rewrite !getFromLocalStorage_eq. cbv beta iota.
  fold (savedStateOf w).
  match goal with |- (let (o, w') := ?h in _) = _ => destruct h as [[[]|e|] w0] end;
    try reflexivity.
  destruct Hsaved as [[-> ->] | (fields & -> & Hopen & Hmin)].
  - unfold ret, returning. rewrite saveToLocalStorage_eq. reflexivity.
  - cbn [Json.truthy].
    rewrite (flag_saved _ _ _ _ Hopen), (flag_saved _ _ _ _ Hmin).
    unfold ret, returning. rewrite saveToLocalStorage_eq. destruct f'. reflexivity.
Qed.

Lemma returning_world {A B} (b : B) (r : outcome A * World) : (returning b r).2 = r.2.
Proof. destruct r as [[a|e|] w]; reflexivity. Qed.

(** The load effect of the widget writes the session identifier and no
    other record. *)
Lemma widget_loadEffect_other (now date : Z) (sid : json) (w : World) (k : string) :
  k <> SupportChatWidget.USER_SESSION ->
  stored k (exec (SupportChatWidget.loadEffect now date sid) w) = stored k w.
Proof.
  intros Hk. unfold exec, SupportChatWidget.loadEffect, bind.
  rewrite !getFromLocalStorage_eq. cbv beta iota.
  match goal with |- context [let (o, w') := ?h in _] => set (history := h) end.
  assert (storage history.2 = storage w) as Hstorage.
  { subst history.
    destruct (stored SupportChatWidget.CHAT_MESSAGES w) as [[raw|[| | | | |[|entry entries]|]]|];
      try reflexivity.
    pose proof (reviveAll_state (entry :: entries) w) as Hw.
    destruct (reviveAll (entry :: entries) w) as [[revived|failure|] w0];
      cbn in Hw; subst w0; reflexivity. }
  destruct history as [[[]|e|] w0]; cbn [snd] in *;
    unfold stored; try (rewrite Hstorage; reflexivity).
  rewrite saveToLocalStorage_eq. cbn [snd].
  destruct (full (storage w0)); cbn [storage items]; rewrite ?Hstorage;
    [reflexivity|].
  rewrite lookup_insert_ne by congruence. reflexivity.
Qed.

End Frames.

(** The frame survives a restart.  Once the effect that saves the frame
    has run over a store that takes writes, the effect run on the next
    mount ends as its history part, the load effect, does, and when that
    returns it has restored [isOpen] and [isMinimized] as they were
    saved, whatever frame the component starts with.  When the history
    part throws (an array with a [null] entry for a history), so does
    the effect, and no flag is restored. *)
Theorem frame_survives_restart (f f0 : WidgetFrame.Frame) (now date : Z) (sid : json)
    (w : World) :
  full (storage w) = false ->
  WidgetFrame.mountEffect now date sid f0 (exec (WidgetFrame.saveFrameEffect f) w)
  = returning f
      (SupportChatWidget.loadEffect now date sid
         (exec (WidgetFrame.saveFrameEffect f) w)).
Proof.
  intros Hfull. apply mountEffect_returning. right.
  exists [("isOpen", JBool (WidgetFrame.isOpen f));
          ("isMinimized", JBool (WidgetFrame.isMinimized f))].
  split; [|split; reflexivity].
  unfold savedStateOf, stored, exec, WidgetFrame.saveFrameEffect.
  rewrite saveToLocalStorage_eq, Hfull. cbn [snd storage items].
  rewrite lookup_insert_eq. reflexivity.
Qed.

Lemma frame_survives_restart_witness :
  WidgetFrame.mountEffect 1000 1000 (JStr "chat_1_abc") WidgetFrame.initialFrame
    (exec (WidgetFrame.saveFrameEffect
             {| WidgetFrame.isOpen := true; WidgetFrame.isMinimized := true |})
       (Samples.typed ""))
  = returning {| WidgetFrame.isOpen := true; WidgetFrame.isMinimized := true |}
      (SupportChatWidget.loadEffect 1000 1000 (JStr "chat_1_abc")
         (exec (WidgetFrame.saveFrameEffect
                  {| WidgetFrame.isOpen := true; WidgetFrame.isMinimized := true |})
            (Samples.typed ""))).
Proof.
  apply (frame_survives_restart
           {| WidgetFrame.isOpen := true; WidgetFrame.isMinimized := true |}
           WidgetFrame.initialFrame 1000 1000 (JStr "chat_1_abc") (Samples.typed "")).
  reflexivity.
Defined.

(** With no record of the frame in the store, or one that does not
    parse, or one that holds a falsy value, the effect run on mount ends
    as its history part, the load effect, does, and leaves [isOpen] and
    [isMinimized] as they are, so a first start shows the widget closed.
    The one record the effect writes is that of the session
    identifier. *)
Theorem missing_frame_record_keeps_frame (f0 : WidgetFrame.Frame) (now date : Z)
    (sid : json) (w : World) :
  match stored SupportChatWidget.CHAT_STATE w with
  | Some (Document v) => Json.truthy v = false
  | _ => True
  end ->
  WidgetFrame.mountEffect now date sid f0 w
  = returning f0 (SupportChatWidget.loadEffect now date sid w)
  /\ (forall k, k <> SupportChatWidget.USER_SESSION ->
        stored k (exec (WidgetFrame.mountEffect now date sid f0) w) = stored k w).
Proof.
  intros H.
  assert (WidgetFrame.mountEffect now date sid f0 w
          = returning f0 (SupportChatWidget.loadEffect now date sid w)) as Heq.
  { apply mountEffect_returning. left. split; [|reflexivity].
    unfold savedStateOf.
    destruct (stored SupportChatWidget.CHAT_STATE w) as [[raw|v]|]; auto. }
  split; [exact Heq|].
  intros k Hk. unfold exec at 1. rewrite Heq, returning_world.
  apply widget_loadEffect_other, Hk.
Qed.

Lemma missing_frame_record_keeps_frame_witness :
  WidgetFrame.mountEffect 1000 1000 (JStr "chat_1_abc") WidgetFrame.initialFrame
    (Samples.typed "")
  = returning WidgetFrame.initialFrame
      (SupportChatWidget.loadEffect 1000 1000 (JStr "chat_1_abc") (Samples.typed ""))
  /\ (forall k, k <> SupportChatWidget.USER_SESSION ->
        stored k
          (exec (WidgetFrame.mountEffect 1000 1000 (JStr "chat_1_abc")
                   WidgetFrame.initialFrame) (Samples.typed ""))
        = stored k (Samples.typed "")).
Proof.
  apply (missing_frame_record_keeps_frame WidgetFrame.initialFrame 1000 1000
           (JStr "chat_1_abc") (Samples.typed "")).
  exact I.
Defined.

(** The conversation is never more than two clicks away.  Whatever the
    frame and the width of the window, some one or two of the buttons
    the widget shows lead to a frame in which the messages and the input
    are rendered.  Two are needed on a narrow window when the frame is
    open and minimised: the button that would maximise it is not shown
    there, and the only way on is to close the widget and open it
    again. *)
Theorem conversation_is_two_clicks_away (mobile : bool) (f : WidgetFrame.Frame) :
  (exists (path : list WidgetFrame.Control) (f' : WidgetFrame.Frame),
     (length path <= 2)%nat /\
     clicks mobile path f = Some f' /\
     WidgetFrame.content (WidgetFrame.render mobile f') = true)
  /\ (forall (path : list WidgetFrame.Control) (f' : WidgetFrame.Frame),
        (length path <= 1)%nat ->
        clicks true path {| WidgetFrame.isOpen := true; WidgetFrame.isMinimized := true |}
          = Some f' ->
        WidgetFrame.content (WidgetFrame.render true f') = false).
Proof.
  split.
  - destruct f as [[] []], mobile.
    + exists [WidgetFrame.CloseButton; WidgetFrame.ChatButton]. eexists.
      split; [cbn; lia | split; reflexivity].
    + exists [WidgetFrame.MaximizeButton]. eexists.
      split; [cbn; lia | split; reflexivity].
    + exists []. eexists. split; [cbn; lia | split; reflexivity].
    + exists []. eexists. split; [cbn; lia | split; reflexivity].
    + exists [WidgetFrame.ChatButton]. eexists.
      split; [cbn; lia | split; reflexivity].
    + exists [WidgetFrame.ChatButton]. eexists.
      split; [cbn; lia | split; reflexivity].
    + exists [WidgetFrame.ChatButton]. eexists.
      split; [cbn; lia | split; reflexivity].
    + exists [WidgetFrame.ChatButton]. eexists.
      split; [cbn; lia | split; reflexivity].
  - intros [|control [|]] f' Hlen H; cbn in Hlen; try lia.
    + injection H as <-. reflexivity.
    + destruct control; cbn in H; try discriminate.
      injection H as <-. reflexivity.
Qed.

(** ** The copy button *)

Section CopyButtons.

Import CopyButton.

Lemma no_element_nil {A} (l : list A) : (forall x, x ∉ l) -> l = [].
Proof. destruct l as [|x l]; [reflexivity|]. intros H. destruct (H x). left. Qed.

Lemma tracked_clear (b : Button) :
  tracked b ->
  timers match timeoutRef b with
         | Some (S _ as h) => clearTimeout h b
         | _ => b
         end = [].
Proof.
  intros Hb. apply no_element_nil. intros t Ht.
  destruct (timeoutRef b) as [[|n]|] eqn:Href.
  - destruct (Hb t Ht) as (k & _ & Hk). congruence.
  - cbn in Ht. apply list_elem_of_filter in Ht as [Hne Ht].
    destruct (Hb t Ht) as (k & Hh & Hk). congruence.
  - destruct (Hb t Ht) as (k & _ & Hk). congruence.
Qed.

(** After a copy that went through, the memoised button has one timer,
    due two seconds later. *)
Lemma memoised_copy_timers (text : string) (now : Z) (b : Button) :
  tracked b ->
  timers (Memoised.handleCopy text true now b)
    = [{| handle := S (issued b); due := now + 2000 |}]
  /\ timeoutRef (Memoised.handleCopy text true now b) = Some (S (issued b))
  /\ copied (Memoised.handleCopy text true now b) = true
  /\ clipboard (Memoised.handleCopy text true now b) = Some text.
Proof.
  intros Hb. unfold Memoised.handleCopy.
  assert (tracked (setCopied true (writeText text b))) as Hb1 by exact Hb.
  pose proof (tracked_clear _ Hb1) as Hclear.
  set (b2 := match timeoutRef (setCopied true (writeText text b)) with
             | Some (S _ as h) => clearTimeout h (setCopied true (writeText text b))
             | _ => setCopied true (writeText text b)
             end) in *.
  assert (issued b2 = issued b /\ copied b2 = true /\ clipboard b2 = Some text)
    as (Hi & Hc & Hclip).
  { subst b2. destruct (timeoutRef _) as [[|n]|]; auto. }
  cbn. rewrite Hclear, Hi, Hc, Hclip. auto.
Qed.

Lemma memoisedStep_tracked (b : Button) (ev : CopyEvent) :
  tracked b -> tracked (memoisedStep b ev).
Proof.
  intros Hb. destruct ev as [text [] now | now]; cbn [memoisedStep].
  - destruct (memoised_copy_timers text now b Hb) as (Ht & Href & _).
    intros t Hin. rewrite Ht in Hin. apply list_elem_of_singleton in Hin as ->.
    exists (issued b). auto.
  - exact Hb.
  - intros t Hin. cbn in Hin. apply list_elem_of_filter in Hin as [_ Hin].
    exact (Hb t Hin).
Qed.

Lemma memoisedAfter_tracked (events : list CopyEvent) : tracked (memoisedAfter events).
Proof.
  unfold memoisedAfter.
  assert (tracked initialButton) as H0 by (intros t Ht; inversion Ht).
  revert H0. generalize initialButton.
  induction events as [|ev events IH]; intros b Hb; [exact Hb|].
  cbn [foldl]. apply IH, memoisedStep_tracked, Hb.
Qed.

Lemma elapse_copied (now : Z) (b : Button) :
  copied (elapse now b)
  = if decide (Exists (fun t => due t <= now) (timers b)) then false else copied b.
Proof. reflexivity. Qed.

Lemma memoised_mark (events : list CopyEvent) (text : string) (now t : Z) :
  clipboard (Memoised.handleCopy text true now (memoisedAfter events)) = Some text
  /\ copied (Memoised.handleCopy text true now (memoisedAfter events)) = true
  /\ (t < now + 2000 ->
      copied (elapse t (Memoised.handleCopy text true now (memoisedAfter events))) = true)
  /\ (now + 2000 <= t ->
      copied (elapse t (Memoised.handleCopy text true now (memoisedAfter events))) = false).
Proof.
  destruct (memoised_copy_timers text now _ (memoisedAfter_tracked events))
    as (Ht & _ & Hc & Hclip).
  rewrite !elapse_copied, Ht, Hc, Hclip. repeat split.
  - intros Hlt. destruct (decide _) as [Hex|]; [|reflexivity].
    apply Exists_cons in Hex as [Hex | Hex]; [cbn in Hex; lia | inversion Hex].
  - intros Hle. destruct (decide _) as [|Hex]; [reflexivity|].
    destruct Hex. left. cbn. lia.
Qed.

End CopyButtons.

(** In the memoised component the mark of a copy lasts two seconds from
    the last copy.  Whatever happened to the button before, after a copy
    that went through at [now] the text is on the clipboard and the
    button shows the mark; the mark is still there at every time before
    [now + 2000] and gone from then on. *)
Theorem copied_lasts_two_seconds (events : list CopyEvent) (text : string) (now t : Z) :
  let b := CopyButton.Memoised.handleCopy text true now (memoisedAfter events) in
  CopyButton.clipboard b = Some text
  /\ CopyButton.copied b = true
  /\ (t < now + 2000 -> CopyButton.copied (CopyButton.elapse t b) = true)
  /\ (now + 2000 <= t -> CopyButton.copied (CopyButton.elapse t b) = false).
Proof. apply memoised_mark. Qed.

(** A second copy within two seconds of the first.  In the view of
    [ChatResponseView.tsx] the timer of the first copy still runs: the
    mark goes two seconds after the first copy, less than two seconds
    after the second.  The memoised view clears that timer, and shows the
    mark then. *)
Theorem second_copy_extends_only_memoised (events : list CopyEvent)
    (b : CopyButton.Button) (text1 text2 : string) (t1 t2 : Z) :
  t1 < t2 ->
  t2 < t1 + 2000 ->
  t1 + 2000 < t2 + 2000
  /\ CopyButton.copied
       (CopyButton.elapse (t1 + 2000)
          (CopyButton.Standalone.handleCopy text2 true t2
             (CopyButton.elapse t2
                (CopyButton.Standalone.handleCopy text1 true t1 b)))) = false
  /\ CopyButton.copied
       (CopyButton.elapse (t1 + 2000)
          (memoisedStep (memoisedAfter (events ++ [Click text1 true t1; Clock t2]))
             (Click text2 true t2))) = true.
Proof.
  intros Hlt Hlt'. split; [lia|]. split.
  - rewrite elapse_copied.
    destruct (decide _) as [|Hex]; [reflexivity|]. destruct Hex.
    cbn. apply Exists_app. left. apply Exists_exists.
    exists {| CopyButton.handle := S (CopyButton.issued b); CopyButton.due := t1 + 2000 |}.
    split; [|cbn; lia].
    apply list_elem_of_filter. split; [cbn; lia|].
    apply elem_of_app. right. left.
  - cbn [memoisedStep].
    apply (memoised_mark (events ++ [Click text1 true t1; Clock t2]) text2 t2 (t1 + 2000)).
    lia.
Qed.

Lemma second_copy_extends_only_memoised_witness :
  0 + 2000 < 1500 + 2000
  /\ CopyButton.copied
       (CopyButton.elapse (0 + 2000)
          (CopyButton.Standalone.handleCopy "b" true 1500
             (CopyButton.elapse 1500
                (CopyButton.Standalone.handleCopy "a" true 0
                   CopyButton.initialButton)))) = false
  /\ CopyButton.copied
       (CopyButton.elapse (0 + 2000)
          (memoisedStep (memoisedAfter ([] ++ [Click "a" true 0; Clock 1500]))
             (Click "b" true 1500))) = true.
Proof.
  apply (second_copy_extends_only_memoised [] CopyButton.initialButton "a" "b" 0 1500);
    lia.
Defined.

(** Unmounting the memoised component clears the timer of a copy that
    has settled, and of no other.  After any history of copies whose
    clipboard write has settled and of clock readings, the cleanup leaves
    no timer pending.  A copy whose write settles only after the unmount,
    the click having come before it, still sets its timer then: nothing
    clears that one, and two seconds later [setCopied] is called on a
    component that is gone. *)
Theorem cleanup_clears_settled_copies (events : list CopyEvent) (text : string)
    (now : Z) :
  CopyButton.timers (CopyButton.Memoised.cleanup (memoisedAfter events)) = []
  /\ CopyButton.timers
       (CopyButton.Memoised.handleCopy text true now
          (CopyButton.Memoised.cleanup (memoisedAfter events)))
     = [{| CopyButton.handle := S (CopyButton.issued (memoisedAfter events));
           CopyButton.due := now + 2000 |}].
Proof.
  pose proof (tracked_clear _ (memoisedAfter_tracked events)) as Hclear.
  split; [exact Hclear|].
  assert (tracked (CopyButton.Memoised.cleanup (memoisedAfter events))) as Htracked.
  { intros t Ht. unfold CopyButton.Memoised.cleanup in Ht.
    rewrite Hclear in Ht. inversion Ht. }
  destruct (memoised_copy_timers text now _ Htracked) as (-> & _).
  do 3 f_equal. unfold CopyButton.Memoised.cleanup.
  destruct (CopyButton.timeoutRef (memoisedAfter events)) as [[|n]|]; reflexivity.
Qed.

(** ** The code renderer *)

Section CodeRenderer.

Import RegExp MarkdownComponents.

(** A literal word, compared exactly, matches itself and nothing else. *)
Lemma matches_Str_exact (word s : string) :
  word <> "" ->
  matches false (Str word) (word +:+ s) = [Result word [] s].
Proof.
  induction word as [|y word IH]; intros Hw; [congruence|].
  destruct word as [|y' word].
  - rewrite str_app_cons, str_app_nil_l. cbn [Str matches chr_eq].
    rewrite Ascii.eqb_refl. reflexivity.
  - change (Str (String y (String y' word))) with (Seq (Chr y) (Str (String y' word))).
    rewrite (str_app_cons y). cbn [matches chr_eq]. rewrite Ascii.eqb_refl.
    rewrite bind_singleton. cbn [rest]. rewrite IH by discriminate.
    rewrite bind_singleton. reflexivity.
Qed.

(** The greedy run takes all the characters of the class there are. *)
Lemma head_plus_greedy (p : ascii -> bool) (run s : string) :
  run <> "" -> every p run = true ->
  match s with String c _ => p c = false | EmptyString => True end ->
  head (plus p (run +:+ s)) = Some (run, s).
Proof.
  intros Hne Hrun Hs. induction run as [|c run IH]; [congruence|].
  cbn in Hrun. apply andb_true_iff in Hrun as [Hc Hrun].
  rewrite str_app_cons. cbn [plus]. rewrite Hc.
  destruct run as [|c' run].
  - rewrite str_app_nil_l.
    assert (plus p s = []) as -> by (destruct s; cbn; [|rewrite Hs]; reflexivity).
    reflexivity.
  - specialize (IH ltac:(discriminate) Hrun).
    destruct (plus p (String c' run +:+ s)) as [|a l]; [discriminate|].
    injection IH as ->. reflexivity.
Qed.

Lemma matches_languageTag (s : string) :
  matches false languageTag ("language-" +:+ s)
  = (fun a => Result ("language-" +:+ a.1) [(1%nat, a.1)] a.2) <$> plus wordChar s.
Proof.
  unfold languageTag. cbn [matches].
  rewrite (matches_Str_exact "language-" s) by discriminate.
  rewrite bind_singleton. cbn [rest matched groups].
  induction (plus wordChar s) as [|a l IH]; [reflexivity|].
  rewrite !fmap_cons, bind_cons, IH. destruct a. reflexivity.
Qed.

Lemma dropFinalLineFeed_final (src : string) :
  dropFinalLineFeed (src +:+ String "010" "") = src.
Proof.
  induction src as [|c src IH]; [reflexivity|].
  rewrite str_app_cons. cbn [dropFinalLineFeed]. unfold finalLineFeed at 1.
  cbn [matches chr_eq].
  destruct (Ascii.eqb c "010"); cbn [List.filter rest].
  - destruct (String.eqb_spec (src +:+ String "010" "") "") as [E|_];
      [|rewrite IH; reflexivity].
    destruct src; discriminate.
  - rewrite IH. reflexivity.
Qed.

End CodeRenderer.

(** A fenced block tagged with a language is highlighted in that
    language.  With the class [language-] followed by a non-empty run of
    word characters, which ends with the class or at a character that is
    not one, a block that is not inline goes to the highlighter with that
    run as its language, and with its source less the final line feed. *)
Theorem tagged_block_is_highlighted (language rest src : string) :
  language <> "" ->
  every MarkdownComponents.wordChar language = true ->
  match rest with
  | String c _ => MarkdownComponents.wordChar c = false
  | EmptyString => True
  end ->
  MarkdownComponents.code false (Some ("language-" +:+ language +:+ rest))
    (src +:+ String "010" "")
  = MarkdownComponents.SyntaxHighlighter language src.
Proof.
  intros Hne Hword Hrest. unfold MarkdownComponents.code.
  assert (exists l,
            RegExp.matches false MarkdownComponents.languageTag
              ("language-" +:+ language +:+ rest)
            = RegExp.Result ("language-" +:+ language) [(1%nat, language)] rest :: l)
    as [l Hm].
  { rewrite matches_languageTag.
    pose proof (head_plus_greedy _ language rest Hne Hword Hrest) as Hhd.
    destruct (RegExp.plus _ _) as [|a k]; [discriminate|].
    injection Hhd as ->. eexists. reflexivity. }
  change ("language-" +:+ language +:+ rest)
    with (String "l" ("anguage-" +:+ language +:+ rest)) in *.
  cbn [RegExp.exec]. rewrite Hm. cbn [negb snd RegExp.group RegExp.groups
    RegExp.lookup_group Nat.eqb].
  rewrite dropFinalLineFeed_final. reflexivity.
Qed.

Lemma tagged_block_is_highlighted_witness :
  MarkdownComponents.code false (Some ("language-" +:+ "c" +:+ "++"))
    ("int main() {}" +:+ String "010" "")
  = MarkdownComponents.SyntaxHighlighter "c" "int main() {}".
Proof.
  apply (tagged_block_is_highlighted "c" "++" "int main() {}").
  - discriminate.
  - reflexivity.
  - reflexivity.
Defined.

(** Nothing else is highlighted.  When the code renderer returns a
    highlighted block, the code is not inline and its class holds
    [language-] followed by the language, which is a non-empty run of
    word characters; inline code and code without such a class stay
    plain. *)
Theorem only_tagged_blocks_are_highlighted (inline : bool) (className : option string)
    (children language src : string) :
  MarkdownComponents.code inline className children
  = MarkdownComponents.SyntaxHighlighter language src ->
  inline = false
  /\ (exists before after,
        className = Some (before +:+ "language-" +:+ language +:+ after))
  /\ language <> ""
  /\ every MarkdownComponents.wordChar language = true
  /\ src = MarkdownComponents.dropFinalLineFeed children.
Proof.
  unfold MarkdownComponents.code. intros H.
  destruct (RegExp.exec false MarkdownComponents.languageTag _) as [[gap x]|] eqn:E;
    [|discriminate].
  destruct inline; [discriminate|]. cbn [negb snd] in H. injection H as <- <-.
  apply exec_Some in E as (s2 & Hs & Hhd & _).
  apply head_Some_elem_of in Hhd.
  assert (exists run after,
            s2 = "language-" +:+ run +:+ after /\ RegExp.group 1 x = run /\
            run <> "" /\ every MarkdownComponents.wordChar run = true)
    as (run & after & -> & <- & Hne & Hword).
  { unfold MarkdownComponents.languageTag in Hhd. cbn [RegExp.matches] in Hhd.
    apply list_elem_of_bind in Hhd as (xa & H & Ha).
    apply list_elem_of_bind in H as (xg & H & Hg).
    apply list_elem_of_singleton in H as ->.
    apply list_elem_of_fmap in Hg as (y & -> & Hy).
    apply list_elem_of_fmap in Hy as ([run after] & -> & Hp).
    apply plus_spec in Hp as (Hrest & Hne & Hword).
    pose proof (matches_sound _ _ _ _ Ha) as Hs2.
    assert (RegExp.matched xa = "language-") as Hma.
    { assert ((RegExp.matched xa, RegExp.rest xa)
                ∈ spans false (RegExp.Str "language-") s2) as Hsp
        by (apply list_elem_of_fmap; exists xa; auto).
      apply elem_of_spans_Str in Hsp as [_ Hsp]; [|discriminate].
      apply sameWord_exact, Hsp. }
    exists run, after. rewrite Hs2, Hma, Hrest.
    unfold RegExp.group. cbn. auto. }
  repeat split; auto.
  destruct className as [name|]; cbn in Hs.
  - exists gap, after. rewrite Hs. reflexivity.
  - symmetry in Hs. apply str_app_eq_nil in Hs as [_ Hs]. discriminate.
Qed.

Lemma only_tagged_blocks_are_highlighted_witness :
  false = false
  /\ (exists before after,
        Some "hljs language-js" = Some (before +:+ "language-" +:+ "js" +:+ after))
  /\ "js" <> ""
  /\ every MarkdownComponents.wordChar "js" = true
  /\ "x = 1" = MarkdownComponents.dropFinalLineFeed ("x = 1" +:+ String "010" "").
Proof.
  apply (only_tagged_blocks_are_highlighted false (Some "hljs language-js")
           ("x = 1" +:+ String "010" "") "js" "x = 1").
  vm_compute. reflexivity.
Defined.

(** ** Lines *)

Section Lines.

Lemma split_line (line : string) :
  every notLineFeed line = true -> JsString.split "010" line = [line].
Proof.
  induction line as [|c line IH]; [reflexivity|].
  cbn. intros [Hc Hline]%andb_true_iff. unfold notLineFeed in Hc.
  apply negb_true_iff in Hc. rewrite Hc, (IH Hline). reflexivity.
Qed.

Lemma split_line_feed (line s : string) :
  every notLineFeed line = true ->
  JsString.split "010" (line +:+ String "010" s) = line :: JsString.split "010" s.
Proof.
  induction line as [|c line IH]; [reflexivity|].
  cbn [every]. intros [Hc Hline]%andb_true_iff. unfold notLineFeed in Hc.
  apply negb_true_iff in Hc. rewrite str_app_cons. cbn [JsString.split].
  rewrite Hc, (IH Hline). reflexivity.
Qed.

Lemma split_joinLines (lines : list string) :
  lines <> [] ->
  Forall (fun line => every notLineFeed line = true) lines ->
  JsString.split "010" (joinLines lines) = lines.
Proof.
  induction lines as [|line lines IH]; intros Hne Hall; [congruence|].
  apply Forall_cons in Hall as [Hline Hall].
  destruct lines as [|line' lines].
  - apply split_line, Hline.
  - change (joinLines (line :: line' :: lines))
      with (line +:+ String "010" (joinLines (line' :: lines))).
    rewrite split_line_feed by exact Hline. rewrite IH by (auto; discriminate).
    reflexivity.
Qed.

End Lines.

(** One block for each line.  A message made of lines, a line feed
    between each two, is formatted line by line: the blocks are those of
    its lines, in order, one each, so a message of [n] lines gives [n]
    blocks. *)
Theorem one_block_per_line (lines : list string) :
  lines <> [] ->
  Forall (fun line => every notLineFeed line = true) lines ->
  Formatter.formatMessage (joinLines lines) = Formatter.formatLine <$> lines
  /\ length (Formatter.formatMessage (joinLines lines)) = length lines.
Proof.
  intros Hne Hall. unfold Formatter.formatMessage.
  rewrite split_joinLines by assumption. split; [reflexivity|].
  apply length_fmap.
Qed.

Lemma one_block_per_line_witness :
  Formatter.formatMessage (joinLines ["Fare | 120"; ""; "*per person*"])
  = Formatter.formatLine <$> ["Fare | 120"; ""; "*per person*"]
  /\ length (Formatter.formatMessage (joinLines ["Fare | 120"; ""; "*per person*"]))
     = length ["Fare | 120"; ""; "*per person*"].
Proof.
  apply (one_block_per_line ["Fare | 120"; ""; "*per person*"]).
  - discriminate.
  - repeat constructor.
Defined.

(** ** Lines without markup *)

Section PlainLines.

Lemma prefix_cons (x c : ascii) (p s : string) :
  String.prefix (String x p) (String c s)
  = if Ascii.eqb x c then String.prefix p s else false.
Proof.
  cbn. destruct (ascii_dec x c) as [->|Hne].
  - rewrite Ascii.eqb_refl. reflexivity.
  - apply Ascii.eqb_neq in Hne. rewrite Hne. reflexivity.
Qed.

(** A text does not hold a word whose first character it does not hold. *)
Lemma includes_absent (x : ascii) (p line : string) :
  every (fun c => negb (Ascii.eqb x c)) line = true ->
  JsString.includes (String x p) line = false.
Proof.
  induction line as [|c line IH]; [reflexivity|].
  cbn [every JsString.includes]. intros [Hc Hline]%andb_true_iff.
  rewrite prefix_cons. apply negb_true_iff in Hc. rewrite Hc, (IH Hline). reflexivity.
Qed.

Lemma every_impl (p q : ascii -> bool) (s : string) :
  (forall c, p c = true -> q c = true) -> every p s = true -> every q s = true.
Proof.
  intros Hpq. induction s as [|c s IH]; [reflexivity|].
  cbn. intros [Hc Hs]%andb_true_iff. rewrite (Hpq c Hc), (IH Hs). reflexivity.
Qed.

Lemma trimStart_blank (line : string) :
  every JsString.isWhiteSpace line = true -> JsString.trimStart line = "".
Proof.
  induction line as [|c line IH]; [reflexivity|].
  cbn. intros [Hc Hline]%andb_true_iff. rewrite Hc. exact (IH Hline).
Qed.

End PlainLines.

(** A line of white space only, the empty line among them, is a spacer:
    it has none of the tokens of the rules before, and it trims to
    nothing. *)
Theorem blank_line_is_spacer (line : string) :
  every JsString.isWhiteSpace line = true ->
  Formatter.formatLine line = Formatter.Spacer.
Proof.
  intros Hblank.
  assert (forall x, JsString.isWhiteSpace x = false ->
            every (fun c => negb (Ascii.eqb x c)) line = true) as Hno.
  { intros x Hx. eapply every_impl; [|exact Hblank].
    intros c Hc. apply negb_true_iff. destruct (Ascii.eqb_spec x c) as [->|]; congruence. }
  unfold Formatter.formatLine, Formatter.tableRule, Formatter.textRules.
  rewrite (includes_absent "|" "" line) by (apply Hno; reflexivity).
  rewrite (includes_absent "*" "*" line) by (apply Hno; reflexivity).
  assert (JsString.startsWith "*" line = false) as ->.
  { destruct line as [|c line]; [reflexivity|].
    unfold JsString.startsWith. rewrite prefix_cons.
    cbn in Hblank. apply andb_true_iff in Hblank as [Hc _].
    destruct (Ascii.eqb_spec "*" c) as [<-|]; [discriminate | reflexivity]. }
  cbn [andb]. unfold JsString.trim. rewrite trimStart_blank by exact Hblank.
  reflexivity.
Qed.

Lemma blank_line_is_spacer_witness :
  Formatter.formatLine "   " = Formatter.Spacer.
Proof. apply (blank_line_is_spacer "   "). reflexivity. Defined.

(** ** Italic lines *)

Section ItalicLines.

Lemma endsWith_app (p s : string) : JsString.endsWith p (s +:+ p) = true.
Proof.
  induction s as [|c s IH].
  - rewrite str_app_nil_l. destruct p as [|x p]; [reflexivity|].
    cbn [JsString.endsWith]. rewrite String.eqb_refl. reflexivity.
  - rewrite str_app_cons. cbn [JsString.endsWith]. rewrite IH. apply orb_true_r.
Qed.

Lemma substring_start (t u : string) : String.substring 0 (String.length t) (t +:+ u) = t.
Proof.
  induction t as [|c t IH]; [destruct u; reflexivity|].
  rewrite str_app_cons. cbn. rewrite IH. reflexivity.
Qed.

(** [s.slice(a, -b)] of a text that is [a] characters, the text [t] and
    [b] characters. *)
Lemma slice_middle (before t after : string) :
  JsString.slice (String.length before) (String.length after) (before +:+ t +:+ after) = t.
Proof.
  unfold JsString.slice. rewrite !str_length_app.
  replace (String.length before + (String.length t + String.length after)
           - String.length after - String.length before)%nat
    with (String.length t) by lia.
  induction before as [|c before IH].
  - rewrite str_app_nil_l. apply substring_start.
  - rewrite str_app_cons. cbn [String.length String.substring]. exact IH.
Qed.

Lemma includes_prefix (p s : string) :
  JsString.includes p s = false -> String.prefix p s = false.
Proof. destruct s; cbn; intros H; apply orb_false_iff in H; tauto. Qed.

Lemma startsWith_app (p s : string) : JsString.startsWith p (p +:+ s) = true.
Proof.
  unfold JsString.startsWith. induction p as [|x p IH]; [destruct s; reflexivity|].
  rewrite str_app_cons, prefix_cons, Ascii.eqb_refl. exact IH.
Qed.

End ItalicLines.

(** A line between two single stars is an italic line of the text
    between them, stars off, provided it holds no pipe and no pair of
    stars. *)
Theorem starred_line_is_italic (t : string) :
  JsString.includes "|" ("*" +:+ t +:+ "*") = false ->
  JsString.includes "**" ("*" +:+ t +:+ "*") = false ->
  Formatter.formatLine ("*" +:+ t +:+ "*") = Formatter.Italic t.
Proof.
  intros Hpipe Hstars.
  unfold Formatter.formatLine, Formatter.tableRule, Formatter.textRules.
  rewrite Hpipe, Hstars.
  unfold JsString.startsWith at 2. rewrite (includes_prefix _ _ Hstars).
  rewrite <- (str_app_assoc "*" t "*"), endsWith_app, str_app_assoc.
  rewrite startsWith_app. cbn [andb negb].
  exact (f_equal Formatter.Italic (slice_middle "*" t "*")).
Qed.

Lemma starred_line_is_italic_witness :
  Formatter.formatLine ("*" +:+ "prices may change" +:+ "*")
  = Formatter.Italic "prices may change".
Proof. apply (starred_line_is_italic "prices may change"); reflexivity. Defined.

(** ** Bold runs *)

Section BoldRuns.

Import RegExp Formatter.

Lemma spans_boldRun (s : string) : spans false boldRun s = spans false boldMarker s.
Proof.
  rewrite spans_boldMarker. unfold boldRun.
  rewrite spans_Group, spans_Seq, spans_Str by discriminate. reflexivity.
Qed.

Lemma matches_boldRun_other (c : ascii) (s : string) :
  notStar c = true -> matches false boldRun (String c s) = [].
Proof.
  intros H. apply spans_nil. rewrite spans_boldRun. apply spans_nil.
  apply matches_boldMarker_other, H.
Qed.

Lemma head_matches_boldRun (t post : string) :
  every notStar t = true -> every dot t = true ->
  exists x l,
    matches false boldRun ("**" +:+ t +:+ "**" +:+ post) = x :: l /\
    matched x = "**" +:+ t +:+ "**" /\ rest x = post /\
    captures boldRun x = ["**" +:+ t +:+ "**"].
Proof.
  intros Hstar Hdot.
  destruct (head_matches_boldMarker t post Hstar Hdot) as (y & Hy & Hm & Hr & _).
  assert (head (spans false boldRun ("**" +:+ t +:+ "**" +:+ post))
          = Some ("**" +:+ t +:+ "**", post)) as Hsp.
  { rewrite spans_boldRun, head_spans, Hy. cbn. unfold span. rewrite Hm, Hr. reflexivity. }
  rewrite head_spans in Hsp.
  destruct (matches false boldRun ("**" +:+ t +:+ "**" +:+ post)) as [|x l] eqn:E;
    [discriminate|].
  cbn in Hsp. injection Hsp as Hxm Hxr.
  exists x, l. repeat split; auto.
  assert (x ∈ matches false boldRun ("**" +:+ t +:+ "**" +:+ post)) as Hin
    by (rewrite E; left).
  unfold boldRun in Hin. cbn [matches] in Hin.
  apply list_elem_of_fmap in Hin as (z & -> & _).
  cbn in Hxm. unfold captures, group. cbn. rewrite Hxm. reflexivity.
Qed.

(** The search of [split] runs over text without stars. *)
Lemma split_from_plain (a : string) :
  forall (fuel : nat) (piece s : string),
    every notStar a = true ->
    (String.length a <= fuel)%nat ->
    split_from fuel false boldRun piece (a +:+ s)
    = split_from (fuel - String.length a) false boldRun (piece +:+ a) s.
Proof.
  induction a as [|c a IH]; intros fuel piece s Ha Hfuel.
  - rewrite str_app_nil_l, str_app_nil_r, Nat.sub_0_r. reflexivity.
  - cbn in Ha, Hfuel. apply andb_true_iff in Ha as [Hc Ha].
    destruct fuel as [|fuel]; [lia|].
    rewrite str_app_cons. cbn [split_from].
    rewrite (matches_boldRun_other c _ Hc).
    rewrite IH by (auto; lia).
    replace (piece +:+ String c a) with ((piece +:+ String c "") +:+ a)
      by (rewrite str_app_assoc; reflexivity).
    reflexivity.
Qed.

Lemma split_from_marked (runs : list (string * string)) :
  forall (fuel : nat) (plain : string),
    every notStar plain = true ->
    Forall starFree runs ->
    (String.length (marked plain runs) < fuel)%nat ->
    split_from fuel false boldRun "" (marked plain runs)
    = plain :: (runs ≫= fun run => ["**" +:+ run.1 +:+ "**"; run.2]).
Proof.
  induction runs as [|[t p] runs IH]; intros fuel plain Hplain Hruns Hfuel.
  - cbn [marked] in *. rewrite <- (str_app_nil_r plain) at 1.
    rewrite split_from_plain by (auto; lia). rewrite str_app_nil_l.
    destruct (fuel - String.length plain)%nat eqn:E; [lia|]. reflexivity.
  - apply Forall_cons in Hruns as [(Ht & Hdot & Hp) Hruns]. cbn [fst snd] in *.
    cbn [marked] in *. rewrite !str_length_app in Hfuel. cbn [String.length] in Hfuel.
    rewrite split_from_plain by (auto; lia). rewrite str_app_nil_l.
    destruct (head_matches_boldRun t (marked p runs) Ht Hdot)
      as (x & l & Hm & Hxm & Hxr & Hcap).
    destruct (fuel - String.length plain)%nat as [|fuel'] eqn:E; [lia|].
    change ("**" +:+ t +:+ "**" +:+ marked p runs)
      with (String "*" ("*" +:+ t +:+ "**" +:+ marked p runs)) in *.
    cbn [split_from]. rewrite Hm, Hxm, Hcap, Hxr.
    change (String "*" ("*" +:+ t +:+ "**")) with ("**" +:+ t +:+ "**").
    rewrite bind_cons. cbn [fst snd app].
    rewrite IH by (auto; lia). destruct plain; reflexivity.
Qed.

Lemma includes_app (p a b : string) : JsString.includes p (a +:+ p +:+ b) = true.
Proof.
  induction a as [|c a IH].
  - rewrite str_app_nil_l.
    pose proof (startsWith_app p b) as Hp. unfold JsString.startsWith in Hp.
    destruct (p +:+ b); cbn [JsString.includes]; rewrite Hp; reflexivity.
  - rewrite str_app_cons. cbn [JsString.includes]. rewrite IH. apply orb_true_r.
Qed.

Lemma boldPart_plain (p : string) : every notStar p = true -> boldPart p = Plain p.
Proof.
  intros Hp. unfold boldPart.
  assert (JsString.startsWith "**" p = false) as ->; [|reflexivity].
  destruct p as [|c p]; [reflexivity|].
  unfold JsString.startsWith. rewrite prefix_cons.
  cbn in Hp. apply andb_true_iff in Hp as [Hc _]. unfold notStar in Hc.
  apply negb_true_iff in Hc. rewrite Ascii.eqb_sym, Hc. reflexivity.
Qed.

Lemma boldPart_marker (t : string) : boldPart ("**" +:+ t +:+ "**") = Bold t.
Proof.
  unfold boldPart.
  rewrite <- (str_app_assoc "**" t "**"), endsWith_app, str_app_assoc.
  rewrite startsWith_app. cbn [andb]. exact (f_equal Bold (slice_middle "**" t "**")).
Qed.

End BoldRuns.

(** The bold rule reads back what was written with markers.  A line
    written as plain text followed by one or more bold runs between pairs
    of stars, each followed by plain text, none of the texts holding a
    star and the line holding no pipe, becomes one block whose spans are
    those texts in order: plain, bold, plain, and so on, the texts
    unchanged and the stars gone.  A text may be empty; it still gets its
    span. *)
Theorem bold_markup_round_trip (plain : string) (runs : list (string * string)) :
  runs <> [] ->
  every notStar plain = true ->
  Forall starFree runs ->
  JsString.includes "|" (marked plain runs) = false ->
  Formatter.formatLine (marked plain runs) = Formatter.Spans (spansOf plain runs).
Proof.
  intros Hne Hplain Hruns Hpipe.
  unfold Formatter.formatLine, Formatter.tableRule, Formatter.textRules.
  rewrite Hpipe.
  assert (JsString.includes "**" (marked plain runs) = true) as ->.
  { destruct runs as [|[t p] runs]; [congruence|]. cbn [marked]. apply includes_app. }
  f_equal.
  assert (RegExp.split false Formatter.boldRun (marked plain runs)
          = RegExp.split_from (2 * String.length (marked plain runs) + 2) false
              Formatter.boldRun "" (marked plain runs)) as ->.
  { unfold RegExp.split. destruct (marked plain runs) eqn:E; [|reflexivity].
    destruct runs as [|[t p] runs]; [congruence|]. cbn [marked] in E.
    apply str_app_eq_nil in E as [_ E]. discriminate. }
  rewrite split_from_marked by (auto; lia).
  unfold spansOf. rewrite fmap_cons, boldPart_plain by exact Hplain. f_equal.
  clear Hne Hpipe Hplain. induction runs as [|[t p] runs IH]; [reflexivity|].
  apply Forall_cons in Hruns as [(_ & _ & Hp) Hruns]. cbn [snd] in Hp.
  rewrite !bind_cons, fmap_app, (IH Hruns). cbn [fst snd fmap list_fmap].
  rewrite boldPart_marker, boldPart_plain by exact Hp. reflexivity.
Qed.

Lemma bold_markup_round_trip_witness :
  Formatter.formatLine (marked "Hello " [("world", "!")])
  = Formatter.Spans (spansOf "Hello " [("world", "!")]).
Proof.
  apply (bold_markup_round_trip "Hello " [("world", "!")]).
  - discriminate.
  - reflexivity.
  - repeat constructor.
  - reflexivity.
Defined.

(** ** The image pass *)

Section ImagePass.

Import RegExp.



End ImagePass.


(** ** Blank input *)

Section BlankInput.

Lemma trimStart_blank_iff (s : string) :
  JsString.trimStart s = "" <-> every JsString.isWhiteSpace s = true.
Proof.
  induction s as [|c s IH]; [cbn; tauto|].
  cbn. destruct (JsString.isWhiteSpace c); cbn; [exact IH|].
  split; discriminate.
Qed.

Lemma trimStart_head (s : string) :
  match JsString.trimStart s with
  | String c _ => JsString.isWhiteSpace c = false
  | EmptyString => True
  end.
Proof.
  induction s as [|c s IH]; [exact I|].
  cbn. destruct (JsString.isWhiteSpace c) eqn:E; [exact IH | exact E].
Qed.

Lemma trim_blank_iff (s : string) :
  JsString.trim s = "" <-> every JsString.isWhiteSpace s = true.
Proof.
  rewrite <- trimStart_blank_iff. unfold JsString.trim.
  pose proof (trimStart_head s) as Hhead.
  destruct (JsString.trimStart s) as [|c t]; [cbn; tauto|].
  cbn [JsString.trimEnd]. rewrite Hhead.
  split; [|discriminate].
  destruct (JsString.trimEnd t); discriminate.
Qed.

End BlankInput.

(** What is ignored is white space.  With no request pending, a call of
    [sendMessage] leaves the world as it is exactly when every character
    of the input is white space (space, tab, line feed and the like, or
    no character at all); one other character anywhere and the message
    is sent as typed. *)
Theorem only_white_space_is_ignored (c : Component) (e : Env) (w : World) :
  isLoading (react w) = false ->
  (sendMessage c e w = (Ok tt, w)
   <-> every JsString.isWhiteSpace (inputMessage (react w)) = true).
Proof.
  intros Hidle. rewrite <- trim_blank_iff, sendMessage_unfold.
  destruct (ignored (react w)) eqn:Hig.
  - apply ignored_true in Hig as [Hig | Hig]; [congruence|]. tauto.
  - apply ignored_false in Hig as [Htrim _]. rewrite settle_eq.
    split; [|congruence]. intros [= H].
    apply (f_equal (fun w0 => length (messages (react w0)))) in H.
    cbn in H. rewrite !length_app in H. cbn in H. lia.
Qed.

Lemma only_white_space_is_ignored_witness :
  sendMessage TheChatApp (Samples.env Rejected 1000 1500) (Samples.typed "   ")
    = (Ok tt, Samples.typed "   ")
  <-> every JsString.isWhiteSpace (inputMessage (react (Samples.typed "   "))) = true.
Proof.
  apply (only_white_space_is_ignored TheChatApp (Samples.env Rejected 1000 1500)
           (Samples.typed "   ")).
  reflexivity.
Defined.

(** ** Starting ChatApp *)

(** Without a record of the history, or with one that is the empty
    string, ChatApp starts with the history it has, the empty one, and
    touches nothing: no message is made up, nothing is written and
    nothing is removed. *)
Theorem ChatApp_starts_empty_without_record (now date : Z) (w : World) :
  stored "chatHistory" w = None \/ stored "chatHistory" w = Some (Unparseable "") ->
  messages (react w) = [] ->
  mount TheChatApp now date w = (Ok tt, w).
Proof.
  intros Hrec Hempty. unfold mount, bind. cbn [loadEffect saveEffect].
  assert (ChatApp.loadEffect w = (Ok tt, w)) as ->.
  { cbv [ChatApp.loadEffect try_catch bind localStorage.getItem].
    unfold stored in Hrec. destruct Hrec as [-> | ->]; reflexivity. }
  rewrite ChatApp_saveEffect_eq, Hempty. reflexivity.
Qed.

Lemma ChatApp_starts_empty_without_record_witness :
  mount TheChatApp 1000 1000 (Samples.typed "") = (Ok tt, Samples.typed "").
Proof.
  apply (ChatApp_starts_empty_without_record 1000 1000 (Samples.typed "")).
  - left. reflexivity.
  - reflexivity.
Defined.

Lemma ChatApp_discards_other_documents_witness :
  exists w' : World,
    ChatApp.loadEffect otherDocument = (Ok tt, w') /\
    react w' = react otherDocument /\
    stored "chatHistory" w' = None.
Proof.
  apply (ChatApp_discards_other_documents (JObj [("version", JNum 2)]) otherDocument).
  - reflexivity.
  - discriminate.
Defined.
